(** * Complex.js v1.5.0: a shallow embedding and its specification

    The library [src/complex.js] is embedded function by function.

    - A JavaScript number is an IEEE-754 binary64 value: Rocq's primitive
      [float], whose operations are specified bit for bit by [SpecFloat].
      [+ - * /], unary minus, [Math.abs], the comparisons ([===] is [=?]),
      [%], [Math.floor], [Math.ceil] and [Math.round] are fixed by the
      language and modelled exactly; [Math.sqrt] is the IEEE square root,
      as engines compute it.
    - [Math.log], [Math.exp], [Math.cos], [Math.sin], [Math.atan2],
      [Math.pow], [Math.cosh] and [Math.sinh] are left to the engine by the
      language ("implementation-approximated"): they are the fields of the
      class [Math.lib], and every general theorem holds for every engine.
      One concrete engine, [RefMath.engine], computes them with 192-bit
      series and rounds once; it is used where a number has to be shown.
    - [parse] stages its result in the shared scratch object [P]; the
      scratch object is threaded through every call, and an exception
      ([throw "..."]) is a completion carrying the thrown string.
    - A JavaScript string is a [string], one character per code unit
      (code units below 256). The regular expression of [parse] is
      embedded as a matcher on what is left of the string ([RegExp.exec]);
      [parseFloat] reads the longest decimal literal and rounds its exact
      value once, as engines do ([Text.parseFloat]).
    - [ToString] of a number, whose digits the language leaves in part to
      the engine, is the class [NumberToString]; general theorems hold for
      every engine, and [RefNumber.engine] writes the shortest decimal
      that reads back, where a string has to be shown. *)

From Stdlib Require Import Ascii ZArith Bool List Lia Floats String.
Import ListNotations.

Set Warnings "-inexact-float".
Local Open Scope float_scope.

(** ** JavaScript numbers *)

Module JS.

(** [x % y] (Number::remainder): exact, truncating, sign of the dividend. *)
Definition SFrem (x y : spec_float) : spec_float :=
  match x, y with
  | S754_nan, _ | _, S754_nan => S754_nan
  | S754_infinity _, _ => S754_nan
  | _, S754_zero _ => S754_nan
  | S754_zero _, _ => x
  | S754_finite _ _ _, S754_infinity _ => x
  | S754_finite sx mx ex, S754_finite _ my ey =>
      let e := Z.min ex ey in
      let r := Z.rem (Z.pos mx * 2 ^ (ex - e)) (Z.pos my * 2 ^ (ey - e)) in
      binary_normalize prec emax (cond_Zopp sx r) e sx
  end.

Definition rem (x y : float) : float := SF2Prim (SFrem (Prim2SF x) (Prim2SF y)).

(** [isNaN(x)] on a number. *)
Definition isNaN (x : float) : bool := is_nan x.

(** A JavaScript call either completes normally or throws a string. *)
Inductive completion (A : Type) : Type :=
| Normal (a : A)
| Throw (msg : string).
Arguments Normal {A} a.
Arguments Throw {A} msg.

End JS.

Export JS (completion, Normal, Throw).

(** ** The Math object *)

Module Math.

(** The functions whose result the language leaves to the engine. *)
Class lib : Type := {
  log : float -> float;
  exp : float -> float;
  cos : float -> float;
  sin : float -> float;
  atan2 : float -> float -> float;
  pow : float -> float -> float;
  cosh : float -> float;
  sinh : float -> float
}.

Definition abs (x : float) : float := PrimFloat.abs x.
Definition sqrt (x : float) : float := PrimFloat.sqrt x.

(** Rounding to an integer of a finite number [±m·2^e] with [e < 0];
    [q] maps the signed mantissa and the denominator to the integer.
    A zero result keeps the sign of the argument. *)
Definition SFint (q : Z -> Z -> Z) (x : spec_float) : spec_float :=
  match x with
  | S754_finite s m e =>
      if (0 <=? e)%Z then x
      else binary_normalize prec emax (q (cond_Zopp s (Z.pos m)) (2 ^ (- e))%Z) 0 s
  | _ => x
  end.

Definition floor (x : float) : float :=
  SF2Prim (SFint (fun v d => v / d)%Z (Prim2SF x)).
Definition ceil (x : float) : float :=
  SF2Prim (SFint (fun v d => - ((- v) / d))%Z (Prim2SF x)).
(** [Math.round]: nearest integer, a tie goes up. *)
Definition round (x : float) : float :=
  SF2Prim (SFint (fun v d => (2 * v + d) / (2 * d))%Z (Prim2SF x)).

End Math.

(** ** The library *)

(** The two strings the library throws. *)
Definition INVALID_PARAM : string := "Invalid Param".
Definition DIV_BY_ZERO : string := "DIV/0".

(** [var EPSILON = 1e-16] *)
Definition EPSILON : float := 1e-16.

(** A [Complex] object: its two own properties. *)
Record complex : Type := mkComplex { re : float; im : float }.

(** [var P = {...}]: the scratch object [parse] writes to. *)
Record scratch : Type := mkScratch { P_re : float; P_im : float }.

(** A computation of the library: it reads and writes [P], and completes. *)
Definition Js (A : Type) : Type := scratch -> completion A * scratch.

Definition ret {A} (a : A) : Js A := fun P => (Normal a, P).
Definition throw {A} (msg : string) : Js A := fun P => (Throw msg, P).
Definition bind {A B} (c : Js A) (k : A -> Js B) : Js B :=
  fun P => match c P with
           | (Normal a, P') => k a P'
           | (Throw msg, P') => (Throw msg, P')
           end.
Definition getP : Js scratch := fun P => (Normal P, P).
Definition setP_re (v : float) : Js unit := fun P => (Normal tt, mkScratch v (P_im P)).
Definition setP_im (v : float) : Js unit := fun P => (Normal tt, mkScratch (P_re P) v).

Declare Scope js_scope.
Delimit Scope js_scope with js.
Notation "x <- c ;; k" := (bind c (fun x => k))
  (at level 61, c at next level, right associativity) : js_scope.
Notation "c ;; k" := (bind c (fun _ => k))
  (at level 61, right associativity) : js_scope.
Local Open Scope js_scope.

(** What a call yields, whatever [P] held before it. *)
Definition returns {A} (c : Js A) (a : A) : Prop := forall P, fst (c P) = Normal a.
Definition raises {A} (c : Js A) (msg : string) : Prop := forall P, fst (c P) = Throw msg.

(** The shapes of the argument list [(a, b)] that [parse] tells apart.
    The string form is [parse_string], further down. *)
Inductive args : Type :=
| ArgsNone                       (* [a] is [null] or [undefined] *)
| ArgsPair (a b : float)         (* two numbers *)
| ArgsReIm (re im : float)       (* one object with "re" and "im", e.g. a [Complex] *)
| ArgsPolar (abs arg : float)    (* one object with "abs" and "arg" *)
| ArgsNumber (a : float)         (* one number *)
| ArgsOther.                     (* one argument of any other kind *)

(** Passing a [Complex] object as the only argument. *)
Definition this_arg (z : complex) : args := ArgsReIm (re z) (im z).

(** [heaviside] *)
Definition heaviside (x : float) : float := if x <? 0 then -1 else 1.

(** [parser_exit] *)
Definition parser_exit {A} : Js A := throw INVALID_PARAM.

Section Library.

Context {M : Math.lib}.

(** [logsq2] *)
Definition logsq2 (a b : float) : float :=
  let _a := Math.abs a in
  let _b := Math.abs b in
  if a =? 0 then Math.log _b
  else if b =? 0 then Math.log _a
  else if (_a <? 1000) && (_b <? 1000) then Math.log (a * a + b * b) * 0.5
  else Math.log (a / Math.cos (Math.atan2 b a)).

(** [parse] *)
Definition parse (a : args) : Js unit :=
  match a with
  | ArgsNone => setP_re 0 ;; setP_im 0
  | ArgsPair a b => setP_re a ;; setP_im b
  | ArgsReIm r i => setP_re r ;; setP_im i
  | ArgsPolar r phi =>
      setP_re (r * Math.cos phi) ;; setP_im (r * Math.sin phi)
  | ArgsNumber a => setP_im 0 ;; setP_re a
  | ArgsOther => parser_exit
  end ;;
  P <- getP ;;
  if JS.isNaN (P_re P * P_im P) then parser_exit else ret tt.

(** [function Complex(a, b)], with or without [new]. *)
Definition Complex (a : args) : Js complex :=
  parse a ;;
  P <- getP ;;
  ret (mkComplex (P_re P) (P_im P)).

(** [abs] *)
Definition abs (this : complex) : float :=
  let a := Math.abs (re this) in
  let b := Math.abs (im this) in
  if (a <? 1000) && (b <? 1000) then Math.sqrt (a * a + b * b)
  else
    let '(a, b) := if a <? b then (b, re this / im this)
                   else (a, im this / re this) in
    a * Math.sqrt (1 + b * b).

(** [arg] *)
Definition arg (this : complex) : float := Math.atan2 (im this) (re this).

(** [sign] *)
Definition sign (this : complex) : Js complex :=
  let abs := abs this in
  Complex (ArgsPair (re this / abs) (im this / abs)).

(** [add] *)
Definition add (this : complex) (a : args) : Js complex :=
  parse a ;;
  P <- getP ;;
  Complex (ArgsPair (re this + P_re P) (im this + P_im P)).

(** [sub] *)
Definition sub (this : complex) (a : args) : Js complex :=
  parse a ;;
  P <- getP ;;
  Complex (ArgsPair (re this - P_re P) (im this - P_im P)).

(** [mul] *)
Definition mul (this : complex) (a : args) : Js complex :=
  parse a ;;
  P <- getP ;;
  Complex (ArgsPair (re this * P_re P - im this * P_im P)
                    (re this * P_im P + im this * P_re P)).

(** [div] *)
Definition div (this : complex) (a : args) : Js complex :=
  parse a ;;
  let a := re this in
  let b := im this in
  P <- getP ;;
  let c := P_re P in
  let d := P_im P in
  if (0 =? c) && (0 =? d) then throw DIV_BY_ZERO
  else if Math.abs c <? Math.abs d then
    let x := c / d in
    let t := c * x + d in
    Complex (ArgsPair ((a * x + b) / t) ((b * x - a) / t))
  else
    let x := d / c in
    let t := d * x + c in
    Complex (ArgsPair ((a + b * x) / t) ((b - a * x) / t)).

(** [pow] *)
Definition pow (this : complex) (a : args) : Js complex :=
  parse a ;;
  let a := re this in
  let b := im this in
  if (a =? 0) && (b =? 0) then Complex (ArgsPair 0 0)
  else
    let arg := Math.atan2 b a in
    let log := logsq2 a b in
    P <- getP ;;
    let general :=
      let a := Math.exp (P_re P * log - P_im P * arg) in
      let b := P_im P * log + P_re P * arg in
      Complex (ArgsPair (a * Math.cos b) (a * Math.sin b)) in
    if P_im P =? 0 then
      if (b =? 0) && (0 <=? a) then
        Complex (ArgsPair (Math.pow a (P_re P)) 0)
      else if a =? 0 then
        let k := JS.rem (P_re P) 4 in
        if k =? 0 then Complex (ArgsPair (Math.pow b (P_re P)) 0)
        else if k =? 1 then Complex (ArgsPair 0 (Math.pow b (P_re P)))
        else if k =? 2 then Complex (ArgsPair (- Math.pow b (P_re P)) 0)
        else if k =? 3 then Complex (ArgsPair 0 (- Math.pow b (P_re P)))
        else general
      else general
    else general.

(** [sqrt] *)
Definition sqrt (this : complex) : Js complex :=
  let r := abs this in
  Complex (ArgsPair (Math.sqrt ((r + re this) * 0.5))
                    (Math.sqrt ((r - re this) * 0.5) * heaviside (im this))).

(** [exp] *)
Definition exp (this : complex) : Js complex :=
  let tmp := Math.exp (re this) in
  Complex (ArgsPair (tmp * Math.cos (im this)) (tmp * Math.sin (im this))).

(** [log] *)
Definition log (this : complex) : Js complex :=
  let a := re this in
  let b := im this in
  Complex (ArgsPair (logsq2 a b) (Math.atan2 b a)).

(** [sin] *)
Definition sin (this : complex) : Js complex :=
  let a := re this in
  let b := im this in
  Complex (ArgsPair (Math.sin a * Math.cosh b) (Math.cos a * Math.sinh b)).

(** [cos] *)
Definition cos (this : complex) : Js complex :=
  let a := re this in
  let b := im this in
  Complex (ArgsPair (Math.cos a * Math.cosh b) (- Math.sin a * Math.sinh b)).

(** [tan] *)
Definition tan (this : complex) : Js complex :=
  let a := re this in
  let b := im this in
  let d := Math.cos (2 * a) + Math.cosh (2 * b) in
  Complex (ArgsPair (Math.sin (2 * a) / d) (Math.sinh (2 * b) / d)).

(** [sinh] *)
Definition sinh (this : complex) : Js complex :=
  let a := re this in
  let b := im this in
  Complex (ArgsPair (Math.sinh a * Math.cos b) (Math.cosh a * Math.sin b)).

(** [cosh] *)
Definition cosh (this : complex) : Js complex :=
  let a := re this in
  let b := im this in
  Complex (ArgsPair (Math.cosh a * Math.cos b) (Math.sinh a * Math.sin b)).

(** [tanh] *)
Definition tanh (this : complex) : Js complex :=
  let a := re this in
  let b := im this in
  let d := Math.cosh (2 * a) + Math.cos (2 * b) in
  Complex (ArgsPair (Math.sinh (2 * a) / d) (Math.sin (2 * b) / d)).

(** [inverse] *)
Definition inverse (this : complex) : Js complex :=
  let a := re this in
  let b := im this in
  let t := a * a + b * b in
  if 0 =? t then throw DIV_BY_ZERO
  else Complex (ArgsPair (a / t) (- b / t)).

(** [conjugate] *)
Definition conjugate (this : complex) : Js complex :=
  Complex (ArgsPair (re this) (- im this)).

(** [neg] *)
Definition neg (this : complex) : Js complex :=
  Complex (ArgsPair (- re this) (- im this)).

(** [places || 0], for [places] a number or [undefined]. *)
Definition places_or_0 (places : option float) : float :=
  match places with
  | Some p => if (p =? 0) || JS.isNaN p then 0 else p
  | None => 0
  end.

(** [ceil] *)
Definition ceil (this : complex) (places : option float) : Js complex :=
  let places := Math.pow 10 (places_or_0 places) in
  Complex (ArgsPair (Math.ceil (re this * places) / places)
                    (Math.ceil (im this * places) / places)).

(** [floor] *)
Definition floor (this : complex) (places : option float) : Js complex :=
  let places := Math.pow 10 (places_or_0 places) in
  Complex (ArgsPair (Math.floor (re this * places) / places)
                    (Math.floor (im this * places) / places)).

(** [round] *)
Definition round (this : complex) (places : option float) : Js complex :=
  let places := Math.pow 10 (places_or_0 places) in
  Complex (ArgsPair (Math.round (re this * places) / places)
                    (Math.round (im this * places) / places)).

(** [equals] *)
Definition equals (this : complex) (a : args) : Js bool :=
  parse a ;;
  P <- getP ;;
  ret ((Math.abs (P_re P - re this) <=? EPSILON)
       && (Math.abs (P_im P - im this) <=? EPSILON)).

(** [clone] *)
Definition clone (this : complex) : Js complex :=
  Complex (ArgsPair (re this) (im this)).

(** [toVector] *)
Definition toVector (this : complex) : list float := [re this; im this].

(** [valueOf]: [None] stands for [null]. *)
Definition valueOf (this : complex) : option float :=
  if im this =? 0 then Some (re this) else None.

(** [Complex["ZERO"]], [Complex["ONE"]], [Complex["I"]]: the objects the
    constructor built when the library was loaded. *)
Definition ZERO : complex := mkComplex 0 0.
Definition ONE : complex := mkComplex 1 0.
Definition I : complex := mkComplex 0 1.

(** [asin] *)
Definition asin (this : complex) : Js complex :=
  t1 <- mul this (this_arg this) ;;
  t2 <- neg t1 ;;
  t3 <- add t2 (ArgsNumber 1) ;;
  t4 <- sqrt t3 ;;
  t5 <- mul this (this_arg I) ;;
  t6 <- add t4 (this_arg t5) ;;
  t7 <- log t6 ;;
  t8 <- mul t7 (this_arg I) ;;
  neg t8.

(** [acos] *)
Definition acos (this : complex) : Js complex :=
  t1 <- mul this (this_arg this) ;;
  t2 <- neg t1 ;;
  t3 <- add t2 (ArgsNumber 1) ;;
  t4 <- sqrt t3 ;;
  t5 <- mul t4 (this_arg I) ;;
  t6 <- add t5 (this_arg this) ;;
  t7 <- log t6 ;;
  t8 <- mul t7 (this_arg I) ;;
  neg t8.

(** [atan] *)
Definition atan (this : complex) : Js complex :=
  t1 <- add I (this_arg this) ;;
  t2 <- sub I (this_arg this) ;;
  t3 <- div t1 (this_arg t2) ;;
  t4 <- log t3 ;;
  t5 <- mul t4 (this_arg I) ;;
  div t5 (ArgsNumber 2).

(** Every call of the library that hands a [Complex] object back. *)
Inductive call : Type :=
| CallComplex (a : args)
| CallSign (this : complex)
| CallAdd (this : complex) (a : args)
| CallSub (this : complex) (a : args)
| CallMul (this : complex) (a : args)
| CallDiv (this : complex) (a : args)
| CallPow (this : complex) (a : args)
| CallSqrt (this : complex)
| CallExp (this : complex)
| CallLog (this : complex)
| CallSin (this : complex)
| CallCos (this : complex)
| CallTan (this : complex)
| CallAsin (this : complex)
| CallAcos (this : complex)
| CallAtan (this : complex)
| CallSinh (this : complex)
| CallCosh (this : complex)
| CallTanh (this : complex)
| CallInverse (this : complex)
| CallConjugate (this : complex)
| CallNeg (this : complex)
| CallCeil (this : complex) (places : option float)
| CallFloor (this : complex) (places : option float)
| CallRound (this : complex) (places : option float)
| CallClone (this : complex).

Definition run (c : call) : Js complex :=
  match c with
  | CallComplex a => Complex a
  | CallSign z => sign z
  | CallAdd z a => add z a
  | CallSub z a => sub z a
  | CallMul z a => mul z a
  | CallDiv z a => div z a
  | CallPow z a => pow z a
  | CallSqrt z => sqrt z
  | CallExp z => exp z
  | CallLog z => log z
  | CallSin z => sin z
  | CallCos z => cos z
  | CallTan z => tan z
  | CallAsin z => asin z
  | CallAcos z => acos z
  | CallAtan z => atan z
  | CallSinh z => sinh z
  | CallCosh z => cosh z
  | CallTanh z => tanh z
  | CallInverse z => inverse z
  | CallConjugate z => conjugate z
  | CallNeg z => neg z
  | CallCeil z p => ceil z p
  | CallFloor z p => floor z p
  | CallRound z p => round z p
  | CallClone z => clone z
  end.

End Library.

(** ** A reference engine

    One way an engine may implement the functions of [Math.lib]: every
    function is evaluated on dyadic numbers [m·2^e] with [bits] significant
    bits (argument reduction, then a power series) and rounded to binary64
    once, with the special cases the language fixes. *)

Module RefMath.

(** [Σ ±1 / ((2k+1) n^(2k+1))], scaled by a power of two; [pw] is the
    scaled [1/n^(2k-1)]. *)
Fixpoint inv_odd_series (fuel : nat) (alt : bool) (n2 pw k acc : Z) : Z :=
  match fuel with
  | O => acc
  | S f =>
      let pw' := (pw / n2)%Z in
      let t := (pw' / (2 * k + 1))%Z in
      inv_odd_series f alt n2 pw' (k + 1)
        (if alt && Z.odd k then acc - t else acc + t)%Z
  end.

(** [atan (1/n) · 2^s] and [atanh (1/n) · 2^s], with 64 guard bits. *)
Definition atan_inv_fix (s n : Z) : Z :=
  let pw := (Z.shiftl 1 (s + 64) / n)%Z in
  Z.shiftr (inv_odd_series (Z.to_nat (s / 4 + 32)) true (n * n) pw 1 pw) 64.
Definition atanh_inv_fix (s n : Z) : Z :=
  let pw := (Z.shiftl 1 (s + 64) / n)%Z in
  Z.shiftr (inv_odd_series (Z.to_nat (s / 3 + 32)) false (n * n) pw 1 pw) 64.

(** Machin's formula, and [ln 2 = 2 atanh (1/3)]. *)
Definition pi_fix (s : Z) : Z := (16 * atan_inv_fix s 5 - 4 * atan_inv_fix s 239)%Z.
Definition ln2_fix (s : Z) : Z := (2 * atanh_inv_fix s 3)%Z.

(** Dyadic numbers [mant · 2^expo]. *)
Record dy : Type := Dy { mant : Z; expo : Z }.

Definition bits : Z := 192.

Definition digits (m : Z) : Z := Z.log2 (Z.abs m) + 1.
Definition top (x : dy) : Z := expo x + digits (mant x).
Definition dz (n : Z) : dy := Dy n 0.
Definition dopp (x : dy) : dy := Dy (- mant x) (expo x).
Definition dabs (x : dy) : dy := Dy (Z.abs (mant x)) (expo x).
Definition dshift (x : dy) (k : Z) : dy := Dy (mant x) (expo x + k).
Definition to_fix (s : Z) (x : dy) : Z := Z.shiftl (mant x) (expo x + s).

(** Keep [bits] significant bits (towards zero). *)
Definition trunc (x : dy) : dy :=
  let s := (digits (mant x) - bits)%Z in
  if (0 <? s)%Z
  then Dy (Z.sgn (mant x) * Z.shiftr (Z.abs (mant x)) s) (expo x + s)
  else x.

Definition dmul (x y : dy) : dy :=
  trunc (Dy (mant x * mant y) (expo x + expo y)).

Definition dadd (x y : dy) : dy :=
  if (mant x =? 0)%Z then y
  else if (mant y =? 0)%Z then x
  else if (top y + bits + 8 <? top x)%Z then x
  else if (top x + bits + 8 <? top y)%Z then y
  else
    let e := Z.min (expo x) (expo y) in
    trunc (Dy (Z.shiftl (mant x) (expo x - e) + Z.shiftl (mant y) (expo y - e)) e).

Definition dsub (x y : dy) : dy := dadd x (dopp y).

Definition ddiv (x y : dy) : dy :=
  let s := Z.max 0 (bits + digits (mant y) - digits (mant x) + 1) in
  Dy (Z.quot (Z.shiftl (mant x) s) (mant y)) (expo x - expo y - s).

Definition dltb (x y : dy) : bool := (mant (dsub x y) <? 0)%Z.

Definition ln2 : dy := Eval vm_compute in Dy (ln2_fix (bits + 64)) (- (bits + 64)).
Definition pi : dy := Eval vm_compute in Dy (pi_fix (bits + 64)) (- (bits + 64)).

(** [1 + u/3 + u^2/5 + ...] *)
Fixpoint odd_loop (fuel : nat) (u pw : dy) (k : Z) (acc : dy) : dy :=
  match fuel with
  | O => acc
  | S f =>
      let pw' := dmul pw u in
      odd_loop f u pw' (k + 1) (dadd acc (ddiv pw' (dz (2 * k + 1))))
  end.

(** [atanh t] for [|t| <= 0.18] and [atan t] for [|t| <= 0.42]. *)
Definition atanh_small (t : dy) : dy :=
  dmul t (odd_loop 48 (dmul t t) (dz 1) 1 (dz 1)).
Definition atan_small (t : dy) : dy :=
  dmul t (odd_loop 90 (dopp (dmul t t)) (dz 1) 1 (dz 1)).

(** [term + term·u/(n(n+1)) + term·u^2/(n(n+1)(n+2)(n+3)) + ...] *)
Fixpoint fact_loop (fuel : nat) (u term : dy) (n : Z) (acc : dy) : dy :=
  match fuel with
  | O => acc
  | S f =>
      let term' := ddiv (dmul term u) (dz (n * (n + 1))) in
      fact_loop f u term' (n + 2) (dadd acc term')
  end.

(** [sin r], [cos r] and [sinh r] for [|r| <= 0.8]. *)
Definition sin_small (r : dy) : dy :=
  fact_loop 32 (dopp (dmul r r)) r 2 r.
Definition cos_small (r : dy) : dy :=
  fact_loop 32 (dopp (dmul r r)) (dz 1) 1 (dz 1).
Definition sinh_small (r : dy) : dy :=
  fact_loop 32 (dmul r r) r 2 r.

(** [1 + r + r^2/2! + ...] for [|r| <= 0.35]. *)
Fixpoint exp_loop (fuel : nat) (r term : dy) (n : Z) (acc : dy) : dy :=
  match fuel with
  | O => acc
  | S f =>
      let term' := ddiv (dmul term r) (dz n) in
      exp_loop f r term' (n + 1) (dadd acc term')
  end.

(** [exp v]; beyond [±2^12] the result is far outside binary64. *)
Definition dexp (v : dy) : dy :=
  if (mant v =? 0)%Z then dz 1
  else if (12 <? top v)%Z then Dy 1 (if (mant v <? 0)%Z then -8192 else 8192)
  else
    let k := ((2 * to_fix 64 v + to_fix 64 ln2) / (2 * to_fix 64 ln2))%Z in
    let r := dsub v (dmul (dz k) ln2) in
    dshift (exp_loop 64 r (dz 1) 1 (dz 1)) k.

(** [log v] for [v > 0]: [v = f·2^E] with [f] between [1/√2] and [√2]. *)
Definition dlog (v : dy) : dy :=
  let m := mant v in
  let d := digits m in
  let s := if (Z.shiftl 1 (2 * d - 1) <? m * m)%Z then d else (d - 1)%Z in
  let t := ddiv (Dy (m - Z.shiftl 1 s) 0) (Dy (m + Z.shiftl 1 s) 0) in
  dadd (dmul (dz (expo v + s)) ln2) (dshift (atanh_small t) 1).

(** [atan z] for [z >= 0]. *)
Definition datan01 (z : dy) : dy :=
  if dltb (Dy 53 (-7)) z
  then dsub (dshift pi (-2)) (atan_small (ddiv (dsub (dz 1) z) (dadd (dz 1) z)))
  else atan_small z.
Definition datan_ratio (y x : dy) : dy :=
  if dltb x y then dsub (dshift pi (-1)) (datan01 (ddiv x y))
  else datan01 (ddiv y x).

(** Reduction of [x > 0] modulo [π/2]: the quadrant, whether the rest was
    reflected in [π/4], and the rest in [0, π/4]. *)
Definition halfpi_small : Z := Eval vm_compute in pi_fix 319.
Definition halfpi_large : Z := Eval vm_compute in pi_fix 1299.

Definition reduce (x : dy) : Z * bool * dy :=
  if (top x <=? -1)%Z then (0%Z, false, x)
  else
    let '(s, hp) := if (top x <=? 64)%Z then (320%Z, halfpi_small)
                    else (1300%Z, halfpi_large) in
    let X := to_fix s x in
    let k := (X / hp)%Z in
    let R := (X mod hp)%Z in
    if (hp <? 2 * R)%Z then (k mod 4, true, trunc (Dy (hp - R) (- s)))%Z
    else (k mod 4, false, trunc (Dy R (- s)))%Z.

(** [sin x] and [cos x] for [x > 0]. *)
Definition dsincos (x : dy) : dy * dy :=
  let '(q, swap, r) := reduce x in
  let s := if swap then cos_small r else sin_small r in
  let c := if swap then sin_small r else cos_small r in
  if (q =? 0)%Z then (s, c)
  else if (q =? 1)%Z then (c, dopp s)
  else if (q =? 2)%Z then (dopp s, dopp c)
  else (dopp c, s).

(** From and to binary64. *)
Definition of_SF (x : spec_float) : dy :=
  match x with
  | S754_finite s m e => Dy (cond_Zopp s (Z.pos m)) e
  | _ => dz 0
  end.

Definition to_float (x : dy) : float :=
  if (mant x =? 0)%Z then 0
  else if (1100 <? top x)%Z then (if (mant x <? 0)%Z then neg_infinity else infinity)
  else if (top x <? -1200)%Z then (if (mant x <? 0)%Z then neg_zero else 0)
  else SF2Prim (binary_normalize prec emax (mant x) (expo x) false).

Definition is_neg (x : spec_float) : bool :=
  match x with
  | S754_zero s | S754_infinity s | S754_finite s _ _ => s
  | S754_nan => false
  end.

Definition log (x : float) : float :=
  match Prim2SF x with
  | S754_nan => nan
  | S754_zero _ => neg_infinity
  | S754_infinity false => infinity
  | S754_finite false m e => to_float (dlog (Dy (Z.pos m) e))
  | _ => nan
  end.

Definition exp (x : float) : float :=
  match Prim2SF x with
  | S754_nan => nan
  | S754_zero _ => 1
  | S754_infinity false => infinity
  | S754_infinity true => 0
  | S754_finite _ _ _ as f => to_float (dexp (of_SF f))
  end.

Definition sin (x : float) : float :=
  match Prim2SF x with
  | S754_zero _ => x
  | S754_finite s m e =>
      let v := fst (dsincos (Dy (Z.pos m) e)) in
      to_float (if s then dopp v else v)
  | _ => nan
  end.

Definition cos (x : float) : float :=
  match Prim2SF x with
  | S754_zero _ => 1
  | S754_finite s m e => to_float (snd (dsincos (Dy (Z.pos m) e)))
  | _ => nan
  end.

Definition signed (s : bool) (x : float) : float := if s then - x else x.

Definition atan2 (y x : float) : float :=
  let fpi := to_float pi in
  let fpi2 := to_float (dshift pi (-1)) in
  match Prim2SF y, Prim2SF x with
  | S754_nan, _ | _, S754_nan => nan
  | S754_zero sy, (S754_zero sx | S754_infinity sx | S754_finite sx _ _) =>
      signed sy (if sx then fpi else 0)
  | (S754_infinity sy | S754_finite sy _ _), S754_zero _ => signed sy fpi2
  | S754_infinity sy, S754_infinity sx =>
      signed sy (to_float (if sx then dmul (dz 3) (dshift pi (-2)) else dshift pi (-2)))
  | S754_infinity sy, S754_finite _ _ _ => signed sy fpi2
  | S754_finite sy _ _, S754_infinity sx => signed sy (if sx then fpi else 0)
  | S754_finite sy my ey, S754_finite sx mx ex =>
      let t := datan_ratio (Dy (Z.pos my) ey) (Dy (Z.pos mx) ex) in
      signed sy (to_float (if sx then dsub pi t else t))
  end.

(** Whether a finite number is an integer, and whether it is odd. *)
Definition int_of (m : positive) (e : Z) : option Z :=
  if (0 <=? e)%Z then Some (Z.shiftl (Z.pos m) e)
  else if (Z.land (Z.pos m) (Z.ones (- e)) =? 0)%Z then Some (Z.shiftr (Z.pos m) (- e))
  else None.
Definition odd_int (x : spec_float) : bool :=
  match x with
  | S754_finite _ m e => match int_of m e with Some n => Z.odd n | None => false end
  | _ => false
  end.

(** The odd part of a mantissa and the power of two taken out. *)
Fixpoint odd_part (m : positive) : positive * Z :=
  match m with
  | xO m' => let '(o, t) := odd_part m' in (o, t + 1)%Z
  | _ => (m, 0%Z)
  end.

(** [|x|^y] for finite nonzero [x] and [y]: exactly when [y] is an
    integer and the power of the odd part of [x] stays within 2048 bits,
    through [exp (y · log |x|)] otherwise. *)
Definition dpow_approx (mx : positive) (ex : Z) (sy : bool) (my : positive) (ey : Z) : dy :=
  dexp (dmul (Dy (cond_Zopp sy (Z.pos my)) ey) (dlog (Dy (Z.pos mx) ex))).

Definition dpow (mx : positive) (ex : Z) (sy : bool) (my : positive) (ey : Z) : dy :=
  let '(o, t) := odd_part mx in
  match (if (ey <=? 11)%Z then int_of my ey else None) with
  | Some n =>
      if (n * digits (Z.pos o) <=? 2048)%Z || (o =? 1)%positive then
        let w := Dy (Z.pos o ^ n) ((ex + t) * n) in
        if sy then ddiv (dz 1) w else w
      else dpow_approx mx ex sy my ey
  | None => dpow_approx mx ex sy my ey
  end.

Definition pow (x y : float) : float :=
  let fy := Prim2SF y in
  match Prim2SF x, fy with
  | _, S754_nan => nan
  | _, S754_zero _ => 1
  | S754_nan, _ => nan
  | S754_infinity sx, (S754_infinity sy | S754_finite sy _ _) =>
      signed (sx && odd_int fy) (if sy then 0 else infinity)
  | S754_zero sx, (S754_infinity sy | S754_finite sy _ _) =>
      signed (sx && odd_int fy) (if sy then infinity else 0)
  | S754_finite _ mx ex, S754_infinity sy =>
      match SFcompare (S754_finite false mx ex) (Prim2SF 1) with
      | Some Gt => if sy then 0 else infinity
      | Some Lt => if sy then infinity else 0
      | _ => nan
      end
  | S754_finite sx mx ex, S754_finite sy my ey =>
      match sx, int_of my ey with
      | true, None => nan
      | _, _ => signed (sx && odd_int fy) (to_float (dpow mx ex sy my ey))
      end
  end.

Definition cosh (x : float) : float :=
  match Prim2SF x with
  | S754_nan => nan
  | S754_zero _ => 1
  | S754_infinity _ => infinity
  | S754_finite _ _ _ as f =>
      let E := dexp (of_SF f) in
      to_float (dshift (dadd E (ddiv (dz 1) E)) (-1))
  end.

Definition sinh (x : float) : float :=
  match Prim2SF x with
  | S754_finite _ _ _ as f =>
      let v := of_SF f in
      if (top v <=? -1)%Z then to_float (sinh_small v)
      else
        let E := dexp v in
        to_float (dshift (dsub E (ddiv (dz 1) E)) (-1))
  | _ => x
  end.

Definition engine : Math.lib := {|
  Math.log := log;
  Math.exp := exp;
  Math.cos := cos;
  Math.sin := sin;
  Math.atan2 := atan2;
  Math.pow := pow;
  Math.cosh := cosh;
  Math.sinh := sinh
|}.

End RefMath.

(** ** Specification devices *)

(** The constructor's check as a function of the pair it is handed. *)
Definition construct (r i : float) : completion complex :=
  if JS.isNaN (r * i) then Throw INVALID_PARAM else Normal (mkComplex r i).

(** Neither finite nor [NaN]. *)
Definition is_infinite (x : float) : bool := Math.abs x =? infinity.

(** Neither [NaN] nor infinite. *)
Definition is_finite (x : float) : bool := negb (is_nan x) && negb (is_infinite x).

(** [Math.max] of two numbers. *)
Definition Math_max (x y : float) : float :=
  if is_nan x || is_nan y then nan else if x <? y then y else x.

(** The comparison of [equals] with a tolerance of one's choice. *)
Definition within (tol : float) (u v : complex) : bool :=
  (Math.abs (re u - re v) <=? tol) && (Math.abs (im u - im v) <=? tol).

(** [abs] as the specification words it: the direct root below 1000, and
    otherwise the larger magnitude times [sqrt (1 + b²)], [b] being the
    signed ratio of the field of smaller magnitude over the other one. *)
Definition abs_claim (x : complex) : float :=
  let r := re x in
  let i := im x in
  if (Math.abs r <? 1000) && (Math.abs i <? 1000) then Math.sqrt (r * r + i * i)
  else
    let a := Math_max (Math.abs r) (Math.abs i) in
    let b := if Math.abs r <? Math.abs i then r / i else i / r in
    a * Math.sqrt (1 + b * b).

(** The quotient of [div] as the specification words it (Smith). *)
Definition div_claim (x y : complex) : float * float :=
  if Math.abs (re y) <? Math.abs (im y) then
    let r := re y / im y in
    let t := re y * r + im y in
    ((re x * r + im x) / t, (im x * r - re x) / t)
  else
    let r := im y / re y in
    let t := im y * r + re y in
    ((re x + im x * r) / t, (im x - re x * r) / t).

(** What a call yields from an empty scratch object, and sequencing of
    completions. *)
Definition result {A} (c : Js A) : completion A := fst (c (mkScratch 0 0)).

Definition and_then {A B} (o : completion A) (k : A -> completion B) : completion B :=
  match o with
  | Normal a => k a
  | Throw msg => Throw msg
  end.

(** A call completes as [o], whatever [P] held before it. *)
Definition yields {A} (c : Js A) (o : completion A) : Prop := forall P, fst (c P) = o.

(** A call whose completion does not depend on what [P] held. *)
Definition indep {A} (c : Js A) : Prop := forall P Q, fst (c P) = fst (c Q).

Section Devices.

Context {M : Math.lib}.

(** [logsq2] as the specification words it, [|re|] over the cosine in
    the last case. *)
Definition logsq2_claim (re im : float) : float :=
  if re =? 0 then Math.log (Math.abs im)
  else if im =? 0 then Math.log (Math.abs re)
  else if (Math.abs re <? 1000) && (Math.abs im <? 1000)
       then 0.5 * Math.log (re * re + im * im)
  else Math.log (Math.abs re / Math.cos (Math.atan2 im re)).

(** The general path of [pow]: the pair [(scale·cos angle, scale·sin angle)]
    for the exponent [(c, d)]. *)
Definition pow_general (x : complex) (c d : float) : float * float :=
  let arg := Math.atan2 (im x) (re x) in
  let lg := logsq2 (re x) (im x) in
  let scale := Math.exp (c * lg - d * arg) in
  let angle := d * lg + c * arg in
  (scale * Math.cos angle, scale * Math.sin angle).

(** The four closed forms of a power [p] of the imaginary part, by index. *)
Definition pow_closed (k p : float) : option (float * float) :=
  if k =? 0 then Some (p, 0)
  else if k =? 1 then Some (0, p)
  else if k =? 2 then Some (- p, 0)
  else if k =? 3 then Some (0, - p)
  else None.

(** The same with the signed [re] over the cosine. *)
Definition logsq2_amended (re im : float) : float :=
  if re =? 0 then Math.log (Math.abs im)
  else if im =? 0 then Math.log (Math.abs re)
  else if (Math.abs re <? 1000) && (Math.abs im <? 1000)
       then 0.5 * Math.log (re * re + im * im)
  else Math.log (re / Math.cos (Math.atan2 im re)).

(** The pair [parse] leaves in [P] before it checks it. *)
Definition staged (a : args) : option (float * float) :=
  match a with
  | ArgsNone => Some (0, 0)
  | ArgsPair a b => Some (a, b)
  | ArgsReIm r i => Some (r, i)
  | ArgsPolar r phi => Some (r * Math.cos phi, r * Math.sin phi)
  | ArgsNumber a => Some (a, 0)
  | ArgsOther => None
  end.

(** The operand of a call, as [parse] accepts or rejects it. *)
Definition operand (a : args) : completion (float * float) :=
  match staged a with
  | None => Throw INVALID_PARAM
  | Some (r, i) => if JS.isNaN (r * i) then Throw INVALID_PARAM else Normal (r, i)
  end.

End Devices.

(** The integer a number is, when it is one. *)
Definition integer_of (c : float) : option Z :=
  match Prim2SF c with
  | S754_zero _ => Some 0%Z
  | S754_finite s m e =>
      if (0 <=? e)%Z then Some (cond_Zopp s (Z.pos m * 2 ^ e))
      else if (Z.pos m mod 2 ^ (- e) =? 0)%Z then Some (cond_Zopp s (Z.pos m / 2 ^ (- e)))
      else None
  | _ => None
  end.


(** The calls that divide by their operand or by the receiver. *)
Definition may_divide (c : call) : bool :=
  match c with
  | CallDiv _ _ | CallInverse _ | CallAtan _ => true
  | _ => false
  end.

(** Neither [NaN] nor below zero. *)
Definition SFnonneg (x : spec_float) : bool :=
  match x with
  | S754_nan => false
  | S754_zero _ => true
  | S754_infinity s | S754_finite s _ _ => negb s
  end.

(** Above zero. *)
Definition SFpositive (x : spec_float) : bool :=
  match x with
  | S754_infinity false | S754_finite false _ _ => true
  | _ => false
  end.

(** Zero, infinite or [NaN]: a number [Math.floor], [Math.ceil] and
    [Math.round] hand back as it is. *)
Definition not_rounded (x : float) : bool :=
  match Prim2SF x with
  | S754_finite _ _ _ => false
  | _ => true
  end.

(** [Math.cosh = Math.cosh || function(x) {...}] and the same for
    [Math.sinh]: the functions the library installs on an engine that has
    none. *)
Definition cosh_polyfill {M : Math.lib} (x : float) : float :=
  (Math.exp x + Math.exp (- x)) * 0.5.

Definition sinh_polyfill {M : Math.lib} (x : float) : float :=
  (Math.exp x - Math.exp (- x)) * 0.5.

(** The [Math] object of such an engine once the library is loaded. *)
Definition polyfilled (M : Math.lib) : Math.lib := {|
  Math.log := Math.log;
  Math.exp := Math.exp;
  Math.cos := Math.cos;
  Math.sin := Math.sin;
  Math.atan2 := Math.atan2;
  Math.pow := Math.pow;
  Math.cosh := cosh_polyfill;
  Math.sinh := sinh_polyfill
|}.

(** ** Strings

    A JavaScript string is modelled by a [string] of Rocq, one character
    per code unit (code units below 256). *)

Module Text.

Local Open Scope char_scope.

Definition code (c : ascii) : N := N_of_ascii c.

(** [\d] *)
Definition is_digit (c : ascii) : bool := (48 <=? code c)%N && (code c <=? 57)%N.

Definition is_sign (c : ascii) : bool := Ascii.eqb c "+" || Ascii.eqb c "-".
Definition is_dot (c : ascii) : bool := Ascii.eqb c ".".

(** StrWhiteSpaceChar, below 256: tab, line feed, vertical tab, form feed,
    carriage return, space, no-break space. *)
Definition is_space (c : ascii) : bool :=
  ((9 <=? code c)%N && (code c <=? 13)%N) || (code c =? 32)%N || (code c =? 160)%N.

(** The longest prefix of characters in a class, and what follows it. *)
Fixpoint span (p : ascii -> bool) (s : string) : string * string :=
  match s with
  | String c r => if p c then let '(u, v) := span p r in (String c u, v) else (EmptyString, s)
  | EmptyString => (EmptyString, EmptyString)
  end.

Definition is_empty (s : string) : bool :=
  match s with EmptyString => true | _ => false end.

(** [s.indexOf("i") !== -1] *)
Fixpoint has_i (s : string) : bool :=
  match s with
  | String c r => Ascii.eqb c "i" || has_i r
  | EmptyString => false
  end.

(** [s.replace("i", "")]: a string pattern replaces its first occurrence. *)
Fixpoint drop_i (s : string) : string :=
  match s with
  | String c r => if Ascii.eqb c "i" then r else String c (drop_i r)
  | EmptyString => EmptyString
  end.

(** The integer a string of decimal digits denotes, after [acc]. *)
Fixpoint digits_value (acc : Z) (s : string) : Z :=
  match s with
  | String c r => digits_value (10 * acc + (Z.of_N (code c) - 48)) r
  | EmptyString => acc
  end.

(** The Number value of [n·10^e10], [0 <= n], with the sign [neg]: rounded
    to nearest, ties to even. A negative exponent makes a quotient; it is
    computed with 64 bits and more and a last bit that tells whether
    anything was left, so that rounding to 53 bits sees the exact value. *)
Definition of_decimal (neg : bool) (n e10 : Z) : float :=
  SF2Prim
    (if (0 <=? e10)%Z then binary_normalize prec emax (cond_Zopp neg (n * 10 ^ e10)) 0 neg
     else
       let d := (10 ^ (- e10))%Z in
       let s := Z.max 0 (Zdigits2 d - Zdigits2 n + 64) in
       let q := (Z.shiftl n s / d)%Z in
       let sticky := if (Z.shiftl n s mod d =? 0)%Z then 0%Z else 1%Z in
       binary_normalize prec emax (cond_Zopp neg (2 * q + sticky)) (- s - 1) neg).

Definition starts_with_Infinity (s : string) : bool :=
  String.prefix "Infinity" s.

Fixpoint trim_left (s : string) : string :=
  match s with
  | String c r => if is_space c then trim_left r else s
  | EmptyString => EmptyString
  end.

(** An optional sign: whether it is [-], and what follows. *)
Definition take_sign (s : string) : bool * string :=
  match s with
  | String c r => if Ascii.eqb c "-" then (true, r)
                  else if Ascii.eqb c "+" then (false, r) else (false, s)
  | EmptyString => (false, s)
  end.

(** ExponentPart, when the string starts with one: its value. *)
Definition exponent_part (s : string) : Z :=
  match s with
  | String c r =>
      if Ascii.eqb c "e" || Ascii.eqb c "E" then
        let '(eneg, r') := take_sign r in
        let '(ed, _) := span is_digit r' in
        if is_empty ed then 0%Z else cond_Zopp eneg (digits_value 0 ed)
      else 0%Z
  | EmptyString => 0%Z
  end.

(** StrDecimalLiteral after its sign: the longest prefix of [s] that is
    one, as a Number; [NaN] when there is none. *)
Definition decimal_literal (neg : bool) (s : string) : float :=
  if starts_with_Infinity s then (if neg then neg_infinity else infinity)
  else
    let '(ip, s1) := span is_digit s in
    let '(fp, s2) := match s1 with
                     | String c r => if is_dot c then span is_digit r else (EmptyString, s1)
                     | EmptyString => (EmptyString, s1)
                     end in
    if is_empty ip && is_empty fp then nan
    else of_decimal neg (digits_value 0 (ip ++ fp))
                    (exponent_part s2 - Z.of_nat (String.length fp)).

(** [parseFloat]: leading white space is skipped. *)
Definition parseFloat (s : string) : float :=
  let '(neg, s) := take_sign (trim_left s) in
  decimal_literal neg s.

End Text.

(** ** The regular expression of [parse]

    [/[+-]?(?:[\di.]e[+-]?[\di]+|[\di.]+)/ig]: with the flag [i] the letter
    [i] of a class and the letter [e] match in either case. A match is
    tried at the head of a string and yields the matched text and what
    follows it. *)

Module RegExp.

Import Text.
Local Open Scope char_scope.

Definition is_i (c : ascii) : bool := Ascii.eqb c "i" || Ascii.eqb c "I".
Definition is_e (c : ascii) : bool := Ascii.eqb c "e" || Ascii.eqb c "E".

(** [[\di.]] and [[\di]] *)
Definition class_di_dot (c : ascii) : bool := is_digit c || is_i c || is_dot c.
Definition class_di (c : ascii) : bool := is_digit c || is_i c.

(** [[\di.]e[+-]?[\di]+]. The optional sign is taken when it is there;
    giving it back would leave [[\di]+] at the sign, where it fails. *)
Definition alt1 (s : string) : option (string * string) :=
  match s with
  | String c0 (String c1 r) =>
      if class_di_dot c0 && is_e c1 then
        let '(sg, r') := match r with
                         | String c2 r2 => if is_sign c2 then (String c2 EmptyString, r2)
                                           else (EmptyString, r)
                         | EmptyString => (EmptyString, r)
                         end in
        let '(ds, rest) := span class_di r' in
        if is_empty ds then None
        else Some (String c0 (String c1 (sg ++ ds)), rest)
      else None
  | _ => None
  end.

(** [[\di.]+] *)
Definition alt2 (s : string) : option (string * string) :=
  let '(m, rest) := span class_di_dot s in
  if is_empty m then None else Some (m, rest).

(** [(?:...|...)]: the first alternative that matches. *)
Definition group (s : string) : option (string * string) :=
  match alt1 s with
  | Some r => Some r
  | None => alt2 s
  end.

(** The whole pattern at the head of [s]: [[+-]?] takes a sign when there
    is one and gives it back when the group fails after it. *)
Definition match_at (s : string) : option (string * string) :=
  match s with
  | String c r =>
      if is_sign c then
        match group r with
        | Some (m, rest) => Some (String c m, rest)
        | None => group s
        end
      else group s
  | EmptyString => group s
  end.

(** [reg.exec(a)] with the flag [g], on what is left of [a] from
    [lastIndex] on: the leftmost match, and what is left after it
    ([None] is [null]). *)
Fixpoint exec (s : string) : option (string * string) :=
  match match_at s with
  | Some r => Some r
  | None => match s with
            | String _ r => exec r
            | EmptyString => None
            end
  end.

End RegExp.

(** ** The string form of the argument *)

Local Open Scope string_scope.

(** The body of the loop over the matches: [tmp] is [tmp[0]]. *)
Definition parse_token (tmp : string) : Js unit :=
  if Text.has_i tmp then
    let tr := Text.drop_i tmp in
    let tr := if String.eqb tr "+" || String.eqb tr "-" || String.eqb tr ""
              then tr ++ "1" else tr in
    P <- getP ;; setP_im (P_im P + Text.parseFloat tr)
  else
    P <- getP ;; setP_re (P_re P + Text.parseFloat tmp).

(** The loop [for (...; null !== (tmp = reg.exec(a)); i = 1)]: [a] is what
    is left of the string, [i] whether an iteration was made. Every match
    takes a character at least, so that [S (length a)] rounds are enough
    for the loop to end on [null]. *)
Fixpoint parse_tokens (fuel : nat) (a : string) (i : bool) : Js bool :=
  match fuel with
  | O => ret i
  | S fuel' =>
      match RegExp.exec a with
      | None => ret i
      | Some (tmp, rest) => parse_token tmp ;; parse_tokens fuel' rest true
      end
  end.

(** [parse(a)] for [typeof a === "string"]. *)
Definition parse_string (a : string) : Js unit :=
  setP_re 0 ;; setP_im 0 ;;
  i <- parse_tokens (S (String.length a)) a false ;;
  (if i then ret tt else parser_exit) ;;
  P <- getP ;;
  if JS.isNaN (P_re P * P_im P) then parser_exit else ret tt.

(** [Complex(a)] for a string [a]. *)
Definition Complex_string (a : string) : Js complex :=
  parse_string a ;;
  P <- getP ;;
  ret (mkComplex (P_re P) (P_im P)).

Local Open Scope float_scope.
Local Open Scope js_scope.

(** ** Numbers as strings *)

(** [ToString] applied to a Number: the language fixes the form of the
    string and that it reads back as the number; where several shortest
    strings do, the choice of the last digit is the engine's. *)
Class NumberToString : Type := ToString : float -> string.

(** [toString] *)
Definition toString {N : NumberToString} (this : complex) : string :=
  let a := re this in
  let b := im this in
  let ret := "" in
  if JS.isNaN (a * b) then "NaN"
  else
    let ret := if a =? 0 then ret else ret ++ ToString a in
    let ret :=
      if b =? 0 then ret
      else
        let ret := if (0 <? b) && negb (a =? 0) then ret ++ "+" else ret in
        let ret := if b =? -1 then ret ++ "-"
                   else if b =? 1 then ret
                   else ret ++ ToString b in
        ret ++ "i" in
    if Text.is_empty ret then "0" else ret.

(** ** A reference [ToString]

    Number::toString as engines implement it: the shortest decimal that
    reads back as the number, the closest one when there are several, in
    the notation the language fixes. *)

Module RefNumber.

Fixpoint digits_loop (fuel : nat) (n : Z) (acc : string) : string :=
  match fuel with
  | O => acc
  | S fuel' =>
      let acc' := String (ascii_of_N (Z.to_N (48 + n mod 10))) acc in
      if (n <? 10)%Z then acc' else digits_loop fuel' (n / 10) acc'
  end.

(** The decimal digits of [0 <= n]. *)
Definition digits_of (n : Z) : string := digits_loop (S (Z.to_nat (Z.log2 n))) n "".

Fixpoint zeros (n : nat) : string :=
  match n with
  | O => ""
  | S n' => String "0" (zeros n')
  end.

(** [m·2^e] against [s·10^p], exactly. *)
Definition compare_scaled (m e s p : Z) : comparison :=
  let l := (m * (if 0 <=? e then 2 ^ e else 1) * (if 0 <=? p then 1 else 10 ^ (- p)))%Z in
  let r := (s * (if 0 <=? p then 10 ^ p else 1) * (if 0 <=? e then 1 else 2 ^ (- e)))%Z in
  (l ?= r)%Z.

(** Twice the distance of [s·10^p] to [m·2^e], on a common denominator. *)
Definition distance (m e s p : Z) : Z :=
  let l := (m * (if 0 <=? e then 2 ^ e else 1) * (if 0 <=? p then 1 else 10 ^ (- p)))%Z in
  let r := (s * (if 0 <=? p then 10 ^ p else 1) * (if 0 <=? e then 1 else 2 ^ (- e)))%Z in
  Z.abs (l - r).

(** [n] with [10^(n-1) <= m·2^e < 10^n]. *)
Definition magnitude (m e : Z) : Z :=
  let est := ((Zdigits2 m + e - 1) * 1233 / 4096)%Z in
  let ge p := match compare_scaled m e 1 p with Lt => false | _ => true end in
  if ge (est + 1)%Z then (est + 2)%Z else if ge est then (est + 1)%Z else est.

(** [floor (m·2^e / 10^p)] *)
Definition quotient (m e p : Z) : Z :=
  ((m * (if 0 <=? e then 2 ^ e else 1) * (if 0 <=? p then 1 else 10 ^ (- p)))
   / ((if 0 <=? p then 10 ^ p else 1) * (if 0 <=? e then 1 else 2 ^ (- e))))%Z.

(** The candidates with [k] digits that read back as [x = m·2^e], and of
    them the closest (an even one on a tie). *)
Definition best (x : float) (m e n0 k : Z) : option (Z * Z) :=
  let p := (n0 - k)%Z in
  let lo := quotient m e p in
  let ok (c : Z * Z) :=
    let '(s, n) := c in
    (10 ^ (k - 1) <=? s)%Z && (s <? 10 ^ k)%Z
    && (Text.of_decimal false s (n - k) =? x) in
  let better (c d : Z * Z) :=
    let dc := distance m e (fst c) (snd c - k) in
    let dd := distance m e (fst d) (snd d - k) in
    (dc <? dd)%Z || ((dc =? dd)%Z && Z.even (fst c)) in
  fold_left
    (fun acc c =>
       if ok c then
         match acc with
         | Some d => if better c d then Some c else acc
         | None => Some c
         end
       else acc)
    [(lo, n0); ((lo + 1)%Z, n0); ((10 ^ (k - 1))%Z, (n0 + 1)%Z)] None.

Fixpoint shortest (fuel : nat) (x : float) (m e n0 k : Z) : Z * Z * Z :=
  match fuel with
  | O => (0%Z, k, n0)
  | S fuel' =>
      match best x m e n0 k with
      | Some (s, n) => (s, k, n)
      | None => shortest fuel' x m e n0 (k + 1)
      end
  end.

Definition substring_from (n : nat) (s : string) : string :=
  String.substring n (String.length s - n) s.

Definition notation (s k n : Z) : string :=
  let ds := digits_of s in
  if (k <=? n)%Z && (n <=? 21)%Z then ds ++ zeros (Z.to_nat (n - k))
  else if (0 <? n)%Z && (n <=? 21)%Z then
    String.substring 0 (Z.to_nat n) ds ++ "." ++ substring_from (Z.to_nat n) ds
  else if (-6 <? n)%Z && (n <=? 0)%Z then "0." ++ zeros (Z.to_nat (- n)) ++ ds
  else
    let ex := (n - 1)%Z in
    let tail := "e" ++ (if (ex <? 0)%Z then "-" else "+") ++ digits_of (Z.abs ex) in
    if (k =? 1)%Z then ds ++ tail
    else String.substring 0 1 ds ++ "." ++ substring_from 1 ds ++ tail.

Definition toString (x : float) : string :=
  match Prim2SF x with
  | S754_nan => "NaN"
  | S754_zero _ => "0"
  | S754_infinity s => if s then "-Infinity" else "Infinity"
  | S754_finite sg m e =>
      let '(s, k, n) := shortest 17 (PrimFloat.abs x) (Z.pos m) e (magnitude (Z.pos m) e) 1 in
      (if sg then "-" else "") ++ notation s k n
  end.

#[export] Instance engine : NumberToString := toString.

End RefNumber.

(** ** Devices for the string form *)

(** Every character of a string is in a class. *)
Fixpoint all_chars (p : ascii -> bool) (s : string) : bool :=
  match s with
  | String c r => p c && all_chars p r
  | EmptyString => true
  end.

(** The string is empty or starts outside of a class. *)
Definition head_not (p : ascii -> bool) (t : string) : bool :=
  match t with
  | String c _ => negb (p c)
  | EmptyString => true
  end.

(** Digits and dots, one at least: a number written without sign and
    without exponent. *)
Definition numeral (m : string) : bool :=
  negb (Text.is_empty m) && all_chars (fun c => Text.is_digit c || Text.is_dot c) m.

(** Digits, one at least. *)
Definition digits (m : string) : bool :=
  negb (Text.is_empty m) && all_chars Text.is_digit m.

(** No sign, [+] or [-]. *)
Definition opt_sign (s : string) : bool :=
  String.eqb s "" || String.eqb s "+" || String.eqb s "-".

(** [+] or [-]. *)
Definition a_sign (s : string) : bool := String.eqb s "+" || String.eqb s "-".

(** The second character, if there is one, is not the letter [e]. *)
Definition second_not_e (s : string) : bool :=
  match s with
  | String _ (String c1 _) => negb (RegExp.is_e c1)
  | _ => true
  end.

(** No lower-case [i] in the string. *)
Definition no_i (s : string) : bool :=
  all_chars (fun c => negb (Ascii.eqb c "i"%char)) s.

(** What one match adds to the pair [(P.re, P.im)]. *)
Definition token_value (tmp : string) (p : float * float) : float * float :=
  if Text.has_i tmp then
    let tr := Text.drop_i tmp in
    let tr := if String.eqb tr "+" || String.eqb tr "-" || String.eqb tr ""
              then tr ++ "1" else tr in
    (fst p, snd p + Text.parseFloat tr)
  else (fst p + Text.parseFloat tmp, snd p).

(** The loop over the matches on the pair [(P.re, P.im)]. *)
Fixpoint scan (fuel : nat) (a : string) (p : float * float) (i : bool)
  : float * float * bool :=
  match fuel with
  | O => (p, i)
  | S fuel' =>
      match RegExp.exec a with
      | None => (p, i)
      | Some (tmp, rest) => scan fuel' rest (token_value tmp p) true
      end
  end.

(** How [ToString] writes a number [x] between [1e-6] and [1e21] in
    magnitude: a minus sign exactly when [x] is below zero, then digits
    and dots; and the string reads back as [x]. *)
Definition written_plain (x : float) (s : string) : Prop :=
  exists body, s = (if x <? 0 then "-" else "") ++ body
               /\ numeral body = true /\ Text.parseFloat s = x.

Local Close Scope string_scope.

(** ** Binary64 facts *)

Lemma is_nan_Prim2SF (x : float) : is_nan x = true <-> Prim2SF x = S754_nan.
Proof.
  unfold is_nan. rewrite FloatAxioms.eqb_spec.
  destruct (Prim2SF x) as [s|s| |s m e]; simpl; split; intro H;
    try discriminate H; try reflexivity; exfalso.
  - destruct s; discriminate H.
  - unfold SFeqb, SFcompare in H.
    rewrite Z.compare_refl, Pos.compare_cont_refl in H.
    destruct s; discriminate H.
Qed.

Lemma is_nan_eq (x : float) : is_nan x = true -> x = nan.
Proof.
  intro H. apply Prim2SF_inj. apply is_nan_Prim2SF in H. rewrite H. reflexivity.
Qed.

Lemma mul_nan_l (y : float) : nan * y = nan.
Proof. apply Prim2SF_inj. rewrite FloatAxioms.mul_spec. reflexivity. Qed.

Lemma mul_nan_r (x : float) : x * nan = nan.
Proof.
  apply Prim2SF_inj. rewrite FloatAxioms.mul_spec.
  change (Prim2SF nan) with S754_nan. destruct (Prim2SF x); reflexivity.
Qed.

Lemma div_nan_l (y : float) : nan / y = nan.
Proof. apply Prim2SF_inj. rewrite FloatAxioms.div_spec. reflexivity. Qed.

Lemma div_nan_r (x : float) : x / nan = nan.
Proof.
  apply Prim2SF_inj. rewrite FloatAxioms.div_spec.
  change (Prim2SF nan) with S754_nan. destruct (Prim2SF x); reflexivity.
Qed.

Lemma sub_nan_l (y : float) : nan - y = nan.
Proof. apply Prim2SF_inj. rewrite FloatAxioms.sub_spec. reflexivity. Qed.

Lemma sub_nan_r (x : float) : x - nan = nan.
Proof.
  apply Prim2SF_inj. rewrite FloatAxioms.sub_spec.
  change (Prim2SF nan) with S754_nan. destruct (Prim2SF x); reflexivity.
Qed.

Lemma ltb_nan_l (y : float) : (nan <? y) = false.
Proof. rewrite FloatAxioms.ltb_spec. reflexivity. Qed.

Lemma ltb_nan_r (x : float) : (x <? nan) = false.
Proof.
  rewrite FloatAxioms.ltb_spec. change (Prim2SF nan) with S754_nan.
  destruct (Prim2SF x); reflexivity.
Qed.

Lemma mul_not_nan (x y : float) :
  is_nan (x * y) = false -> is_nan x = false /\ is_nan y = false.
Proof.
  intro H. split.
  - destruct (is_nan x) eqn:E; [|reflexivity].
    apply is_nan_eq in E. subst x. rewrite mul_nan_l in H. discriminate H.
  - destruct (is_nan y) eqn:E; [|reflexivity].
    apply is_nan_eq in E. subst y. rewrite mul_nan_r in H. discriminate H.
Qed.

Lemma abs_mul_abs (a : float) : Math.abs a * Math.abs a = a * a.
Proof.
  unfold Math.abs. apply Prim2SF_inj. rewrite !FloatAxioms.mul_spec, FloatAxioms.abs_spec.
  destruct (Prim2SF a) as [s|s| |s m e]; simpl; try reflexivity;
    destruct s; reflexivity.
Qed.

Lemma SF64mul_comm (x y : spec_float) : SF64mul x y = SF64mul y x.
Proof.
  destruct x as [sx|sx| |sx mx ex], y as [sy|sy| |sy my ey]; simpl;
    try reflexivity; try (rewrite xorb_comm; reflexivity).
  rewrite xorb_comm, Pos.mul_comm, Z.add_comm. reflexivity.
Qed.

Lemma mul_comm (x y : float) : x * y = y * x.
Proof. apply Prim2SF_inj. rewrite !FloatAxioms.mul_spec. apply SF64mul_comm. Qed.

Lemma eqb_0_sym (x : float) : (0 =? x) = (x =? 0).
Proof.
  rewrite !FloatAxioms.eqb_spec. change (Prim2SF 0) with (S754_zero false).
  destruct (Prim2SF x) as [s|s| |s m e]; try reflexivity; destruct s; reflexivity.
Qed.

Lemma eqb_0_true (x : float) : (x =? 0) = true -> x = 0 \/ x = neg_zero.
Proof.
  rewrite FloatAxioms.eqb_spec. change (Prim2SF 0) with (S754_zero false).
  destruct (Prim2SF x) as [s|s| |s m e] eqn:E; intro H;
    try discriminate H; try (destruct s; discriminate H).
  destruct s; [right|left]; apply Prim2SF_inj; rewrite E; reflexivity.
Qed.

Lemma infinite_Prim2SF (x : float) :
  is_infinite x = true -> exists s, Prim2SF x = S754_infinity s.
Proof.
  unfold is_infinite, Math.abs. rewrite FloatAxioms.eqb_spec, FloatAxioms.abs_spec.
  change (Prim2SF infinity) with (S754_infinity false).
  destruct (Prim2SF x) as [s|s| |s m e]; intro H; try discriminate H.
  exists s. reflexivity.
Qed.

Lemma infinite_mul_zero (x y : float) :
  is_infinite x = true -> (y =? 0) = true -> is_nan (x * y) = true.
Proof.
  intros Hx Hy. apply infinite_Prim2SF in Hx. destruct Hx as [s Hs].
  apply is_nan_Prim2SF. rewrite FloatAxioms.mul_spec, Hs.
  destruct (eqb_0_true y Hy) as [-> | ->]; reflexivity.
Qed.

(** ** How the calls run *)

Section Runs.

Context {M : Math.lib}.

Lemma parse_run (a : args) (P : scratch) :
  parse a P =
  match staged a with
  | None => (Throw INVALID_PARAM, P)
  | Some (r, i) =>
      (if JS.isNaN (r * i) then Throw INVALID_PARAM else Normal tt, mkScratch r i)
  end.
Proof.
  destruct a; unfold parse, bind, setP_re, setP_im, getP, parser_exit, throw, ret;
    simpl; try reflexivity;
    match goal with |- context [JS.isNaN ?v] => destruct (JS.isNaN v) end;
    reflexivity.
Qed.

Lemma Complex_run (a : args) (P : scratch) :
  Complex a P =
  match staged a with
  | None => (Throw INVALID_PARAM, P)
  | Some (r, i) => (construct r i, mkScratch r i)
  end.
Proof.
  unfold Complex, bind. rewrite parse_run.
  destruct (staged a) as [[r i]|]; [|reflexivity].
  unfold construct. destruct (JS.isNaN (r * i)); reflexivity.
Qed.

Lemma Complex_pair (r i : float) (P : scratch) :
  fst (Complex (ArgsPair r i) P) = construct r i.
Proof. rewrite Complex_run. reflexivity. Qed.

Lemma Complex_operand (a : args) (P : scratch) :
  fst (Complex a P) =
  match operand a with
  | Normal (r, i) => Normal (mkComplex r i)
  | Throw msg => Throw msg
  end.
Proof.
  rewrite Complex_run. unfold operand, construct.
  destruct (staged a) as [[r i]|]; [|reflexivity].
  simpl. destruct (JS.isNaN (r * i)); reflexivity.
Qed.

Lemma construct_valid (r i : float) (z : complex) :
  construct r i = Normal z -> z = mkComplex r i /\ JS.isNaN (r * i) = false.
Proof.
  unfold construct. destruct (JS.isNaN (r * i)); intro H; inversion H. auto.
Qed.

Lemma Complex_valid (a : args) (P P' : scratch) (z : complex) :
  Complex a P = (Normal z, P') -> JS.isNaN (re z * im z) = false.
Proof.
  rewrite Complex_run. destruct (staged a) as [[r i]|]; intro H; inversion H.
  match goal with H : construct _ _ = _ |- _ => apply construct_valid in H end.
  destruct H1 as [-> Hv]. exact Hv.
Qed.

End Runs.

(** ** The constructor's check (C10, C8) *)

Section Validation.

Context {M : Math.lib}.

Ltac split_ifs :=
  repeat match goal with
         | |- context [if ?b then _ else _] => destruct b
         end.

(** A call that ends in the constructor hands back a checked value. *)
Ltac by_constructor :=
  intros;
  repeat match goal with
         | H : context [parse _ _] |- _ => rewrite parse_run in H
         | H : context [match staged ?a with _ => _ end] |- _ =>
             destruct (staged a) as [[? ?]|]
         | H : context [if ?b then _ else _] |- _ => destruct b
         | H : (Throw _, _) = (Normal _, _) |- _ => discriminate H
         | H : Complex _ _ = (Normal _, _) |- _ => exact (Complex_valid _ _ _ _ H)
         | H : _ |- _ => progress (cbv beta iota zeta delta [bind getP throw fst snd] in H)
         end.

Lemma sign_valid this P P' z : sign this P = (Normal z, P') -> JS.isNaN (re z * im z) = false.
Proof. unfold sign. by_constructor. Qed.
Lemma add_valid this a P P' z : add this a P = (Normal z, P') -> JS.isNaN (re z * im z) = false.
Proof. unfold add. by_constructor. Qed.
Lemma sub_valid this a P P' z : sub this a P = (Normal z, P') -> JS.isNaN (re z * im z) = false.
Proof. unfold sub. by_constructor. Qed.
Lemma mul_valid this a P P' z : mul this a P = (Normal z, P') -> JS.isNaN (re z * im z) = false.
Proof. unfold mul. by_constructor. Qed.
Lemma div_valid this a P P' z : div this a P = (Normal z, P') -> JS.isNaN (re z * im z) = false.
Proof. unfold div. by_constructor. Qed.
Lemma pow_valid this a P P' z : pow this a P = (Normal z, P') -> JS.isNaN (re z * im z) = false.
Proof. unfold pow. by_constructor. Qed.
Lemma sqrt_valid this P P' z : sqrt this P = (Normal z, P') -> JS.isNaN (re z * im z) = false.
Proof. unfold sqrt. by_constructor. Qed.
Lemma log_valid this P P' z : log this P = (Normal z, P') -> JS.isNaN (re z * im z) = false.
Proof. unfold log. by_constructor. Qed.
Lemma neg_valid this P P' z : neg this P = (Normal z, P') -> JS.isNaN (re z * im z) = false.
Proof. unfold neg. by_constructor. Qed.
Lemma inverse_valid this P P' z : inverse this P = (Normal z, P') -> JS.isNaN (re z * im z) = false.
Proof. unfold inverse. by_constructor. Qed.

(** In a chain, the last call decides. *)
Lemma bind_valid {A} (c : Js A) (k : A -> Js complex) P P' z :
  (forall a Q, k a Q = (Normal z, P') -> JS.isNaN (re z * im z) = false) ->
  bind c k P = (Normal z, P') -> JS.isNaN (re z * im z) = false.
Proof.
  intros Hk. unfold bind. destruct (c P) as [[a|msg] Q]; intro H.
  - exact (Hk a Q H).
  - discriminate H.
Qed.

Lemma asin_valid this P P' z : asin this P = (Normal z, P') -> JS.isNaN (re z * im z) = false.
Proof. unfold asin. do 8 (apply bind_valid; intros ? ?). apply neg_valid. Qed.
Lemma acos_valid this P P' z : acos this P = (Normal z, P') -> JS.isNaN (re z * im z) = false.
Proof. unfold acos. do 8 (apply bind_valid; intros ? ?). apply neg_valid. Qed.
Lemma atan_valid this P P' z : atan this P = (Normal z, P') -> JS.isNaN (re z * im z) = false.
Proof. unfold atan. do 5 (apply bind_valid; intros ? ?). apply div_valid. Qed.

End Validation.

(** C8, as amended. Whatever call of the library hands a [Complex] object
    back, the product of its two fields is not [NaN]: so neither field is
    [NaN], and an infinite field never sits next to a zero one. A field may
    be infinite. *)
Theorem run_valid {M : Math.lib} (c : call) (P P' : scratch) (z : complex) :
  run c P = (Normal z, P') ->
  JS.isNaN (re z * im z) = false
  /\ JS.isNaN (re z) = false /\ JS.isNaN (im z) = false
  /\ (is_infinite (re z) && (im z =? 0) = false)
  /\ (is_infinite (im z) && (re z =? 0) = false).
Proof.
  intro H.
  assert (V : JS.isNaN (re z * im z) = false).
  { destruct c; simpl in H;
      first [ exact (Complex_valid _ _ _ _ H) | exact (sign_valid _ _ _ _ H)
            | exact (add_valid _ _ _ _ _ H) | exact (sub_valid _ _ _ _ _ H)
            | exact (mul_valid _ _ _ _ _ H) | exact (div_valid _ _ _ _ _ H)
            | exact (pow_valid _ _ _ _ _ H) | exact (sqrt_valid _ _ _ _ H)
            | exact (log_valid _ _ _ _ H) | exact (asin_valid _ _ _ _ H)
            | exact (acos_valid _ _ _ _ H) | exact (atan_valid _ _ _ _ H)
            | exact (inverse_valid _ _ _ _ H) | exact (neg_valid _ _ _ _ H) ]. }
  split; [exact V|].
  destruct (mul_not_nan _ _ V) as [V1 V2].
  split; [exact V1|]. split; [exact V2|]. split.
  - destruct (is_infinite (re z)) eqn:I; [|reflexivity].
    destruct (im z =? 0) eqn:Z; [|reflexivity].
    unfold JS.isNaN in V. rewrite (infinite_mul_zero _ _ I Z) in V. discriminate V.
  - destruct (is_infinite (im z)) eqn:I; [|reflexivity].
    destruct (re z =? 0) eqn:Z; [|reflexivity].
    unfold JS.isNaN in V. rewrite mul_comm, (infinite_mul_zero _ _ I Z) in V.
    discriminate V.
Qed.

(** C8 as stated fails: the constructor hands back a value whose real field
    is [Infinity]. *)
Lemma Complex_infinite_field :
  returns (Complex (M := RefMath.engine) (ArgsPair infinity 5)) (mkComplex infinity 5)
  /\ is_infinite (re (mkComplex infinity 5)) = true
  /\ JS.isNaN (re (mkComplex infinity 5)) = false.
Proof.
  split; [|split; reflexivity].
  intro P. rewrite Complex_pair. reflexivity.
Qed.

Lemma run_valid_witness :
  run (M := RefMath.engine) (CallAdd (mkComplex 1e308 2) (ArgsPair 1e308 4)) (mkScratch 0 0)
  = (Normal (mkComplex infinity 6), mkScratch infinity 6)
  /\ JS.isNaN (infinity * 6) = false.
Proof.
  split; [reflexivity|].
  exact (proj1 (run_valid (M := RefMath.engine)
                  (CallAdd (mkComplex 1e308 2) (ArgsPair 1e308 4))
                  (mkScratch 0 0) (mkScratch infinity 6) (mkComplex infinity 6)
                  eq_refl)).
Defined.

(** C10. Handed two numbers, the constructor (and the [parse] of every
    operand) throws "Invalid Param" exactly when their product is [NaN],
    and otherwise keeps the two numbers as they are: [Complex(Infinity, 0)]
    is refused, [Complex(Infinity, 5)] is built with an infinite field. *)
Theorem Complex_pair_check {M : Math.lib} (a b : float) :
  (forall P, fst (Complex (ArgsPair a b) P)
             = if JS.isNaN (a * b) then Throw INVALID_PARAM else Normal (mkComplex a b))
  /\ (raises (Complex (ArgsPair a b)) INVALID_PARAM <-> JS.isNaN (a * b) = true)
  /\ (forall P, fst (parse (ArgsPair a b) P)
                = if JS.isNaN (a * b) then Throw INVALID_PARAM else Normal tt)
  /\ (forall this, JS.isNaN (a * b) = true ->
        raises (add this (ArgsPair a b)) INVALID_PARAM
        /\ raises (sub this (ArgsPair a b)) INVALID_PARAM
        /\ raises (mul this (ArgsPair a b)) INVALID_PARAM
        /\ raises (div this (ArgsPair a b)) INVALID_PARAM
        /\ raises (pow this (ArgsPair a b)) INVALID_PARAM
        /\ raises (equals this (ArgsPair a b)) INVALID_PARAM)
  /\ raises (Complex (ArgsPair infinity 0)) INVALID_PARAM
  /\ returns (Complex (ArgsPair infinity 5)) (mkComplex infinity 5)
  /\ is_infinite (re (mkComplex infinity 5)) = true.
Proof.
  assert (E : forall P, fst (Complex (ArgsPair a b) P)
             = if JS.isNaN (a * b) then Throw INVALID_PARAM else Normal (mkComplex a b)).
  { intro P. rewrite Complex_pair. reflexivity. }
  split; [exact E|]. split.
  { split.
    - intro H. specialize (H (mkScratch 0 0)). rewrite E in H.
      destruct (JS.isNaN (a * b)); [reflexivity|discriminate H].
    - intros H P. rewrite E, H. reflexivity. }
  split.
  { intro P. rewrite parse_run. simpl. reflexivity. }
  split.
  { intros this H.
    repeat split; intro P;
      unfold add, sub, mul, div, pow, equals, bind; rewrite parse_run; simpl;
      rewrite H; reflexivity. }
  split; [|split].
  - intro P. rewrite Complex_pair. reflexivity.
  - intro P. rewrite Complex_pair. reflexivity.
  - reflexivity.
Qed.

(** ** The magnitude (C3) *)

Lemma ltb_true_not_nan (x y : float) :
  (x <? y) = true -> is_nan x = false /\ is_nan y = false.
Proof.
  intro H. split.
  - destruct (is_nan x) eqn:E; [|reflexivity].
    apply is_nan_eq in E. subst x. rewrite ltb_nan_l in H. discriminate H.
  - destruct (is_nan y) eqn:E; [|reflexivity].
    apply is_nan_eq in E. subst y. rewrite ltb_nan_r in H. discriminate H.
Qed.

Lemma abs_is_nan (x : float) : is_nan (Math.abs x) = true -> x = nan.
Proof.
  intro H. apply is_nan_Prim2SF in H. unfold Math.abs in H.
  rewrite FloatAxioms.abs_spec in H. apply Prim2SF_inj.
  destruct (Prim2SF x); try discriminate H. reflexivity.
Qed.

Lemma abs_nan_l (i : float) : abs (mkComplex nan i) = nan.
Proof.
  unfold abs. cbn [re im].
  change (Math.abs nan) with nan.
  change (nan <? 1000) with false. cbn [andb].
  rewrite ltb_nan_l, div_nan_r. reflexivity.
Qed.

Lemma abs_nan_r (r : float) : abs (mkComplex r nan) = nan.
Proof.
  unfold abs. cbn [re im].
  change (Math.abs nan) with nan.
  change (nan <? 1000) with false. rewrite andb_false_r.
  rewrite ltb_nan_r, div_nan_l.
  change (Math.sqrt (1 + nan * nan)) with nan. apply mul_nan_r.
Qed.

Lemma div_tie (r i : float) :
  (Math.abs r =? Math.abs i) = true -> r / i = i / r.
Proof.
  unfold Math.abs. rewrite FloatAxioms.eqb_spec, !FloatAxioms.abs_spec. intro H.
  apply Prim2SF_inj. rewrite !FloatAxioms.div_spec.
  destruct (Prim2SF r) as [sr|sr| |sr mr er], (Prim2SF i) as [si|si| |si mi ei];
    try discriminate H; try reflexivity.
  unfold SFeqb in H. cbn [SFabs SFcompare] in H.
  destruct (er ?= ei)%Z eqn:Ce; try discriminate H.
  apply Z.compare_eq in Ce. subst ei.
  destruct (Pos.compare_cont Eq mr mi) eqn:Cm; try discriminate H.
  apply (Pos.compare_eq mr) in Cm. subst mi.
  unfold SF64div, SFdiv. rewrite (xorb_comm sr si). reflexivity.
Qed.

(** C3. [abs] is the direct root when both magnitudes are below 1000 and
    the scaled form otherwise, the larger magnitude times [sqrt (1 + b²)]
    with [b] the signed ratio of the field of smaller magnitude over the
    other (on a tie the two ratios are the same number); it is [0] at zero
    and [NaN] as soon as a field is [NaN]. *)
Theorem abs_meets_claim (x : complex) :
  abs x = abs_claim x
  /\ ((Math.abs (re x) =? Math.abs (im x)) = true -> re x / im x = im x / re x)
  /\ ((re x =? 0) = true -> (im x =? 0) = true -> abs x = 0)
  /\ (is_nan (re x) || is_nan (im x) = true -> is_nan (abs x) = true).
Proof.
  destruct x as [r i]. split; [|split; [|split]].
  - unfold abs, abs_claim, Math_max. cbn [re im]. rewrite !abs_mul_abs.
    destruct ((Math.abs r <? 1000) && (Math.abs i <? 1000)); [reflexivity|].
    destruct (Math.abs r <? Math.abs i) eqn:L.
    + destruct (ltb_true_not_nan _ _ L) as [-> ->]. reflexivity.
    + destruct (is_nan (Math.abs r)) eqn:Nr.
      * apply abs_is_nan in Nr. subst r. cbn [orb].
        rewrite div_nan_r.
        change (Math.sqrt (1 + nan * nan)) with nan.
        rewrite mul_nan_r. reflexivity.
      * destruct (is_nan (Math.abs i)) eqn:Ni; [|reflexivity].
        apply abs_is_nan in Ni. subst i. cbn [orb].
        rewrite div_nan_l.
        change (Math.sqrt (1 + nan * nan)) with nan.
        rewrite mul_nan_r. reflexivity.
  - cbn [re im]. apply div_tie.
  - cbn [re im]. intros Hr Hi.
    destruct (eqb_0_true _ Hr) as [-> | ->];
      destruct (eqb_0_true _ Hi) as [-> | ->]; reflexivity.
  - cbn [re im]. intro H. apply orb_true_iff in H. destruct H as [H|H];
      apply is_nan_eq in H; subst.
    + rewrite abs_nan_l. reflexivity.
    + rewrite abs_nan_r. reflexivity.
Qed.

Lemma abs_meets_claim_witness :
  ((re (mkComplex neg_zero 0) =? 0) = true /\ (im (mkComplex neg_zero 0) =? 0) = true
   /\ abs (mkComplex neg_zero 0) = 0)
  /\ (is_nan (re (mkComplex 3 nan)) || is_nan (im (mkComplex 3 nan)) = true
      /\ is_nan (abs (mkComplex 3 nan)) = true)
  /\ abs (mkComplex 3 4) = 5
  /\ abs (mkComplex (-3000) 4000) = 5000.
Proof.
  split; [|split; [|split]].
  - split; [reflexivity|]. split; [reflexivity|].
    exact (proj1 (proj2 (proj2 (abs_meets_claim (mkComplex neg_zero 0)))) eq_refl eq_refl).
  - split; [reflexivity|].
    exact (proj2 (proj2 (proj2 (abs_meets_claim (mkComplex 3 nan)))) eq_refl).
  - rewrite (proj1 (abs_meets_claim (mkComplex 3 4))). reflexivity.
  - rewrite (proj1 (abs_meets_claim (mkComplex (-3000) 4000))). reflexivity.
Defined.

(** ** The logarithm of the magnitude (C2) *)

Lemma abs_not_negative (x : float) :
  (x <? 0) = false -> (x =? 0) = false -> Math.abs x = x.
Proof.
  unfold Math.abs. rewrite FloatAxioms.ltb_spec, FloatAxioms.eqb_spec.
  change (Prim2SF 0) with (S754_zero false). intros L Z.
  apply Prim2SF_inj. rewrite FloatAxioms.abs_spec.
  destruct (Prim2SF x) as [s|s| |s m e]; try reflexivity;
    destruct s; try reflexivity; discriminate.
Qed.

(** C2, as amended. [logsq2] is [log |im|] at [re = 0], [log |re|] at
    [im = 0], half the logarithm of the sum of squares below 1000, and
    otherwise the logarithm of the signed [re] over [cos (atan2 (im, re))];
    the form with [|re|] is the same number unless [re] is negative. *)
Theorem logsq2_meets_amended {M : Math.lib} (re im : float) :
  logsq2 re im = logsq2_amended re im
  /\ ((re <? 0) = false -> logsq2 re im = logsq2_claim re im).
Proof.
  assert (E : logsq2 re im = logsq2_amended re im).
  { unfold logsq2, logsq2_amended.
    rewrite (mul_comm 0.5). reflexivity. }
  split; [exact E|].
  intro L. rewrite E. unfold logsq2_amended, logsq2_claim.
  destruct (re =? 0) eqn:Z; [reflexivity|].
  rewrite (abs_not_negative re L Z). reflexivity.
Qed.

Lemma logsq2_meets_amended_witness :
  (2000 <? 0) = false
  /\ logsq2 (M := RefMath.engine) 2000 1 = logsq2_claim (M := RefMath.engine) 2000 1.
Proof.
  split; [reflexivity|].
  exact (proj2 (logsq2_meets_amended (M := RefMath.engine) 2000 1) eq_refl).
Defined.

(** The engine values that decide [logsq2 (-2000, 1)]: the cosine of the
    angle is negative, so the form with [|re|] takes the logarithm of a
    negative number. *)
Lemma logsq2_negative_re_on {M : Math.lib} :
  Math.atan2 1 (-2000) = 3.1410926536314601 ->
  Math.cos 3.1410926536314601 = -0.99999987500002341 ->
  Math.log 2000.0002499999844 = 7.6009025845420668 ->
  Math.log (-2000.0002499999844) = nan ->
  logsq2 (-2000) 1 = 7.6009025845420668 /\ is_nan (logsq2_claim (-2000) 1) = true.
Proof.
  intros Hatan Hcos Hlog Hneg. unfold logsq2, logsq2_claim.
  change (-2000 =? 0) with false. change (1 =? 0) with false.
  change ((Math.abs (-2000) <? 1000) && (Math.abs 1 <? 1000)) with false.
  cbv iota. rewrite Hatan, Hcos.
  change (-2000 / -0.99999987500002341) with 2000.0002499999844.
  change (Math.abs (-2000) / -0.99999987500002341) with (-2000.0002499999844).
  rewrite Hlog, Hneg. split; reflexivity.
Qed.

(** C2 as stated fails at [(-2000, 1)]: the code's number is the logarithm
    of the magnitude, the form with [|re|] is the logarithm of a negative
    number. *)
Lemma logsq2_negative_re :
  logsq2 (M := RefMath.engine) (-2000) 1 = 7.6009025845420668
  /\ is_nan (logsq2_claim (M := RefMath.engine) (-2000) 1) = true.
Proof. apply (logsq2_negative_re_on (M := RefMath.engine)); vm_compute; reflexivity. Qed.

(** ** Division (C1) *)

Section Division.

Context {M : Math.lib}.

Lemma after_parse {A} (a : args) (c : Js A) (P : scratch) :
  fst (bind (parse a) (fun _ => c) P) =
  match operand a with
  | Throw msg => Throw msg
  | Normal (r, i) => fst (c (mkScratch r i))
  end.
Proof.
  unfold bind, operand. rewrite parse_run.
  destruct (staged a) as [[r i]|]; [|reflexivity].
  destruct (JS.isNaN (r * i)); reflexivity.
Qed.

Lemma returns_operand (a : args) (y : complex) :
  returns (Complex a) y -> operand a = Normal (re y, im y).
Proof.
  intro H. specialize (H (mkScratch 0 0)). rewrite Complex_operand in H.
  destruct (operand a) as [[r i]|msg]; inversion H. reflexivity.
Qed.

Lemma div_run (x : complex) (a : args) (P : scratch) :
  fst (div x a P) =
  match operand a with
  | Throw msg => Throw msg
  | Normal (c, d) =>
      if (c =? 0) && (d =? 0) then Throw DIV_BY_ZERO
      else let '(u, v) := div_claim x (mkComplex c d) in construct u v
  end.
Proof.
  unfold div. rewrite after_parse.
  destruct (operand a) as [[c d]|msg]; [|reflexivity].
  unfold bind, getP, throw, div_claim. cbn [P_re P_im re im fst].
  rewrite !eqb_0_sym.
  destruct ((c =? 0) && (d =? 0)); [reflexivity|].
  destruct (Math.abs c <? Math.abs d); apply Complex_pair.
Qed.

End Division.

(** C1, as amended. For a divisor [y] the constructor accepts, [div] throws
    "DIV/0" exactly when both fields of [y] are zero. Otherwise the pair of
    Smith's algorithm goes through the constructor: it is returned when the
    product of its two numbers is not [NaN], and "Invalid Param" is thrown
    when it is. *)
Theorem div_meets_claim {M : Math.lib} (x : complex) (a : args) (y : complex) :
  returns (Complex a) y ->
  (raises (div x a) DIV_BY_ZERO <-> (re y =? 0) && (im y =? 0) = true)
  /\ ((re y =? 0) && (im y =? 0) = false ->
      (JS.isNaN (fst (div_claim x y) * snd (div_claim x y)) = false ->
       returns (div x a) (mkComplex (fst (div_claim x y)) (snd (div_claim x y))))
      /\ (JS.isNaN (fst (div_claim x y) * snd (div_claim x y)) = true ->
          raises (div x a) INVALID_PARAM)).
Proof.
  intro Hy. apply returns_operand in Hy.
  assert (E : forall P, fst (div x a P) =
                if (re y =? 0) && (im y =? 0) then Throw DIV_BY_ZERO
                else construct (fst (div_claim x y)) (snd (div_claim x y))).
  { intro P. rewrite div_run, Hy. destruct y as [c d]. cbn [re im].
    destruct ((c =? 0) && (d =? 0)); [reflexivity|].
    destruct (div_claim x (mkComplex c d)); reflexivity. }
  split.
  - split.
    + intro H. specialize (H (mkScratch 0 0)). rewrite E in H.
      destruct ((re y =? 0) && (im y =? 0)); [reflexivity|].
      unfold construct in H. destruct (JS.isNaN _); discriminate H.
    + intros H P. rewrite E, H. reflexivity.
  - intro Z. split; intros N P; rewrite E, Z; unfold construct; rewrite N; reflexivity.
Qed.

Lemma div_meets_claim_witness :
  (returns (Complex (M := RefMath.engine) (ArgsPair 3 4)) (mkComplex 3 4)
   /\ (re (mkComplex 3 4) =? 0) && (im (mkComplex 3 4) =? 0) = false
   /\ returns (div (M := RefMath.engine) (mkComplex (-7) 24) (ArgsPair 3 4)) (mkComplex 3 4))
  /\ (returns (Complex (M := RefMath.engine) (this_arg ZERO)) ZERO
      /\ raises (div (M := RefMath.engine) ONE (this_arg ZERO)) DIV_BY_ZERO).
Proof.
  assert (H : returns (Complex (M := RefMath.engine) (ArgsPair 3 4)) (mkComplex 3 4)).
  { intro P. rewrite Complex_pair. reflexivity. }
  assert (Z : returns (Complex (M := RefMath.engine) (this_arg ZERO)) ZERO).
  { intro P. rewrite Complex_run. reflexivity. }
  split.
  - split; [exact H|]. split; [reflexivity|].
    exact (proj1 (proj2 (div_meets_claim (M := RefMath.engine)
                           (mkComplex (-7) 24) (ArgsPair 3 4) (mkComplex 3 4) H)
                   eq_refl) eq_refl).
  - split; [exact Z|].
    exact (proj2 (proj1 (div_meets_claim (M := RefMath.engine) ONE (this_arg ZERO) ZERO Z))
             eq_refl).
Defined.

(** C1 as stated fails: the divisor [(0.5, 0)] is not zero, and
    [(1e308, 0) / (0.5, 0)] throws "Invalid Param" (the quotient is
    [(Infinity, 0)]). *)
Lemma div_overflow_invalid :
  returns (Complex (M := RefMath.engine) (ArgsPair 0.5 0)) (mkComplex 0.5 0)
  /\ (0.5 =? 0) && (0 =? 0) = false
  /\ div_claim (mkComplex 1e308 0) (mkComplex 0.5 0) = (infinity, 0)
  /\ raises (div (M := RefMath.engine) (mkComplex 1e308 0) (ArgsPair 0.5 0)) INVALID_PARAM.
Proof.
  split; [|split; [|split]]; try reflexivity.
  - intro P. rewrite Complex_pair. reflexivity.
  - intro P. rewrite div_run. reflexivity.
Qed.

(** ** The inverse (C6) *)

Section Inverse.

Context {M : Math.lib}.

Lemma inverse_run (x : complex) (P : scratch) :
  fst (inverse x P) =
  let t := re x * re x + im x * im x in
  if t =? 0 then Throw DIV_BY_ZERO else construct (re x / t) (- im x / t).
Proof.
  unfold inverse. cbv zeta. rewrite eqb_0_sym.
  destruct (re x * re x + im x * im x =? 0); [reflexivity|].
  apply Complex_pair.
Qed.

End Inverse.

(** C6, as amended. [inverse] throws "DIV/0" when both fields are zero.
    Whenever the sum of squares [t], computed in binary64, is not zero, the
    pair [(re/t, -im/t)] goes through the constructor: it is returned when
    the product of its two numbers is not [NaN], and "Invalid Param" is
    thrown when it is. *)
Theorem inverse_meets_amended {M : Math.lib} (x : complex) :
  ((re x =? 0) && (im x =? 0) = true -> raises (inverse x) DIV_BY_ZERO)
  /\ ((re x * re x + im x * im x =? 0) = false ->
      (JS.isNaN (re x / (re x * re x + im x * im x)
                 * (- im x / (re x * re x + im x * im x))) = false ->
       returns (inverse x)
         (mkComplex (re x / (re x * re x + im x * im x))
                    (- im x / (re x * re x + im x * im x))))
      /\ (JS.isNaN (re x / (re x * re x + im x * im x)
                    * (- im x / (re x * re x + im x * im x))) = true ->
          raises (inverse x) INVALID_PARAM)).
Proof.
  split.
  - intros Z P. apply andb_true_iff in Z. destruct Z as [Zr Zi].
    destruct x as [r i]. cbn [re im] in Zr, Zi.
    destruct (eqb_0_true _ Zr) as [-> | ->];
      destruct (eqb_0_true _ Zi) as [-> | ->]; reflexivity.
  - intro T. split; intros N P; rewrite inverse_run; cbv zeta; rewrite T;
      unfold construct; rewrite N; reflexivity.
Qed.

Lemma inverse_meets_amended_witness :
  ((re (mkComplex neg_zero 0) =? 0) && (im (mkComplex neg_zero 0) =? 0) = true
   /\ raises (inverse (M := RefMath.engine) (mkComplex neg_zero 0)) DIV_BY_ZERO)
  /\ ((3 * 3 + 4 * 4 =? 0) = false
      /\ returns (inverse (M := RefMath.engine) (mkComplex 3 4))
           (mkComplex (3 / 25) (- (4) / 25))).
Proof.
  split.
  - split; [reflexivity|].
    exact (proj1 (inverse_meets_amended (M := RefMath.engine) (mkComplex neg_zero 0))
             eq_refl).
  - split; [reflexivity|].
    exact (proj1 (proj2 (inverse_meets_amended (M := RefMath.engine) (mkComplex 3 4))
                    eq_refl) eq_refl).
Defined.

(** C6 as stated fails: [(Infinity, 1)] is a value the constructor builds,
    it is not zero, and its inverse throws "Invalid Param". *)
Lemma inverse_infinite_invalid :
  returns (Complex (M := RefMath.engine) (ArgsPair infinity 1)) (mkComplex infinity 1)
  /\ (infinity =? 0) && (1 =? 0) = false
  /\ raises (inverse (M := RefMath.engine) (mkComplex infinity 1)) INVALID_PARAM.
Proof.
  split; [|split]; try reflexivity.
  - intro P. rewrite Complex_pair. reflexivity.
  - intro P. rewrite inverse_run. reflexivity.
Qed.

(** X5. The sum of squares underflows for a small value that is not zero:
    [inverse] throws "DIV/0" where [ONE.div] returns the inverse. *)
Lemma inverse_underflow :
  (1e-200 =? 0) = false
  /\ raises (inverse (M := RefMath.engine) (mkComplex 1e-200 0)) DIV_BY_ZERO
  /\ returns (div (M := RefMath.engine) ONE (ArgsPair 1e-200 0)) (mkComplex (1 / 1e-200) 0).
Proof.
  split; [|split]; try reflexivity.
  - intro P. rewrite inverse_run. reflexivity.
  - intro P. rewrite div_run. reflexivity.
Qed.

(** ** Comparison (C7) *)

Section Equality.

Context {M : Math.lib}.

Lemma equals_run (x : complex) (a : args) (P : scratch) :
  fst (equals x a P) =
  match operand a with
  | Throw msg => Throw msg
  | Normal (r, i) =>
      Normal ((Math.abs (r - re x) <=? EPSILON) && (Math.abs (i - im x) <=? EPSILON))
  end.
Proof.
  unfold equals. rewrite after_parse.
  destruct (operand a) as [[r i]|msg]; reflexivity.
Qed.

Lemma operand_this (y : complex) :
  operand (this_arg y) =
  if JS.isNaN (re y * im y) then Throw INVALID_PARAM else Normal (re y, im y).
Proof. reflexivity. Qed.

Lemma holds_nan_product (y : complex) :
  is_nan (re y) || is_nan (im y) = true -> JS.isNaN (re y * im y) = true.
Proof.
  intro H. apply orb_true_iff in H. unfold JS.isNaN.
  destruct H as [H|H]; apply is_nan_eq in H; rewrite H.
  - rewrite mul_nan_l. reflexivity.
  - rewrite mul_nan_r. reflexivity.
Qed.

Lemma equals_nan_receiver (x : complex) (r i : float) :
  is_nan (re x) || is_nan (im x) = true ->
  (Math.abs (r - re x) <=? EPSILON) && (Math.abs (i - im x) <=? EPSILON) = false.
Proof.
  intro H. apply orb_true_iff in H.
  destruct H as [H|H]; apply is_nan_eq in H; rewrite H, sub_nan_r.
  - reflexivity.
  - apply andb_false_r.
Qed.

End Equality.

(** C7, as amended. When at least one of [x], [y] holds [NaN], [equals]
    never returns [true]. It throws "Invalid Param" when the operand parse
    refuses the argument: the product of its components is [NaN], which is
    so whenever the argument holds [NaN], and also when it has an infinite
    component beside a zero. When the argument is accepted and the
    receiver holds [NaN], it returns [false]. *)
Theorem equals_nan {M : Math.lib} (x y : complex) :
  (is_nan (re y) || is_nan (im y) = true ->
   raises (equals x (this_arg y)) INVALID_PARAM)
  /\ (JS.isNaN (re y * im y) = true ->
      raises (equals x (this_arg y)) INVALID_PARAM)
  /\ (is_infinite (re y) && (im y =? 0) || (re y =? 0) && is_infinite (im y) = true ->
      JS.isNaN (re y * im y) = true)
  /\ (is_nan (re x) || is_nan (im x) = true -> JS.isNaN (re y * im y) = false ->
      returns (equals x (this_arg y)) false)
  /\ (is_nan (re x) || is_nan (im x) || is_nan (re y) || is_nan (im y) = true ->
      ~ returns (equals x (this_arg y)) true).
Proof.
  assert (R : JS.isNaN (re y * im y) = true ->
              raises (equals x (this_arg y)) INVALID_PARAM).
  { intros V P. rewrite equals_run, operand_this, V. reflexivity. }
  assert (A : is_nan (re y) || is_nan (im y) = true ->
              raises (equals x (this_arg y)) INVALID_PARAM).
  { intro H. apply R, holds_nan_product, H. }
  assert (B : is_nan (re x) || is_nan (im x) = true -> JS.isNaN (re y * im y) = false ->
              returns (equals x (this_arg y)) false).
  { intros H V P. rewrite equals_run, operand_this, V.
    rewrite (equals_nan_receiver x _ _ H). reflexivity. }
  split; [exact A|]. split; [exact R|]. split; [|split; [exact B|]].
  - intro H. apply orb_true_iff in H. unfold JS.isNaN.
    destruct H as [H|H]; apply andb_true_iff in H; destruct H as [H1 H2].
    + rewrite (infinite_mul_zero _ _ H1 H2). reflexivity.
    + rewrite mul_comm, (infinite_mul_zero _ _ H2 H1). reflexivity.
  - intros H T. specialize (T (mkScratch 0 0)).
    rewrite <- orb_assoc in H. apply orb_true_iff in H. destruct H as [H|H].
    + destruct (JS.isNaN (re y * im y)) eqn:V.
      * rewrite (R eq_refl) in T. discriminate T.
      * rewrite (B H eq_refl) in T. discriminate T.
    + rewrite (A H) in T. discriminate T.
Qed.

Lemma equals_nan_witness :
  (is_nan nan || is_nan 0 = true
   /\ raises (equals (M := RefMath.engine) (mkComplex 1 2) (this_arg (mkComplex nan 0)))
        INVALID_PARAM)
  /\ (is_infinite infinity && (0 =? 0) || (infinity =? 0) && is_infinite 0 = true
      /\ JS.isNaN (infinity * 0) = true
      /\ raises (equals (M := RefMath.engine) (mkComplex nan 0)
                   (this_arg (mkComplex infinity 0))) INVALID_PARAM)
  /\ (is_nan nan || is_nan 2 = true /\ JS.isNaN (1 * 2) = false
      /\ returns (equals (M := RefMath.engine) (mkComplex nan 2) (this_arg (mkComplex 1 2)))
           false)
  /\ (is_nan nan || is_nan 2 || is_nan 1 || is_nan 2 = true
      /\ ~ returns (equals (M := RefMath.engine) (mkComplex nan 2)
                      (this_arg (mkComplex 1 2))) true).
Proof.
  split; [|split; [|split]].
  - split; [reflexivity|].
    exact (proj1 (equals_nan (M := RefMath.engine) (mkComplex 1 2) (mkComplex nan 0))
             eq_refl).
  - split; [reflexivity|].
    pose proof (proj1 (proj2 (proj2 (equals_nan (M := RefMath.engine) (mkComplex nan 0)
                                       (mkComplex infinity 0)))) eq_refl) as V.
    split; [exact V|].
    exact (proj1 (proj2 (equals_nan (M := RefMath.engine) (mkComplex nan 0)
                           (mkComplex infinity 0))) V).
  - split; [reflexivity|]. split; [reflexivity|].
    exact (proj1 (proj2 (proj2 (proj2 (equals_nan (M := RefMath.engine) (mkComplex nan 2)
                                         (mkComplex 1 2)))))
             eq_refl eq_refl).
  - split; [reflexivity|].
    exact (proj2 (proj2 (proj2 (proj2 (equals_nan (M := RefMath.engine) (mkComplex nan 2)
                                         (mkComplex 1 2)))))
             eq_refl).
Defined.

(** C7 as stated fails: comparing with a value that holds [NaN] throws. *)
Lemma equals_nan_argument_throws :
  is_nan (re (mkComplex nan 0)) = true
  /\ raises (equals (M := RefMath.engine) (mkComplex 1 2) (this_arg (mkComplex nan 0)))
       INVALID_PARAM.
Proof.
  split; [reflexivity|].
  intro P. rewrite equals_run. reflexivity.
Qed.

(** ** Rounding keeps what is not zero

    Rounding never turns a nonzero integer times [2^e], [emin <= e], into
    zero; so [1 - b] is zero only for [b = 1]. *)

Lemma Zdigits2_shr_1 (s : shr_record) :
  Zdigits2 (shr_m (shr_1 s)) = Z.max 0 (Zdigits2 (shr_m s) - 1).
Proof.
  destruct s as [m r t]. destruct m as [|p|p]; try destruct p;
    cbn [shr_1 shr_m Zdigits2 digits2_pos]; rewrite ?Pos2Z.inj_succ; lia.
Qed.

Lemma Zdigits2_nonneg (m : Z) : (0 <= Zdigits2 m)%Z.
Proof. destruct m; simpl; lia. Qed.

Lemma Zdigits2_shr (p : positive) :
  forall s, Zdigits2 (shr_m (iter_pos shr_1 p s)) = Z.max 0 (Zdigits2 (shr_m s) - Z.pos p).
Proof.
  induction p as [p IH|p IH|]; intro s; simpl.
  - rewrite !IH, Zdigits2_shr_1. pose proof (Zdigits2_nonneg (shr_m s)). lia.
  - rewrite !IH. pose proof (Zdigits2_nonneg (shr_m s)). lia.
  - apply Zdigits2_shr_1.
Qed.

Lemma shr_m_of_loc (m : Z) (l : location) : shr_m (shr_record_of_loc m l) = m.
Proof. destruct l as [|c]; [reflexivity|destruct c; reflexivity]. Qed.

Lemma shr_fexp_positive (m e : Z) (l : location) :
  (0 < Zdigits2 m)%Z -> (emin <= e)%Z ->
  (0 < Zdigits2 (shr_m (fst (shr_fexp prec emax m e l))))%Z
  /\ (emin <= snd (shr_fexp prec emax m e l))%Z.
Proof.
  intros Hm He. unfold shr_fexp, shr, fexp.
  destruct (Z.max (Zdigits2 m + e - prec) emin - e)%Z as [|n|n] eqn:E; simpl.
  - rewrite shr_m_of_loc. lia.
  - rewrite Zdigits2_shr, shr_m_of_loc. unfold prec in *. lia.
  - rewrite shr_m_of_loc. lia.
Qed.

Lemma Zdigits2_pos_iff (m : Z) : (0 <= m)%Z -> (0 < Zdigits2 m)%Z -> (0 < m)%Z.
Proof. destruct m; simpl; lia. Qed.

Lemma Zdigits2_of_pos (m : Z) : (0 < m)%Z -> (0 < Zdigits2 m)%Z.
Proof. destruct m; simpl; lia. Qed.

Lemma shr_1_nonneg (s : shr_record) : (0 <= shr_m s)%Z -> (0 <= shr_m (shr_1 s))%Z.
Proof.
  destruct s as [m r t]. destruct m as [|p|p]; try destruct p;
    cbn [shr_1 shr_m]; lia.
Qed.

Lemma shr_nonneg (p : positive) :
  forall s, (0 <= shr_m s)%Z -> (0 <= shr_m (iter_pos shr_1 p s))%Z.
Proof.
  induction p as [p IH|p IH|]; intros s H; simpl.
  - apply IH, IH, shr_1_nonneg, H.
  - apply IH, IH, H.
  - apply shr_1_nonneg, H.
Qed.

Lemma shr_fexp_pos (m e : Z) (l : location) :
  (0 < m)%Z -> (emin <= e)%Z ->
  (0 < shr_m (fst (shr_fexp prec emax m e l)))%Z
  /\ (emin <= snd (shr_fexp prec emax m e l))%Z.
Proof.
  intros Hm He.
  destruct (shr_fexp_positive m e l (Zdigits2_of_pos m Hm) He) as [D E].
  split; [|exact E].
  apply Zdigits2_pos_iff; [|exact D].
  unfold shr_fexp, shr.
  destruct (fexp prec emax (Zdigits2 m + e) - e)%Z as [|n|n]; simpl;
    try (rewrite shr_m_of_loc; lia).
  apply shr_nonneg. rewrite shr_m_of_loc. lia.
Qed.

Lemma round_nearest_even_pos (m : Z) (l : location) :
  (0 < m)%Z -> (0 < round_nearest_even m l)%Z.
Proof.
  intro H. destruct l as [|c]; [exact H|].
  destruct c; simpl; try destruct (Z.even m); lia.
Qed.

Lemma binary_round_aux_not_zero (sx : bool) (mx ex : Z) (lx : location) :
  (0 < mx)%Z -> (emin <= ex)%Z ->
  SFeqb (binary_round_aux prec emax sx mx ex lx) (S754_zero false) = false.
Proof.
  intros Hm He. unfold binary_round_aux.
  pose proof (shr_fexp_pos mx ex lx Hm He) as H1.
  destruct (shr_fexp prec emax mx ex lx) as [mrs' e']. cbn [fst snd] in H1.
  destruct H1 as [H1 H1e].
  pose proof (shr_fexp_pos _ e' loc_Exact
                (round_nearest_even_pos _ (loc_of_shr_record mrs') H1) H1e) as H2.
  destruct (shr_fexp prec emax _ e' loc_Exact) as [mrs'' e'']. cbn [fst snd] in H2.
  destruct H2 as [H2 _].
  destruct (shr_m mrs'') as [|p|p]; try lia.
  destruct (e'' <=? emax - prec)%Z; destruct sx; reflexivity.
Qed.

Lemma binary_normalize_not_zero (m e : Z) :
  m <> 0%Z -> (emin <= e)%Z ->
  SFeqb (binary_normalize prec emax m e false) (S754_zero false) = false.
Proof.
  intros Hm He.
  assert (R : forall s p, SFeqb (binary_round prec emax s p e) (S754_zero false) = false).
  { intros s p. unfold binary_round, shl_align.
    destruct (fexp prec emax (Z.pos (digits2_pos p) + e) - e)%Z as [|d|d] eqn:E;
      apply binary_round_aux_not_zero; try lia.
    unfold fexp in *. lia. }
  destruct m as [|p|p]; [congruence| |]; apply R.
Qed.

Lemma digits2_pos_size (m : positive) : digits2_pos m = Pos.size m.
Proof. induction m as [m IH|m IH|]; simpl; rewrite ?IH; reflexivity. Qed.

Lemma shl_align_value (mx : positive) (ex ez : Z) :
  (ez <= ex)%Z -> Z.pos (fst (shl_align mx ex ez)) = (Z.pos mx * 2 ^ (ex - ez))%Z.
Proof.
  intro H. unfold shl_align.
  destruct (ez - ex)%Z as [|d|d] eqn:E; cbn [fst].
  - replace (ex - ez)%Z with 0%Z by lia. lia.
  - lia.
  - change (Pos.iter xO mx d) with (shift_pos d mx).
    rewrite shift_pos_correct. change (Zpower_pos 2 d) with (2 ^ Z.pos d)%Z.
    replace (ex - ez)%Z with (Z.pos d) by lia. lia.
Qed.

Lemma pow2_size (m : positive) (k : Z) :
  (0 <= k)%Z -> Z.pos m = (2 ^ k)%Z -> Z.pos (digits2_pos m) = (k + 1)%Z.
Proof.
  intros Hk E. rewrite digits2_pos_size.
  pose proof (Pos.size_gt m) as G. pose proof (Pos.size_le m) as L.
  assert (G' : (Z.pos m < 2 ^ Z.pos (Pos.size m))%Z).
  { rewrite <- (Pos2Z.inj_pow 2). apply Pos2Z.pos_lt_pos, G. }
  assert (L' : (2 ^ Z.pos (Pos.size m) <= 2 * Z.pos m)%Z).
  { rewrite <- (Pos2Z.inj_pow 2). apply (Pos2Z.pos_le_pos _ (m~0)), L. }
  clear G L. rename G' into G. rename L' into L. rewrite E in G, L.
  replace (2 * 2 ^ k)%Z with (2 ^ (k + 1))%Z in L by (rewrite Z.pow_add_r; lia).
  apply Z.pow_lt_mono_r_iff in G; try lia.
  apply Z.pow_le_mono_r_iff in L; lia.
Qed.

Lemma sub_one_zero (b : float) : (1 - b =? 0) = true -> (b =? 1) = true.
Proof.
  rewrite !FloatAxioms.eqb_spec, FloatAxioms.sub_spec.
  change (Prim2SF 1) with (S754_finite false 4503599627370496 (-52)).
  change (Prim2SF 0) with (S754_zero false).
  pose proof (Prim2SF_valid b) as V.
  destruct (Prim2SF b) as [s|s| |s m e]; try (intro H; discriminate H);
    try (destruct s; intro H; discriminate H).
  unfold SF64sub, SFsub.
  set (ez := Z.min (-52) e).
  cbn [valid_binary] in V. unfold bounded, canonical_mantissa, fexp in V.
  apply andb_true_iff in V. destruct V as [C _]. apply Z.eqb_eq in C.
  assert (Hemin : (emin <= e)%Z) by lia.
  set (D := (cond_Zopp false (Z.pos (fst (shl_align 4503599627370496 (-52) ez)))
             - cond_Zopp s (Z.pos (fst (shl_align m e ez))))%Z).
  destruct (Z.eq_dec D 0) as [Z0|NZ].
  2:{ rewrite (binary_normalize_not_zero D ez NZ); [intro H; discriminate H|].
      unfold ez. unfold SpecFloat.emin, prec, emax in *. lia. }
  intros _. unfold D in Z0.
  rewrite !shl_align_value in Z0 by (unfold ez; lia).
  assert (s = false) as ->.
  { destruct s; [|reflexivity]. cbn [cond_Zopp] in Z0.
    assert (0 < 2 ^ (-52 - ez))%Z by (apply Z.pow_pos_nonneg; unfold ez; lia).
    assert (0 < 2 ^ (e - ez))%Z by (apply Z.pow_pos_nonneg; unfold ez; lia).
    nia. }
  cbn [cond_Zopp] in Z0.
  assert (E : (e <= 0)%Z /\ Z.pos m = (2 ^ (- e))%Z).
  { destruct (Z.le_gt_cases e (-52)) as [L|G].
    - replace ez with e in Z0 by (unfold ez; lia).
      rewrite Z.sub_diag, Z.mul_1_r in Z0. split; [lia|].
      change 4503599627370496%Z with (2 ^ 52)%Z in Z0.
      rewrite <- Z.pow_add_r in Z0 by lia.
      replace (52 + (-52 - e))%Z with (- e)%Z in Z0 by lia. lia.
    - replace ez with (-52)%Z in Z0 by (unfold ez; lia).
      change (-52 - -52)%Z with 0%Z in Z0. rewrite Z.mul_1_r in Z0.
      change 4503599627370496%Z with (2 ^ 52)%Z in Z0.
      assert (Hle : (e <= 0)%Z).
      { destruct (Z.le_gt_cases e 0) as [?|G0]; [assumption|exfalso].
        assert (2 ^ 52 < 2 ^ (e - -52))%Z by (apply Z.pow_lt_mono_r; lia).
        nia. }
      split; [exact Hle|].
      replace (2 ^ 52)%Z with (2 ^ (- e) * 2 ^ (e - -52))%Z in Z0
        by (rewrite <- Z.pow_add_r by lia; f_equal; lia).
      assert (0 < 2 ^ (e - -52))%Z by (apply Z.pow_pos_nonneg; lia).
      nia. }
  destruct E as [Ele Em].
  rewrite (pow2_size m (- e)) in C by (lia || exact Em).
  unfold SpecFloat.emin, prec, emax in C.
  assert (e = (-52)%Z) as -> by lia.
  change (2 ^ (- -52))%Z with (Z.pos 4503599627370496) in Em.
  inversion Em. reflexivity.
Qed.

Lemma sub_zero_zero (a : float) : (0 - a =? 0) = true -> (a =? 0) = true.
Proof.
  rewrite !FloatAxioms.eqb_spec, FloatAxioms.sub_spec.
  change (Prim2SF 0) with (S754_zero false).
  destruct (Prim2SF a) as [s|s| |s m e]; try (intro H; discriminate H);
    destruct s; intro H; try discriminate H; reflexivity.
Qed.

Lemma eqb_1_true (x : float) : (x =? 1) = true -> x = 1.
Proof.
  rewrite FloatAxioms.eqb_spec.
  change (Prim2SF 1) with (S754_finite false 4503599627370496 (-52)).
  intro H. apply Prim2SF_inj.
  change (Prim2SF 1) with (S754_finite false 4503599627370496 (-52)).
  destruct (Prim2SF x) as [s|s| |s m e]; try discriminate H;
    try (destruct s; discriminate H).
  unfold SFeqb, SFcompare in H. destruct s; [discriminate H|].
  destruct (e ?= -52)%Z eqn:Ce; try discriminate H.
  apply Z.compare_eq in Ce. subst e.
  destruct (Pos.compare_cont Eq m 4503599627370496) eqn:Cm; try discriminate H.
  apply (Pos.compare_eq m) in Cm. subst m. reflexivity.
Qed.

(** ** Chains of calls *)

Section Chains.

Context {M : Math.lib}.

Lemma indep_result {A} (c : Js A) : indep c -> forall P, fst (c P) = result c.
Proof. intros H P. apply H. Qed.

Lemma indep_of_run {A} (c : Js A) (o : completion A) :
  (forall P, fst (c P) = o) -> indep c.
Proof. intros H P Q. rewrite !H. reflexivity. Qed.

Lemma result_bind {A B} (c : Js A) (k : A -> Js B) :
  indep c -> (forall a, indep (k a)) ->
  forall P, fst (bind c k P) = and_then (result c) (fun a => result (k a)).
Proof.
  intros Hc Hk P. unfold bind.
  rewrite <- (indep_result c Hc P).
  destruct (c P) as [[a|msg] Q]; cbn [fst and_then]; [|reflexivity].
  apply (indep_result (k a) (Hk a)).
Qed.

Lemma returns_result {A} (c : Js A) (a : A) :
  indep c -> (returns c a <-> result c = Normal a).
Proof.
  intro H. split.
  - intro R. apply R.
  - intros R P. rewrite (indep_result c H). exact R.
Qed.

Lemma raises_result {A} (c : Js A) (msg : string) :
  indep c -> (raises c msg <-> result c = Throw msg).
Proof.
  intro H. split.
  - intro R. apply R.
  - intros R P. rewrite (indep_result c H). exact R.
Qed.

Lemma add_run (x : complex) (a : args) (P : scratch) :
  fst (add x a P) =
  and_then (operand a) (fun p => construct (re x + fst p) (im x + snd p)).
Proof.
  unfold add. rewrite after_parse.
  destruct (operand a) as [[r i]|msg]; [|reflexivity]. apply Complex_pair.
Qed.

Lemma sub_run (x : complex) (a : args) (P : scratch) :
  fst (sub x a P) =
  and_then (operand a) (fun p => construct (re x - fst p) (im x - snd p)).
Proof.
  unfold sub. rewrite after_parse.
  destruct (operand a) as [[r i]|msg]; [|reflexivity]. apply Complex_pair.
Qed.

Lemma mul_run (x : complex) (a : args) (P : scratch) :
  fst (mul x a P) =
  and_then (operand a)
    (fun p => construct (re x * fst p - im x * snd p) (re x * snd p + im x * fst p)).
Proof.
  unfold mul. rewrite after_parse.
  destruct (operand a) as [[r i]|msg]; [|reflexivity]. apply Complex_pair.
Qed.

Lemma log_run (x : complex) (P : scratch) :
  fst (log x P) = construct (logsq2 (re x) (im x)) (Math.atan2 (im x) (re x)).
Proof. unfold log. apply Complex_pair. Qed.

Lemma indep_add x a : indep (add x a).
Proof. eapply indep_of_run. apply add_run. Qed.
Lemma indep_sub x a : indep (sub x a).
Proof. eapply indep_of_run. apply sub_run. Qed.
Lemma indep_mul x a : indep (mul x a).
Proof. eapply indep_of_run. apply mul_run. Qed.
Lemma indep_div x a : indep (div x a).
Proof. eapply indep_of_run. apply div_run. Qed.
Lemma indep_log x : indep (log x).
Proof. eapply indep_of_run. apply log_run. Qed.

Lemma indep_bind {A B} (c : Js A) (k : A -> Js B) :
  indep c -> (forall a, indep (k a)) -> indep (bind c k).
Proof. intros Hc Hk. eapply indep_of_run. apply result_bind; assumption. Qed.

Lemma construct_throws (r i : float) (msg : string) :
  construct r i = Throw msg -> msg = INVALID_PARAM.
Proof. unfold construct. destruct (JS.isNaN (r * i)); intro H; inversion H. reflexivity. Qed.

Lemma operand_throws (a : args) (msg : string) :
  operand a = Throw msg -> msg = INVALID_PARAM.
Proof.
  unfold operand. destruct (staged a) as [[r i]|].
  - destruct (JS.isNaN (r * i)); intro H; inversion H. reflexivity.
  - intro H. inversion H. reflexivity.
Qed.

Lemma operand_valid (z : complex) :
  JS.isNaN (re z * im z) = false -> operand (this_arg z) = Normal (re z, im z).
Proof. intro H. rewrite operand_this, H. reflexivity. Qed.

Ltac solve_indep :=
  repeat match goal with
         | |- indep (add _ _) => apply indep_add
         | |- indep (sub _ _) => apply indep_sub
         | |- indep (mul _ _) => apply indep_mul
         | |- indep (div _ _) => apply indep_div
         | |- indep (log _) => apply indep_log
         | |- indep (bind _ _) => apply indep_bind; [|intro]
         end.

Ltac step_chain :=
  unfold result at 1;
  rewrite result_bind; [|solve_indep|intro; solve_indep];
  match goal with
  | |- and_then ?o _ = _ => destruct o; [|reflexivity]
  end;
  cbn [and_then].

(** [atan], call by call. *)
Lemma atan_result (z : complex) :
  result (atan z) =
  and_then (result (add I (this_arg z))) (fun t1 =>
  and_then (result (sub I (this_arg z))) (fun t2 =>
  and_then (result (div t1 (this_arg t2))) (fun t3 =>
  and_then (result (log t3)) (fun t4 =>
  and_then (result (mul t4 (this_arg I))) (fun t5 =>
  result (div t5 (ArgsNumber 2))))))).
Proof.
  unfold atan. do 5 step_chain. reflexivity.
Qed.

Lemma indep_atan (z : complex) : indep (atan z).
Proof. unfold atan. solve_indep. Qed.

End Chains.

(** ** The arc tangent (C9) *)

Section ArcTangent.

Context {M : Math.lib}.

Lemma and_then_throws {A B} (o : completion A) (k : A -> completion B) (msg : string) :
  and_then o k = Throw msg ->
  o = Throw msg \/ exists a, o = Normal a /\ k a = Throw msg.
Proof.
  destruct o as [a|m]; cbn [and_then]; intro H.
  - right. exists a. auto.
  - left. inversion H. reflexivity.
Qed.

Lemma add_throws x a msg : result (add x a) = Throw msg -> msg = INVALID_PARAM.
Proof.
  unfold result. rewrite add_run. intro H.
  apply and_then_throws in H. destruct H as [H|[p [_ H]]].
  - exact (operand_throws _ _ H).
  - exact (construct_throws _ _ _ H).
Qed.

Lemma sub_throws x a msg : result (sub x a) = Throw msg -> msg = INVALID_PARAM.
Proof.
  unfold result. rewrite sub_run. intro H.
  apply and_then_throws in H. destruct H as [H|[p [_ H]]].
  - exact (operand_throws _ _ H).
  - exact (construct_throws _ _ _ H).
Qed.

Lemma mul_throws x a msg : result (mul x a) = Throw msg -> msg = INVALID_PARAM.
Proof.
  unfold result. rewrite mul_run. intro H.
  apply and_then_throws in H. destruct H as [H|[p [_ H]]].
  - exact (operand_throws _ _ H).
  - exact (construct_throws _ _ _ H).
Qed.

Lemma log_throws x msg : result (log x) = Throw msg -> msg = INVALID_PARAM.
Proof. unfold result. rewrite log_run. apply construct_throws. Qed.

Lemma div_throws x a msg :
  result (div x a) = Throw msg ->
  msg = INVALID_PARAM
  \/ (msg = DIV_BY_ZERO
      /\ exists c d, operand a = Normal (c, d) /\ (c =? 0) && (d =? 0) = true).
Proof.
  unfold result. rewrite div_run.
  destruct (operand a) as [[c d]|m] eqn:O.
  - destruct ((c =? 0) && (d =? 0)) eqn:Z; intro H.
    + right. inversion H. split; [reflexivity|]. exists c, d. auto.
    + left. destruct (div_claim x (mkComplex c d)) as [u v].
      exact (construct_throws _ _ _ H).
  - intro H. left. inversion H. subst m. exact (operand_throws _ _ O).
Qed.

Lemma sub_I_returns (z t2 : complex) :
  result (sub I (this_arg z)) = Normal t2 ->
  t2 = mkComplex (0 - re z) (1 - im z) /\ JS.isNaN (re t2 * im t2) = false.
Proof.
  unfold result. rewrite sub_run, operand_this.
  destruct (JS.isNaN (re z * im z)); cbn [and_then]; [discriminate|].
  cbn [fst snd re im I]. intro H. apply construct_valid in H.
  destruct H as [-> V]. auto.
Qed.

Lemma atan_div_by_zero_only_at_I (z : complex) :
  result (atan z) = Throw DIV_BY_ZERO -> (re z =? 0) && (im z =? 1) = true.
Proof.
  rewrite atan_result. intro H.
  apply and_then_throws in H. destruct H as [H|[t1 [_ H]]].
  { apply add_throws in H. discriminate H. }
  apply and_then_throws in H. destruct H as [H|[t2 [E2 H]]].
  { apply sub_throws in H. discriminate H. }
  apply sub_I_returns in E2. destruct E2 as [E2 V2].
  apply and_then_throws in H. destruct H as [H|[t3 [_ H]]].
  { apply div_throws in H. destruct H as [H|[_ [c [d [O Z]]]]]; [discriminate H|].
    rewrite (operand_valid t2 V2) in O. inversion O. subst c d t2.
    cbn [re im] in Z. apply andb_true_iff in Z. destruct Z as [Zr Zi].
    rewrite (sub_zero_zero _ Zr), (sub_one_zero _ Zi). reflexivity. }
  apply and_then_throws in H. destruct H as [H|[t4 [_ H]]].
  { apply log_throws in H. discriminate H. }
  apply and_then_throws in H. destruct H as [H|[t5 [_ H]]].
  { apply mul_throws in H. discriminate H. }
  apply div_throws in H. destruct H as [H|[_ [c [d [O Z]]]]]; [discriminate H|].
  inversion O. subst c d. discriminate Z.
Qed.

Lemma atan_throws (z : complex) (msg : string) :
  result (atan z) = Throw msg -> msg = DIV_BY_ZERO \/ msg = INVALID_PARAM.
Proof.
  rewrite atan_result. intro H.
  apply and_then_throws in H. destruct H as [H|[t1 [_ H]]].
  { right. exact (add_throws _ _ _ H). }
  apply and_then_throws in H. destruct H as [H|[t2 [_ H]]].
  { right. exact (sub_throws _ _ _ H). }
  apply and_then_throws in H. destruct H as [H|[t3 [_ H]]].
  { apply div_throws in H. destruct H as [H|[H _]]; auto. }
  apply and_then_throws in H. destruct H as [H|[t4 [_ H]]].
  { right. exact (log_throws _ _ H). }
  apply and_then_throws in H. destruct H as [H|[t5 [_ H]]].
  { right. exact (mul_throws _ _ _ H). }
  apply div_throws in H. destruct H as [H|[H _]]; auto.
Qed.

Lemma atan_at_I (r : float) :
  (r =? 0) = true -> result (atan (mkComplex r 1)) = Throw DIV_BY_ZERO.
Proof.
  intro Z. destruct (eqb_0_true _ Z) as [-> | ->]; reflexivity.
Qed.

End ArcTangent.

Lemma and_then_returns {A B} (o : completion A) (k : A -> completion B) (b : B) :
  and_then o k = Normal b <-> exists a, o = Normal a /\ k a = Normal b.
Proof.
  split.
  - destruct o as [a|m]; cbn [and_then]; intro H; [|discriminate H].
    exists a. auto.
  - intros [a [-> H]]. exact H.
Qed.

(** C9, as amended. [atan z] throws "DIV/0" exactly when [z] is [i] (real
    part zero, imaginary part one). It throws nothing but "DIV/0" and
    "Invalid Param", and what it returns is the value of the chain
    [I.add(z).div(I.sub(z)).log().mul(I).div(2)]. *)
Theorem atan_errors {M : Math.lib} (z : complex) :
  (raises (atan z) DIV_BY_ZERO <-> (re z =? 0) && (im z =? 1) = true)
  /\ (forall msg, raises (atan z) msg -> msg = DIV_BY_ZERO \/ msg = INVALID_PARAM)
  /\ (forall w, returns (atan z) w <->
        exists t1 t2 t3 t4 t5,
          returns (add I (this_arg z)) t1 /\ returns (sub I (this_arg z)) t2
          /\ returns (div t1 (this_arg t2)) t3 /\ returns (log t3) t4
          /\ returns (mul t4 (this_arg I)) t5 /\ returns (div t5 (ArgsNumber 2)) w).
Proof.
  split; [|split].
  - rewrite (raises_result _ _ (indep_atan z)). split.
    + apply atan_div_by_zero_only_at_I.
    + intro H. apply andb_true_iff in H. destruct H as [Hr Hi].
      destruct z as [r i]. cbn [re im] in Hr, Hi.
      apply eqb_1_true in Hi. subst i. apply atan_at_I, Hr.
  - intros msg H. apply (proj1 (raises_result _ _ (indep_atan z))) in H.
    exact (atan_throws z msg H).
  - intro w. rewrite (returns_result _ _ (indep_atan z)), atan_result. split.
    + intro H.
      apply and_then_returns in H. destruct H as [t1 [E1 H]].
      apply and_then_returns in H. destruct H as [t2 [E2 H]].
      apply and_then_returns in H. destruct H as [t3 [E3 H]].
      apply and_then_returns in H. destruct H as [t4 [E4 H]].
      apply and_then_returns in H. destruct H as [t5 [E5 H]].
      exists t1, t2, t3, t4, t5.
      rewrite (returns_result _ _ (indep_add _ _)), (returns_result _ _ (indep_sub _ _)),
        !(returns_result _ _ (indep_div _ _)), (returns_result _ _ (indep_log _)),
        (returns_result _ _ (indep_mul _ _)).
      auto 10.
    + intros [t1 [t2 [t3 [t4 [t5 [E1 [E2 [E3 [E4 [E5 E6]]]]]]]]]].
      apply (proj1 (returns_result _ _ (indep_add _ _))) in E1.
      apply (proj1 (returns_result _ _ (indep_sub _ _))) in E2.
      apply (proj1 (returns_result _ _ (indep_div _ _))) in E3.
      apply (proj1 (returns_result _ _ (indep_log _))) in E4.
      apply (proj1 (returns_result _ _ (indep_mul _ _))) in E5.
      apply (proj1 (returns_result _ _ (indep_div _ _))) in E6.
      rewrite E1. cbn [and_then]. rewrite E2. cbn [and_then].
      rewrite E3. cbn [and_then]. rewrite E4. cbn [and_then].
      rewrite E5. cbn [and_then]. exact E6.
Qed.

Lemma atan_errors_witness :
  (neg_zero =? 0) && (1 =? 1) = true
  /\ raises (atan (M := RefMath.engine) (mkComplex neg_zero 1)) DIV_BY_ZERO.
Proof.
  split; [reflexivity|].
  exact (proj2 (proj1 (atan_errors (M := RefMath.engine) (mkComplex neg_zero 1))) eq_refl).
Defined.

(** Whatever the engine, provided [Math.log(0)] is [-Infinity] and
    [Math.atan2(0, 0)] is a zero (as the language requires): [atan(-i)]
    throws "Invalid Param". *)
Lemma atan_minus_I_invalid {M : Math.lib} :
  Math.log 0 = neg_infinity -> (Math.atan2 0 0 =? 0) = true ->
  raises (atan (mkComplex 0 (-1))) INVALID_PARAM.
Proof.
  intros Hlog Hatan. apply (raises_result _ _ (indep_atan _)).
  rewrite atan_result.
  change (result (add I (this_arg (mkComplex 0 (-1))))) with (Normal (A := complex) (mkComplex 0 0)).
  cbn [and_then].
  change (result (sub I (this_arg (mkComplex 0 (-1))))) with (Normal (A := complex) (mkComplex 0 2)).
  cbn [and_then].
  change (result (div (mkComplex 0 0) (this_arg (mkComplex 0 2))))
    with (Normal (A := complex) (mkComplex 0 0)).
  cbn [and_then].
  unfold result at 1. rewrite log_run. cbn [re im].
  unfold logsq2. change (0 =? 0) with true. cbv iota.
  change (Math.abs 0) with 0. rewrite Hlog.
  unfold construct, JS.isNaN.
  rewrite (infinite_mul_zero neg_infinity (Math.atan2 0 0) eq_refl Hatan).
  reflexivity.
Qed.

(** C9 as stated fails: [-i] is not [i], and [atan(-i)] throws
    "Invalid Param" (the logarithm of zero is [-Infinity]). *)
Lemma atan_minus_I_throws :
  (0 =? 0) && (-1 =? 1) = false
  /\ raises (atan (M := RefMath.engine) (mkComplex 0 (-1))) INVALID_PARAM.
Proof.
  split; [reflexivity|].
  apply (atan_minus_I_invalid (M := RefMath.engine)); reflexivity.
Qed.

(** ** Powers (C4, C5) *)

Section Powers.

Context {M : Math.lib}.

Lemma yields_construct (c : Js complex) (u v : float) :
  yields c (construct u v) ->
  (JS.isNaN (u * v) = false -> returns c (mkComplex u v))
  /\ (JS.isNaN (u * v) = true -> raises c INVALID_PARAM).
Proof.
  intro H. split; intros N P; rewrite H; unfold construct; rewrite N; reflexivity.
Qed.

(** [pow] with a pure imaginary base and a real exponent. *)
Lemma pow_imaginary_run (x : complex) (a : args) (c d : float) (P : scratch) :
  operand a = Normal (c, d) ->
  (re x =? 0) = true -> (im x =? 0) = false -> (d =? 0) = true ->
  fst (pow x a P) =
  match pow_closed (JS.rem c 4) (Math.pow (im x) c) with
  | Some (u, v) => construct u v
  | None => construct (fst (pow_general x c d)) (snd (pow_general x c d))
  end.
Proof.
  intros O Zr Zi Zd. unfold pow. rewrite after_parse, O.
  rewrite Zr, Zi. cbn [andb].
  unfold bind, getP. cbn [P_re P_im].
  rewrite Zd. cbn [andb]. unfold pow_closed.
  destruct (JS.rem c 4 =? 0); [apply Complex_pair|].
  destruct (JS.rem c 4 =? 1); [apply Complex_pair|].
  destruct (JS.rem c 4 =? 2); [apply Complex_pair|].
  destruct (JS.rem c 4 =? 3); [apply Complex_pair|].
  apply Complex_pair.
Qed.

(** [pow] with a base on the non-negative real axis and a real exponent. *)
Lemma pow_real_run (x : complex) (a : args) (c d : float) (P : scratch) :
  operand a = Normal (c, d) ->
  (re x =? 0) = false -> (im x =? 0) = true -> (0 <=? re x) = true ->
  (d =? 0) = true ->
  fst (pow x a P) = construct (Math.pow (re x) c) 0.
Proof.
  intros O Zr Zi Nn Zd. unfold pow. rewrite after_parse, O.
  rewrite Zr, Zi. cbn [andb].
  unfold bind, getP. cbn [P_re P_im].
  rewrite Zd, Nn. cbn [andb]. apply Complex_pair.
Qed.

(** [pow] off both axes. *)
Lemma pow_general_run (x : complex) (a : args) (c d : float) (P : scratch) :
  operand a = Normal (c, d) ->
  (re x =? 0) = false -> (im x =? 0) = false ->
  fst (pow x a P) = construct (fst (pow_general x c d)) (snd (pow_general x c d)).
Proof.
  intros O Zr Zi. unfold pow. rewrite after_parse, O.
  rewrite Zr, Zi. cbn [andb].
  unfold bind, getP. cbn [P_re P_im].
  destruct (d =? 0); apply Complex_pair.
Qed.

End Powers.

(** The engine values that decide [(1,1)^2]. *)
Lemma pow_1_1_squared_on {M : Math.lib} :
  Math.log 2 = 0.69314718055994529 ->
  Math.atan2 1 1 = 0.78539816339744828 ->
  Math.exp 0.69314718055994529 = 2 ->
  Math.cos 1.5707963267948966 = 6.123233995736766e-17 ->
  Math.sin 1.5707963267948966 = 1 ->
  returns (pow (mkComplex 1 1) (ArgsPair 2 0)) (mkComplex 1.2246467991473532e-16 2).
Proof.
  intros Hlog Hatan Hexp Hcos Hsin P.
  rewrite (pow_general_run (mkComplex 1 1) (ArgsPair 2 0) 2 0 P eq_refl eq_refl eq_refl).
  unfold pow_general. cbn [re im].
  change (logsq2 1 1) with (Math.log 2 * 0.5).
  rewrite Hlog, Hatan.
  change (Math.exp _) with (Math.exp 0.69314718055994529).
  change (Math.cos _) with (Math.cos 1.5707963267948966).
  change (Math.sin _) with (Math.sin 1.5707963267948966).
  rewrite Hexp, Hcos, Hsin. reflexivity.
Qed.

(** The engine values that decide [i^(-1)]. *)
Lemma pow_I_minus_1_on {M : Math.lib} :
  Math.log 1 = 0 ->
  Math.atan2 1 0 = 1.5707963267948966 ->
  Math.exp (-0) = 1 ->
  Math.cos (-1.5707963267948966) = 6.123233995736766e-17 ->
  Math.sin (-1.5707963267948966) = -1 ->
  returns (pow (mkComplex 0 1) (ArgsPair (-1) 0)) (mkComplex 6.123233995736766e-17 (-1)).
Proof.
  intros Hlog Hatan Hexp Hcos Hsin P.
  rewrite (pow_imaginary_run (mkComplex 0 1) (ArgsPair (-1) 0) (-1) 0 P
             eq_refl eq_refl eq_refl eq_refl).
  change (pow_closed (JS.rem (-1) 4) (Math.pow (im (mkComplex 0 1)) (-1)))
    with (@None (float * float)).
  unfold pow_general. cbn [re im fst snd].
  change (logsq2 0 1) with (Math.log 1).
  rewrite Hlog, Hatan.
  change (Math.exp _) with (Math.exp (-0)).
  change (Math.cos _) with (Math.cos (-1.5707963267948966)).
  change (Math.sin _) with (Math.sin (-1.5707963267948966)).
  rewrite Hexp, Hcos, Hsin. reflexivity.
Qed.

Lemma pow_closed_has_zero_field (k p u v : float) :
  pow_closed k p = Some (u, v) -> (u =? 0) || (v =? 0) = true.
Proof.
  unfold pow_closed.
  destruct (k =? 0); [|destruct (k =? 1); [|destruct (k =? 2); [|destruct (k =? 3)]]];
    intro H; inversion H; try reflexivity; apply orb_true_r.
Qed.

(** Below zero the remainder keeps the sign of the exponent: [-1 % 4] is
    [-1], none of the four indices, and [i^(-1)] comes from the general
    path with a real part that is not zero, where each closed form has a
    zero field. *)
Lemma pow_negative_exponent_general :
  returns (Complex (M := RefMath.engine) (ArgsPair (-1) 0)) (mkComplex (-1) 0)
  /\ JS.rem (-1) 4 = -1
  /\ returns (pow (M := RefMath.engine) (mkComplex 0 1) (ArgsPair (-1) 0))
       (mkComplex 6.123233995736766e-17 (-1))
  /\ (6.123233995736766e-17 =? 0) || (-1 =? 0) = false
  /\ (forall k p, pow_closed k p <> Some (6.123233995736766e-17, -1)).
Proof.
  split; [|split; [|split; [|split]]]; try reflexivity.
  - intro P. rewrite Complex_pair. reflexivity.
  - apply (pow_I_minus_1_on (M := RefMath.engine)); vm_compute; reflexivity.
  - intros k p H. apply pow_closed_has_zero_field in H. discriminate H.
Qed.

(** C5, as amended. Squaring by [pow] agrees with [mul] within [EPSILON]
    for [(5,0)] and [(0,5)], which take the closed forms (given that
    [Math.pow(5, 2)] is 25). For [(3,4)], [(-3,4)] and [(1,1)], which take
    the general path, a correctly rounded [Math] gives agreement within
    [1e-14] in each component, and not within [EPSILON]. *)
Theorem pow_square_cases :
  (forall M : Math.lib, Math.pow 5 2 = 25 ->
     (returns (pow (mkComplex 5 0) (ArgsPair 2 0)) (mkComplex 25 0)
      /\ returns (mul (mkComplex 5 0) (this_arg (mkComplex 5 0))) (mkComplex 25 0)
      /\ returns (equals (mkComplex 25 0) (this_arg (mkComplex 25 0))) true)
     /\ (returns (pow (mkComplex 0 5) (ArgsPair 2 0)) (mkComplex (-25) 0)
         /\ returns (mul (mkComplex 0 5) (this_arg (mkComplex 0 5))) (mkComplex (-25) 0)
         /\ returns (equals (mkComplex (-25) 0) (this_arg (mkComplex (-25) 0))) true))
  /\ (returns (pow (M := RefMath.engine) (mkComplex 3 4) (ArgsPair 2 0))
        (mkComplex (-6.9999999999999973) 24)
      /\ returns (mul (M := RefMath.engine) (mkComplex 3 4) (this_arg (mkComplex 3 4)))
           (mkComplex (-7) 24)
      /\ within 1e-14 (mkComplex (-6.9999999999999973) 24) (mkComplex (-7) 24) = true
      /\ returns (equals (M := RefMath.engine) (mkComplex (-6.9999999999999973) 24)
                    (this_arg (mkComplex (-7) 24))) false)
  /\ (returns (pow (M := RefMath.engine) (mkComplex (-3) 4) (ArgsPair 2 0))
        (mkComplex (-7.000000000000008) (-23.999999999999993))
      /\ returns (mul (M := RefMath.engine) (mkComplex (-3) 4) (this_arg (mkComplex (-3) 4)))
           (mkComplex (-7) (-24))
      /\ within 1e-14 (mkComplex (-7.000000000000008) (-23.999999999999993))
           (mkComplex (-7) (-24)) = true
      /\ returns (equals (M := RefMath.engine)
                    (mkComplex (-7.000000000000008) (-23.999999999999993))
                    (this_arg (mkComplex (-7) (-24)))) false)
  /\ (returns (pow (M := RefMath.engine) (mkComplex 1 1) (ArgsPair 2 0))
        (mkComplex 1.2246467991473532e-16 2)
      /\ within 1e-14 (mkComplex 1.2246467991473532e-16 2) (mkComplex 0 2) = true
      /\ returns (equals (M := RefMath.engine) (mkComplex 1.2246467991473532e-16 2)
                    (ArgsPair 0 2)) false).
Proof.
  split; [|split; [|split]].
  - intros M H. split; (split; [|split]).
    + intro P.
      rewrite (pow_real_run (mkComplex 5 0) (ArgsPair 2 0) 2 0 P
                 eq_refl eq_refl eq_refl eq_refl eq_refl).
      cbn [re]. rewrite H. reflexivity.
    + intro P. rewrite mul_run. reflexivity.
    + intro P. rewrite equals_run. reflexivity.
    + intro P.
      rewrite (pow_imaginary_run (mkComplex 0 5) (ArgsPair 2 0) 2 0 P
                 eq_refl eq_refl eq_refl eq_refl).
      cbn [im]. rewrite H. reflexivity.
    + intro P. rewrite mul_run. reflexivity.
    + intro P. rewrite equals_run. reflexivity.
  - split; [|split; [|split]]; try reflexivity.
    + intro P.
      rewrite (pow_general_run (M := RefMath.engine) (mkComplex 3 4) (ArgsPair 2 0) 2 0 P
                 eq_refl eq_refl eq_refl).
      vm_compute. reflexivity.
    + intro P. rewrite mul_run. reflexivity.
    + intro P. rewrite equals_run. reflexivity.
  - split; [|split; [|split]]; try reflexivity.
    + intro P.
      rewrite (pow_general_run (M := RefMath.engine) (mkComplex (-3) 4) (ArgsPair 2 0) 2 0 P
                 eq_refl eq_refl eq_refl).
      vm_compute. reflexivity.
    + intro P. rewrite mul_run. reflexivity.
    + intro P. rewrite equals_run. reflexivity.
  - split; [|split]; try reflexivity.
    + intro P.
      rewrite (pow_general_run (M := RefMath.engine) (mkComplex 1 1) (ArgsPair 2 0) 2 0 P
                 eq_refl eq_refl eq_refl).
      vm_compute. reflexivity.
    + intro P. rewrite equals_run. reflexivity.
Qed.

Lemma pow_square_cases_witness :
  Math.pow (lib := RefMath.engine) 5 2 = 25
  /\ returns (pow (M := RefMath.engine) (mkComplex 5 0) (ArgsPair 2 0)) (mkComplex 25 0).
Proof.
  split; [reflexivity|].
  exact (proj1 (proj1 (proj1 pow_square_cases RefMath.engine eq_refl))).
Defined.

(** C5 as stated fails: [(1,1)] squared by [pow] has the real part
    [1.2246467991473532e-16] (the cosine of the double nearest to π/2,
    doubled), and [equals] tells it from [(0,2)]. *)
Lemma pow_1_1_squared_not_equal :
  returns (pow (M := RefMath.engine) (mkComplex 1 1) (ArgsPair 2 0))
    (mkComplex 1.2246467991473532e-16 2)
  /\ returns (equals (M := RefMath.engine) (mkComplex 1.2246467991473532e-16 2)
                (ArgsPair 0 2)) false
  /\ returns (equals (M := RefMath.engine) (mkComplex 0 2)
                (this_arg (mkComplex 1.2246467991473532e-16 2))) false.
Proof.
  split; [|split].
  - apply (pow_1_1_squared_on (M := RefMath.engine)); vm_compute; reflexivity.
  - intro P. rewrite equals_run. reflexivity.
  - intro P. rewrite equals_run. reflexivity.
Qed.

(** ** More binary64 facts *)

Lemma finite_Prim2SF (x : float) :
  is_finite x = true ->
  (exists s, Prim2SF x = S754_zero s) \/ (exists s m e, Prim2SF x = S754_finite s m e).
Proof.
  unfold is_finite, is_infinite, Math.abs, is_nan.
  rewrite !FloatAxioms.eqb_spec, FloatAxioms.abs_spec.
  change (Prim2SF infinity) with (S754_infinity false).
  destruct (Prim2SF x) as [s|s| |s m e]; cbn; intro H; try discriminate H.
  - left. exists s. reflexivity.
  - destruct s; discriminate H.
  - right. exists s, m, e. reflexivity.
Qed.

Lemma SF64add_comm (x y : spec_float) : SF64add x y = SF64add y x.
Proof.
  destruct x as [sx|sx| |sx mx ex], y as [sy|sy| |sy my ey]; try reflexivity;
    try (destruct sx, sy; reflexivity).
  unfold SF64add, SFadd. rewrite Z.min_comm, Z.add_comm. reflexivity.
Qed.

Lemma add_comm (x y : float) : x + y = y + x.
Proof. apply Prim2SF_inj. rewrite !FloatAxioms.add_spec. apply SF64add_comm. Qed.

Lemma sub_self (x : float) : is_finite x = true -> x - x = 0.
Proof.
  intro F. apply Prim2SF_inj. rewrite FloatAxioms.sub_spec.
  change (Prim2SF 0) with (S754_zero false).
  destruct (finite_Prim2SF x F) as [[s ->]|[s [m [e ->]]]].
  - destruct s; reflexivity.
  - unfold SF64sub, SFsub. rewrite Z.sub_diag. reflexivity.
Qed.

Lemma add_opp_self (x : float) : is_finite x = true -> x + - x = 0.
Proof.
  intro F. apply Prim2SF_inj. rewrite FloatAxioms.add_spec, FloatAxioms.opp_spec.
  change (Prim2SF 0) with (S754_zero false).
  destruct (finite_Prim2SF x F) as [[s ->]|[s [m [e ->]]]].
  - destruct s; reflexivity.
  - unfold SF64add, SFadd. cbn [SFopp].
    destruct s; cbn [negb cond_Zopp]; rewrite ?Z.add_opp_diag_l, ?Z.add_opp_diag_r;
      reflexivity.
Qed.

Lemma binary_round_aux_not_nan (sx : bool) (mx ex : Z) (lx : location) :
  (0 <= mx)%Z -> binary_round_aux prec emax sx mx ex lx <> S754_nan.
Proof.
  intro Hm. unfold binary_round_aux.
  assert (S : forall m e l, (0 <= m)%Z ->
              (0 <= shr_m (fst (shr_fexp prec emax m e l)))%Z).
  { intros m e l H. unfold shr_fexp, shr.
    destruct (fexp prec emax (Zdigits2 m + e) - e)%Z as [|n|n]; cbn [fst];
      try (rewrite shr_m_of_loc; exact H).
    apply shr_nonneg. rewrite shr_m_of_loc. exact H. }
  pose proof (S mx ex lx Hm) as H1.
  destruct (shr_fexp prec emax mx ex lx) as [mrs' e']. cbn [fst] in H1.
  assert (R : (0 <= round_nearest_even (shr_m mrs') (loc_of_shr_record mrs'))%Z).
  { destruct (loc_of_shr_record mrs') as [|c]; [exact H1|].
    destruct c; cbn; try destruct (Z.even (shr_m mrs')); lia. }
  pose proof (S _ e' loc_Exact R) as H2.
  destruct (shr_fexp prec emax _ e' loc_Exact) as [mrs'' e'']. cbn [fst] in H2.
  destruct (shr_m mrs'') as [|p|p]; try lia; try discriminate.
  destruct (e'' <=? emax - prec)%Z; discriminate.
Qed.

Lemma mul_finite_not_nan (x y : float) :
  is_finite x = true -> is_finite y = true -> is_nan (x * y) = false.
Proof.
  intros Fx Fy. destruct (is_nan (x * y)) eqn:N; [exfalso|reflexivity].
  apply is_nan_Prim2SF in N. rewrite FloatAxioms.mul_spec in N.
  destruct (finite_Prim2SF x Fx) as [[sx Ex]|[sx [mx [ex Ex]]]];
    destruct (finite_Prim2SF y Fy) as [[sy Ey]|[sy [my [ey Ey]]]];
    rewrite Ex, Ey in N; try discriminate N.
  unfold SF64mul, SFmul in N.
  apply binary_round_aux_not_nan in N; [exact N|lia].
Qed.

Lemma opp_finite (x : float) : is_finite x = true -> is_finite (- x) = true.
Proof.
  unfold is_finite, is_infinite, Math.abs, is_nan.
  rewrite !FloatAxioms.eqb_spec, !FloatAxioms.abs_spec, !FloatAxioms.opp_spec.
  destruct (Prim2SF x) as [s|s| |s m e]; cbn; intro H; try discriminate H;
    try reflexivity; try (destruct s; discriminate H).
  unfold SFeqb, SFcompare in *.
  rewrite Z.compare_refl, Pos.compare_cont_refl in *. destruct s; exact H.
Qed.

Lemma SFcompare_antisym (x y : spec_float) :
  SFcompare y x = option_map CompOpp (SFcompare x y).
Proof.
  destruct x as [sx|sx| |sx mx ex], y as [sy|sy| |sy my ey]; try reflexivity;
    try (destruct sx; reflexivity); try (destruct sy; reflexivity);
    try (destruct sx, sy; reflexivity).
  cbn [SFcompare option_map].
  rewrite (Z.compare_antisym ex ey).
  replace (Pos.compare_cont Eq my mx) with (CompOpp (Pos.compare_cont Eq mx my))
    by apply (Pos.compare_cont_antisym mx my Eq).
  destruct sx, sy; try reflexivity;
    destruct (ex ?= ey)%Z; cbn [CompOpp]; try reflexivity;
    destruct (Pos.compare_cont Eq mx my); reflexivity.
Qed.

Lemma ltb_trichotomy (a b : float) :
  (a <? b) = false -> (b <? a) = false ->
  (a =? b) = true \/ a = nan \/ b = nan.
Proof.
  rewrite !FloatAxioms.ltb_spec, FloatAxioms.eqb_spec.
  unfold SFltb, SFeqb. rewrite (SFcompare_antisym (Prim2SF a) (Prim2SF b)).
  destruct (SFcompare (Prim2SF a) (Prim2SF b)) as [[| |]|] eqn:C; cbn;
    intros H1 H2; try discriminate; [left; reflexivity|].
  right. destruct (Prim2SF a) as [sa|sa| |sa ma ea] eqn:Ea.
  4:{ destruct (Prim2SF b) as [sb|sb| |sb mb eb] eqn:Eb; try discriminate C.
      right. apply Prim2SF_inj. rewrite Eb. reflexivity. }
  3:{ left. apply Prim2SF_inj. rewrite Ea. reflexivity. }
  all: destruct (Prim2SF b) as [sb|sb| |sb mb eb] eqn:Eb; try discriminate C;
    right; apply Prim2SF_inj; rewrite Eb; reflexivity.
Qed.

Lemma ltb_asym (a b : float) : (a <? b) = true -> (b <? a) = false.
Proof.
  rewrite !FloatAxioms.ltb_spec. unfold SFltb.
  rewrite (SFcompare_antisym (Prim2SF a) (Prim2SF b)).
  destruct (SFcompare (Prim2SF a) (Prim2SF b)) as [[| |]|]; cbn; intro H;
    try discriminate H; reflexivity.
Qed.

Lemma abs_eqb_eq (r i : float) :
  (Math.abs r =? Math.abs i) = true -> Math.abs r = Math.abs i.
Proof.
  unfold Math.abs. rewrite FloatAxioms.eqb_spec, !FloatAxioms.abs_spec. intro H.
  apply Prim2SF_inj. rewrite !FloatAxioms.abs_spec.
  destruct (Prim2SF r) as [sr|sr| |sr mr er], (Prim2SF i) as [si|si| |si mi ei];
    try discriminate H; try reflexivity.
  unfold SFeqb in H. cbn [SFabs SFcompare] in H.
  destruct (er ?= ei)%Z eqn:Ce; try discriminate H.
  apply Z.compare_eq in Ce. subst ei.
  destruct (Pos.compare_cont Eq mr mi) eqn:Cm; try discriminate H.
  apply (Pos.compare_eq mr) in Cm. subst mi. reflexivity.
Qed.

Lemma abs_symmetric (r i : float) : abs (mkComplex r i) = abs (mkComplex i r).
Proof.
  unfold abs. cbn [re im].
  rewrite (andb_comm (Math.abs i <? 1000)), (add_comm (Math.abs i * Math.abs i)).
  destruct ((Math.abs r <? 1000) && (Math.abs i <? 1000)); [reflexivity|].
  destruct (Math.abs r <? Math.abs i) eqn:L1.
  - rewrite (ltb_asym _ _ L1). reflexivity.
  - destruct (Math.abs i <? Math.abs r) eqn:L2; [reflexivity|].
    destruct (ltb_trichotomy _ _ L1 L2) as [E|[N|N]].
    + rewrite (abs_eqb_eq r i E), (div_tie r i E). reflexivity.
    + apply (f_equal is_nan) in N. apply abs_is_nan in N. subst r.
      rewrite div_nan_r, div_nan_l.
      change (Math.abs nan) with nan.
      change (Math.sqrt (1 + nan * nan)) with nan.
      rewrite mul_nan_l, mul_nan_r. reflexivity.
    + apply (f_equal is_nan) in N. apply abs_is_nan in N. subst i.
      rewrite div_nan_r, div_nan_l.
      change (Math.abs nan) with nan.
      change (Math.sqrt (1 + nan * nan)) with nan.
      rewrite mul_nan_l, mul_nan_r. reflexivity.
Qed.

Lemma abs_opp (x : float) : Math.abs (- x) = Math.abs x.
Proof.
  unfold Math.abs. apply Prim2SF_inj.
  rewrite !FloatAxioms.abs_spec, FloatAxioms.opp_spec.
  destruct (Prim2SF x); reflexivity.
Qed.

Lemma binary_round_aux_opp (s : bool) (m e : Z) (l : location) :
  binary_round_aux prec emax (negb s) m e l = SFopp (binary_round_aux prec emax s m e l).
Proof.
  unfold binary_round_aux.
  destruct (shr_fexp prec emax m e l) as [mrs' e'].
  destruct (shr_fexp prec emax _ e' loc_Exact) as [mrs'' e''].
  destruct (shr_m mrs''); try reflexivity.
  destruct (e'' <=? emax - prec)%Z; reflexivity.
Qed.

Lemma div_opp_r (x y : float) : x / - y = - (x / y).
Proof.
  apply Prim2SF_inj.
  rewrite FloatAxioms.div_spec, !FloatAxioms.opp_spec, FloatAxioms.div_spec.
  destruct (Prim2SF x) as [sx|sx| |sx mx ex], (Prim2SF y) as [sy|sy| |sy my ey];
    try reflexivity; cbn [SFopp SF64div SFdiv];
    try (destruct sx, sy; reflexivity).
  destruct (SFdiv_core_binary prec emax (Z.pos mx) ex (Z.pos my) ey) as [[mz ez] lz].
  rewrite <- binary_round_aux_opp. destruct sx, sy; reflexivity.
Qed.

Lemma div_opp_l (x y : float) : - x / y = - (x / y).
Proof.
  apply Prim2SF_inj.
  rewrite FloatAxioms.div_spec, !FloatAxioms.opp_spec, FloatAxioms.div_spec.
  destruct (Prim2SF x) as [sx|sx| |sx mx ex], (Prim2SF y) as [sy|sy| |sy my ey];
    try reflexivity; cbn [SFopp SF64div SFdiv];
    try (destruct sx, sy; reflexivity).
  destruct (SFdiv_core_binary prec emax (Z.pos mx) ex (Z.pos my) ey) as [[mz ez] lz].
  rewrite <- binary_round_aux_opp. destruct sx, sy; reflexivity.
Qed.

Lemma opp_mul_opp (x : float) : - x * - x = x * x.
Proof.
  apply Prim2SF_inj. rewrite !FloatAxioms.mul_spec, FloatAxioms.opp_spec.
  destruct (Prim2SF x) as [s|s| |s m e]; try reflexivity; cbn [SFopp SF64mul SFmul];
    destruct s; reflexivity.
Qed.

Lemma abs_conjugate (r i : float) : abs (mkComplex r (- i)) = abs (mkComplex r i).
Proof.
  unfold abs. cbn [re im]. rewrite abs_opp.
  destruct ((Math.abs r <? 1000) && (Math.abs i <? 1000)); [reflexivity|].
  destruct (Math.abs r <? Math.abs i).
  - rewrite div_opp_r, opp_mul_opp. reflexivity.
  - rewrite div_opp_l, opp_mul_opp. reflexivity.
Qed.

(** ** Further properties of the code *)

(** X1. The magnitude is symmetric in its two fields and blind to
    conjugation, for every pair of doubles. *)
Theorem abs_symmetries {M : Math.lib} (x : complex) :
  abs (mkComplex (im x) (re x)) = abs x
  /\ (forall c, returns (conjugate x) c -> abs c = abs x).
Proof.
  destruct x as [r i]. cbn [re im]. split.
  - apply abs_symmetric.
  - intros c H. specialize (H (mkScratch 0 0)). unfold conjugate in H.
    rewrite Complex_pair in H. apply construct_valid in H. destruct H as [-> _].
    apply abs_conjugate.
Qed.

Lemma abs_symmetries_witness :
  returns (conjugate (M := RefMath.engine) (mkComplex 3000 4)) (mkComplex 3000 (-4))
  /\ abs (mkComplex 3000 (-4)) = abs (mkComplex 3000 4).
Proof.
  assert (H : returns (conjugate (M := RefMath.engine) (mkComplex 3000 4))
                (mkComplex 3000 (-4))).
  { intro P. unfold conjugate. rewrite Complex_pair. reflexivity. }
  split; [exact H|].
  exact (proj2 (abs_symmetries (M := RefMath.engine) (mkComplex 3000 4)) _ H).
Defined.

(** X2. A value with finite fields plus its negation is [ZERO]. *)
Theorem add_neg_is_zero {M : Math.lib} (x : complex) :
  is_finite (re x) = true -> is_finite (im x) = true ->
  returns (neg x) (mkComplex (- re x) (- im x))
  /\ returns (add x (this_arg (mkComplex (- re x) (- im x)))) ZERO.
Proof.
  intros Fr Fi.
  assert (V : JS.isNaN (- re x * - im x) = false).
  { apply mul_finite_not_nan; apply opp_finite; assumption. }
  split; intro P.
  - unfold neg. rewrite Complex_pair. unfold construct. rewrite V. reflexivity.
  - rewrite add_run, operand_this. cbn [re im]. rewrite V. cbn [and_then fst snd].
    rewrite (add_opp_self _ Fr), (add_opp_self _ Fi). reflexivity.
Qed.

Lemma add_neg_is_zero_witness :
  is_finite 3 = true /\ is_finite (-4.5) = true
  /\ returns (add (M := RefMath.engine) (mkComplex 3 (-4.5))
                (this_arg (mkComplex (- (3)) (- (-4.5))))) ZERO.
Proof.
  split; [reflexivity|]. split; [reflexivity|].
  exact (proj2 (add_neg_is_zero (M := RefMath.engine) (mkComplex 3 (-4.5)) eq_refl eq_refl)).
Defined.

(** X3. [equals] is reflexive on values with finite fields, and only there: an
    infinite field differs from itself. A shift of [1e-17] is inside
    [EPSILON], one of [1e-10] is not. *)
Theorem equals_reflexive_finite {M : Math.lib} (x : complex) :
  (is_finite (re x) = true -> is_finite (im x) = true ->
   returns (equals x (this_arg x)) true)
  /\ returns (equals (mkComplex infinity 5) (this_arg (mkComplex infinity 5))) false
  /\ returns (add (mkComplex 0 1) (ArgsPair 1e-17 0)) (mkComplex 1e-17 1)
  /\ returns (equals (mkComplex 0 1) (this_arg (mkComplex 1e-17 1))) true
  /\ returns (add (mkComplex 0 1) (ArgsPair 1e-10 0)) (mkComplex 1e-10 1)
  /\ returns (equals (mkComplex 0 1) (this_arg (mkComplex 1e-10 1))) false.
Proof.
  split; [|repeat split; intro P; rewrite ?equals_run, ?add_run; reflexivity].
  intros Fr Fi P. rewrite equals_run, operand_this.
  unfold JS.isNaN. rewrite (mul_finite_not_nan _ _ Fr Fi).
  rewrite (sub_self _ Fr), (sub_self _ Fi). reflexivity.
Qed.

Lemma equals_reflexive_finite_witness :
  is_finite 1e308 = true /\ is_finite (-2.5) = true
  /\ returns (equals (M := RefMath.engine) (mkComplex 1e308 (-2.5))
                (this_arg (mkComplex 1e308 (-2.5)))) true.
Proof.
  split; [reflexivity|]. split; [reflexivity|].
  exact (proj1 (equals_reflexive_finite (M := RefMath.engine) (mkComplex 1e308 (-2.5)))
           eq_refl eq_refl).
Defined.

(** X4. A zero base gives [(0, 0)] whatever exponent [parse] accepts. *)
Theorem pow_zero_base {M : Math.lib} (x : complex) (a : args) (y : complex) :
  returns (Complex a) y -> (re x =? 0) = true -> (im x =? 0) = true ->
  returns (pow x a) (mkComplex 0 0).
Proof.
  intros Hy Zr Zi P. apply returns_operand in Hy.
  unfold pow. rewrite after_parse, Hy, Zr, Zi. cbn [andb].
  rewrite Complex_pair. reflexivity.
Qed.

Lemma pow_zero_base_witness :
  returns (Complex (M := RefMath.engine) (ArgsPair 5 0)) (mkComplex 5 0)
  /\ (0 =? 0) = true
  /\ returns (pow (M := RefMath.engine) ZERO (ArgsPair 5 0)) ZERO.
Proof.
  assert (H : returns (Complex (M := RefMath.engine) (ArgsPair 5 0)) (mkComplex 5 0)).
  { intro P. rewrite Complex_pair. reflexivity. }
  split; [exact H|]. split; [reflexivity|].
  exact (pow_zero_base (M := RefMath.engine) ZERO (ArgsPair 5 0) (mkComplex 5 0) H
           eq_refl eq_refl).
Defined.

(** The reference engine at a few arguments whose values are known:
    [e], [ln 2], [π] and [π/4], the cosine of the double nearest to [π/2],
    exact powers and the cosine of [1e22]. *)
Lemma reference_engine_known_values :
  RefMath.exp 1 = 2.7182818284590451
  /\ RefMath.log 2 = 0.69314718055994529
  /\ RefMath.atan2 0 (-1) = 3.1415926535897931
  /\ RefMath.atan2 1 1 = 0.78539816339744828
  /\ RefMath.cos 1.5707963267948966 = 6.123233995736766e-17
  /\ RefMath.sin 1.5707963267948966 = 1
  /\ RefMath.pow 5 2 = 25
  /\ RefMath.pow 2 (-1074) = 4.9406564584124654e-324
  /\ RefMath.pow 10 23 = 1e23
  /\ RefMath.cos 1e22 = 0.52321478539513899
  /\ RefMath.log 0 = neg_infinity
  /\ RefMath.atan2 0 0 = 0.
Proof. repeat split; vm_compute; reflexivity. Qed.

(** ** The scratch object between calls *)

Section Scratch.

Context {M : Math.lib}.

Lemma indep_after_parse {A} (a : args) (c : Js A) : indep (bind (parse a) (fun _ => c)).
Proof. eapply indep_of_run. intro P. apply after_parse. Qed.

Lemma indep_Complex (a : args) : indep (Complex a).
Proof. eapply indep_of_run. apply Complex_operand. Qed.

Lemma indep_throw {A} (msg : string) : indep (throw (A := A) msg).
Proof. intros P Q. reflexivity. Qed.

Ltac indep_step :=
  match goal with
  | |- indep (Complex _) => apply indep_Complex
  | |- indep (add _ _) => apply indep_add
  | |- indep (mul _ _) => apply indep_mul
  | |- indep (log _) => apply indep_log
  | |- indep (neg _) => apply indep_Complex
  | |- indep (sqrt _) => apply indep_Complex
  | |- indep (bind _ _) => apply indep_bind; [|intro]
  end.

Lemma indep_asin (z : complex) : indep (asin z).
Proof. unfold asin. repeat indep_step. Qed.

Lemma indep_acos (z : complex) : indep (acos z).
Proof. unfold acos. repeat indep_step. Qed.

Lemma indep_inverse (z : complex) : indep (inverse z).
Proof. eapply indep_of_run. apply inverse_run. Qed.

Lemma indep_equals (x : complex) (a : args) : indep (equals x a).
Proof. eapply indep_of_run. apply equals_run. Qed.

Lemma run_indep (c : call) : indep (run c).
Proof.
  destruct c; cbn [run];
    first [ apply indep_Complex | apply indep_after_parse | apply indep_atan
          | apply indep_asin | apply indep_acos | apply indep_inverse ].
Qed.

End Scratch.

(** X6. No call reads the scratch object [P] before [parse] has written
    it: what a call returns or throws does not depend on what earlier
    calls left there. *)
Theorem calls_ignore_scratch {M : Math.lib} :
  (forall c, indep (run c)) /\ (forall x a, indep (equals x a)).
Proof. split; [apply run_indep|apply indep_equals]. Qed.

Section Errors.

Context {M : Math.lib}.

(** The only string a call throws is "Invalid Param". *)
Lemma Complex_throws (a : args) (P : scratch) (msg : string) :
  fst (Complex a P) = Throw msg -> msg = INVALID_PARAM.
Proof.
  rewrite Complex_operand. destruct (operand a) as [[r i]|m] eqn:O; intro H.
  - discriminate H.
  - inversion H. subst m. exact (operand_throws _ _ O).
Qed.

Lemma bind_throws {A B} (c : Js A) (k : A -> Js B) (P : scratch) (msg : string) :
  fst (bind c k P) = Throw msg ->
  fst (c P) = Throw msg \/ exists a Q, fst (k a Q) = Throw msg.
Proof.
  unfold bind. destruct (c P) as [[a|m] Q]; intro H.
  - right. exists a, Q. exact H.
  - left. inversion H. reflexivity.
Qed.

Lemma parse_throws (a : args) (P : scratch) (msg : string) :
  fst (parse a P) = Throw msg -> msg = INVALID_PARAM.
Proof.
  rewrite parse_run. destruct (staged a) as [[r i]|]; cbn [fst].
  - destruct (JS.isNaN (r * i)); intro H; inversion H. reflexivity.
  - intro H. inversion H. reflexivity.
Qed.

Lemma after_parse_throws {A} (a : args) (c : Js A) (P : scratch) (msg : string) :
  (forall Q, fst (c Q) = Throw msg -> msg = INVALID_PARAM) ->
  fst (bind (parse a) (fun _ => c) P) = Throw msg -> msg = INVALID_PARAM.
Proof.
  intros Hc H. apply bind_throws in H. destruct H as [H|[_ [Q H]]].
  - exact (parse_throws _ _ _ H).
  - exact (Hc Q H).
Qed.

Lemma pow_throws (x : complex) (a : args) (P : scratch) (msg : string) :
  fst (pow x a P) = Throw msg -> msg = INVALID_PARAM.
Proof.
  unfold pow. apply after_parse_throws. intro Q.
  destruct ((re x =? 0) && (im x =? 0)); [apply Complex_throws|].
  unfold bind, getP.
  repeat match goal with
         | |- context [if ?b then _ else _] => destruct b
         end; apply Complex_throws.
Qed.

Ltac throws_step :=
  match goal with
  | H : fst (bind _ _ _) = Throw _ |- _ =>
      apply bind_throws in H; destruct H as [H|[? [? H]]]
  | H : fst (mul _ _ ?P) = Throw _ |- _ =>
      rewrite (indep_mul _ _ P (mkScratch 0 0)) in H; exact (mul_throws _ _ _ H)
  | H : fst (add _ _ ?P) = Throw _ |- _ =>
      rewrite (indep_add _ _ P (mkScratch 0 0)) in H; exact (add_throws _ _ _ H)
  | H : fst (log _ ?P) = Throw _ |- _ =>
      rewrite (indep_log _ P (mkScratch 0 0)) in H; exact (log_throws _ _ H)
  | H : fst (neg _ _) = Throw _ |- _ => exact (Complex_throws _ _ _ H)
  | H : fst (sqrt _ _) = Throw _ |- _ => exact (Complex_throws _ _ _ H)
  end.

Lemma asin_throws (z : complex) (P : scratch) (msg : string) :
  fst (asin z P) = Throw msg -> msg = INVALID_PARAM.
Proof. unfold asin. intro H. repeat throws_step. Qed.

Lemma acos_throws (z : complex) (P : scratch) (msg : string) :
  fst (acos z P) = Throw msg -> msg = INVALID_PARAM.
Proof. unfold acos. intro H. repeat throws_step. Qed.

End Errors.

(** X7. A call of the library throws nothing but "Invalid Param" and
    "DIV/0", and "DIV/0" comes from [div], [inverse] and [atan] only: the
    other calls, [pow], [tan], [tanh], [sign], [asin] and [acos] among
    them, never throw it. *)
Theorem run_errors {M : Math.lib} (c : call) (P : scratch) (msg : string) :
  fst (run c P) = Throw msg ->
  msg = INVALID_PARAM \/ (msg = DIV_BY_ZERO /\ may_divide c = true).
Proof.
  destruct c; cbn [run may_divide]; intro H;
    try (left; exact (Complex_throws _ _ _ H)).
  - left. rewrite (indep_add _ _ P (mkScratch 0 0)) in H. exact (add_throws _ _ _ H).
  - left. rewrite (indep_sub _ _ P (mkScratch 0 0)) in H. exact (sub_throws _ _ _ H).
  - left. rewrite (indep_mul _ _ P (mkScratch 0 0)) in H. exact (mul_throws _ _ _ H).
  - rewrite (indep_div _ _ P (mkScratch 0 0)) in H. apply div_throws in H.
    destruct H as [H|[H _]]; auto.
  - left. exact (pow_throws _ _ _ _ H).
  - left. exact (asin_throws _ _ _ H).
  - left. exact (acos_throws _ _ _ H).
  - rewrite (indep_atan _ P (mkScratch 0 0)) in H. apply atan_throws in H.
    destruct H as [H|H]; auto.
  - rewrite inverse_run in H. cbv zeta in H.
    destruct (_ =? 0); [inversion H; auto|left; exact (construct_throws _ _ _ H)].
Qed.

Lemma run_errors_witness :
  fst (run (M := RefMath.engine) (CallInverse ZERO) (mkScratch 0 0)) = Throw DIV_BY_ZERO
  /\ (DIV_BY_ZERO = INVALID_PARAM
      \/ (DIV_BY_ZERO = DIV_BY_ZERO /\ may_divide (CallInverse ZERO) = true)).
Proof.
  split; [reflexivity|].
  exact (run_errors (M := RefMath.engine) (CallInverse ZERO) (mkScratch 0 0) DIV_BY_ZERO
           eq_refl).
Defined.

(** ** Signs, negation and zero *)

Lemma is_nan_false_Prim2SF (x : float) : is_nan x = false <-> Prim2SF x <> S754_nan.
Proof.
  rewrite <- is_nan_Prim2SF. destruct (is_nan x); split; congruence.
Qed.

Lemma opp_involutive (x : float) : - - x = x.
Proof.
  apply Prim2SF_inj. rewrite !FloatAxioms.opp_spec.
  destruct (Prim2SF x) as [s|s| |s m e]; cbn [SFopp]; rewrite ?negb_involutive; reflexivity.
Qed.

Lemma mul_opp_r (x y : float) : x * - y = - (x * y).
Proof.
  apply Prim2SF_inj.
  rewrite FloatAxioms.mul_spec, !FloatAxioms.opp_spec, FloatAxioms.mul_spec.
  destruct (Prim2SF x) as [sx|sx| |sx mx ex], (Prim2SF y) as [sy|sy| |sy my ey];
    try reflexivity; cbn [SFopp SF64mul SFmul];
    try (destruct sx, sy; reflexivity).
  rewrite <- binary_round_aux_opp. destruct sx, sy; reflexivity.
Qed.

Lemma mul_opp_l (x y : float) : - x * y = - (x * y).
Proof. rewrite (mul_comm (- x)), mul_opp_r, (mul_comm y). reflexivity. Qed.

Lemma mul_opp_opp (x y : float) : - x * - y = x * y.
Proof. rewrite mul_opp_l, mul_opp_r, opp_involutive. reflexivity. Qed.

Lemma is_nan_opp (x : float) : is_nan (- x) = is_nan x.
Proof.
  destruct (is_nan x) eqn:N.
  - apply is_nan_eq in N. subst x. reflexivity.
  - apply is_nan_false_Prim2SF. apply is_nan_false_Prim2SF in N.
    rewrite FloatAxioms.opp_spec. destruct (Prim2SF x); congruence || discriminate.
Qed.

Lemma add_opp_r (x y : float) : x + - y = x - y.
Proof.
  apply Prim2SF_inj.
  rewrite FloatAxioms.add_spec, FloatAxioms.opp_spec, FloatAxioms.sub_spec.
  destruct (Prim2SF x) as [sx|sx| |sx mx ex], (Prim2SF y) as [sy|sy| |sy my ey];
    try reflexivity; cbn [SFopp SF64add SFadd SF64sub SFsub];
    destruct sx, sy; reflexivity.
Qed.

Lemma mul_zero_is_nan (a : float) : is_nan (a * 0) = negb (is_finite a).
Proof.
  unfold is_finite, is_infinite, Math.abs.
  destruct (is_nan a) eqn:N.
  - apply is_nan_eq in N. subst a. reflexivity.
  - cbn [negb andb]. apply is_nan_false_Prim2SF in N.
    rewrite FloatAxioms.eqb_spec, FloatAxioms.abs_spec.
    change (Prim2SF infinity) with (S754_infinity false).
    destruct (Prim2SF a) as [s|s| |s m e] eqn:E; try congruence; cbn.
    + apply is_nan_false_Prim2SF. rewrite FloatAxioms.mul_spec, E. discriminate.
    + apply is_nan_Prim2SF. rewrite FloatAxioms.mul_spec, E. reflexivity.
    + unfold SFeqb, SFcompare. cbn.
      apply is_nan_false_Prim2SF. rewrite FloatAxioms.mul_spec, E. discriminate.
Qed.

(** ** The forms of the argument; algebraic laws *)

Section Forms.

Context {M : Math.lib}.

Lemma operand_number (a : float) :
  operand (ArgsNumber a) = if is_finite a then Normal (a, 0) else Throw INVALID_PARAM.
Proof.
  unfold operand, staged, JS.isNaN. rewrite mul_zero_is_nan.
  destruct (is_finite a); reflexivity.
Qed.

Lemma returns_bind {A B} (c : Js A) (k : A -> Js B) (a : A) (b : B) :
  returns c a -> returns (k a) b -> returns (bind c k) b.
Proof.
  intros Hc Hk P. unfold bind. specialize (Hc P).
  destruct (c P) as [[a'|m] Q]; cbn [fst] in Hc; inversion Hc. subst a'. apply Hk.
Qed.

Lemma returns_pair (r i : float) :
  JS.isNaN (r * i) = false -> returns (Complex (ArgsPair r i)) (mkComplex r i).
Proof. intros V P. rewrite Complex_pair. unfold construct. rewrite V. reflexivity. Qed.

End Forms.

(** X8. Handed one number, the constructor builds [(a, 0)] exactly when
    [a] is finite: [Infinity], [-Infinity] and [NaN] are refused with
    "Invalid Param", and so is every call that takes such a number as its
    operand. Without an argument the constructor builds [ZERO]; an argument
    of a kind [parse] does not know is refused. *)
Theorem Complex_single_number {M : Math.lib} (a : float) :
  (returns (Complex (ArgsNumber a)) (mkComplex a 0) <-> is_finite a = true)
  /\ (raises (Complex (ArgsNumber a)) INVALID_PARAM <-> is_finite a = false)
  /\ (is_finite a = false ->
      forall x, raises (add x (ArgsNumber a)) INVALID_PARAM
                /\ raises (sub x (ArgsNumber a)) INVALID_PARAM
                /\ raises (mul x (ArgsNumber a)) INVALID_PARAM
                /\ raises (div x (ArgsNumber a)) INVALID_PARAM
                /\ raises (pow x (ArgsNumber a)) INVALID_PARAM
                /\ raises (equals x (ArgsNumber a)) INVALID_PARAM)
  /\ returns (Complex ArgsNone) ZERO
  /\ raises (Complex ArgsOther) INVALID_PARAM.
Proof.
  assert (E : forall P, fst (Complex (ArgsNumber a) P)
              = if is_finite a then Normal (mkComplex a 0) else Throw INVALID_PARAM).
  { intro P. rewrite Complex_operand, operand_number. destruct (is_finite a); reflexivity. }
  split; [|split; [|split; [|split]]].
  - split.
    + intro H. specialize (H (mkScratch 0 0)). rewrite E in H.
      destruct (is_finite a); [reflexivity|discriminate H].
    + intros F P. rewrite E, F. reflexivity.
  - split.
    + intro H. specialize (H (mkScratch 0 0)). rewrite E in H.
      destruct (is_finite a); [discriminate H|reflexivity].
    + intros F P. rewrite E, F. reflexivity.
  - intros F x.
    repeat split; intro P;
      unfold add, sub, mul, div, pow, equals; rewrite after_parse, operand_number, F;
      reflexivity.
  - intro P. rewrite Complex_run. reflexivity.
  - intro P. rewrite Complex_run. reflexivity.
Qed.

(** X9. [add] and [mul] are commutative on the values the constructor
    builds: [x.add(y)] and [y.add(x)] complete alike, bit for bit and error
    for error, and so do [x.mul(y)] and [y.mul(x)]. *)
Theorem add_mul_commute {M : Math.lib} (x y : complex) :
  JS.isNaN (re x * im x) = false -> JS.isNaN (re y * im y) = false ->
  (forall P Q, fst (add x (this_arg y) P) = fst (add y (this_arg x) Q))
  /\ (forall P Q, fst (mul x (this_arg y) P) = fst (mul y (this_arg x) Q)).
Proof.
  intros Vx Vy. split; intros P Q.
  - rewrite !add_run, !operand_this, Vx, Vy. cbn [and_then fst snd].
    rewrite (add_comm (re x)), (add_comm (im x)). reflexivity.
  - rewrite !mul_run, !operand_this, Vx, Vy. cbn [and_then fst snd].
    rewrite (mul_comm (re x)), (mul_comm (im x) (im y)).
    rewrite (mul_comm (re x) (im y)), (mul_comm (im x) (re y)).
    rewrite (add_comm (im y * re x)). reflexivity.
Qed.

Lemma add_mul_commute_witness :
  JS.isNaN (3 * infinity) = false /\ JS.isNaN (0.1 * -2) = false
  /\ fst (mul (M := RefMath.engine) (mkComplex 3 infinity) (this_arg (mkComplex 0.1 (-2)))
            (mkScratch 0 0))
     = fst (mul (M := RefMath.engine) (mkComplex 0.1 (-2)) (this_arg (mkComplex 3 infinity))
              (mkScratch 7 7)).
Proof.
  split; [reflexivity|]. split; [reflexivity|].
  exact (proj2 (add_mul_commute (M := RefMath.engine) (mkComplex 3 infinity)
                  (mkComplex 0.1 (-2)) eq_refl eq_refl) (mkScratch 0 0) (mkScratch 7 7)).
Defined.

(** X10. Subtracting is adding the negation: for a value [y] the
    constructor builds, [y.neg()] returns [(-y.re, -y.im)] and [x.sub(y)]
    completes as [x.add(y.neg())] does, bit for bit. *)
Theorem sub_is_add_neg {M : Math.lib} (x y : complex) :
  JS.isNaN (re y * im y) = false ->
  returns (neg y) (mkComplex (- re y) (- im y))
  /\ (forall P Q, fst (sub x (this_arg y) P)
                  = fst ((n <- neg y ;; add x (this_arg n)) Q)).
Proof.
  intro Vy.
  assert (Vn : JS.isNaN (- re y * - im y) = false).
  { rewrite mul_opp_opp. exact Vy. }
  assert (N : returns (neg y) (mkComplex (- re y) (- im y))).
  { intro P. unfold neg. rewrite Complex_pair. unfold construct. rewrite Vn. reflexivity. }
  split; [exact N|]. intros P Q.
  rewrite result_bind; [|apply indep_Complex|intro; apply indep_add].
  unfold result at 1. rewrite N. cbn [and_then]. unfold result.
  rewrite sub_run, add_run, !operand_this. cbn [re im]. rewrite Vy, Vn.
  cbn [and_then fst snd]. rewrite !add_opp_r. reflexivity.
Qed.

Lemma sub_is_add_neg_witness :
  JS.isNaN (1e308 * -3) = false
  /\ fst (sub (M := RefMath.engine) (mkComplex (-1e308) 2) (this_arg (mkComplex 1e308 (-3)))
            (mkScratch 0 0))
     = fst ((n <- neg (M := RefMath.engine) (mkComplex 1e308 (-3)) ;;
             add (M := RefMath.engine) (mkComplex (-1e308) 2) (this_arg n)) (mkScratch 0 0)).
Proof.
  split; [reflexivity|].
  exact (proj2 (sub_is_add_neg (M := RefMath.engine) (mkComplex (-1e308) 2)
                  (mkComplex 1e308 (-3)) eq_refl) (mkScratch 0 0) (mkScratch 0 0)).
Defined.

(** X11. On a value the constructor builds, [conjugate] and [neg] are
    involutions, they commute, and none of the four calls throws; the sign
    of a zero and an infinite field are kept. *)
Theorem conjugate_neg_involutive {M : Math.lib} (x : complex) :
  JS.isNaN (re x * im x) = false ->
  returns (c <- conjugate x ;; conjugate c) x
  /\ returns (n <- neg x ;; neg n) x
  /\ returns (c <- conjugate x ;; neg c) (mkComplex (- re x) (im x))
  /\ returns (n <- neg x ;; conjugate n) (mkComplex (- re x) (im x)).
Proof.
  intro V. destruct x as [a b]. cbn [re im] in *.
  assert (V1 : JS.isNaN (a * - b) = false).
  { unfold JS.isNaN in *. rewrite mul_opp_r, is_nan_opp. exact V. }
  assert (V2 : JS.isNaN (- a * - b) = false).
  { rewrite mul_opp_opp. exact V. }
  assert (V3 : JS.isNaN (- a * b) = false).
  { unfold JS.isNaN in *. rewrite mul_opp_l, is_nan_opp. exact V. }
  repeat split.
  - apply (returns_bind _ _ (mkComplex a (- b))); [exact (returns_pair _ _ V1)|].
    unfold conjugate. cbn [re im]. rewrite opp_involutive. exact (returns_pair _ _ V).
  - apply (returns_bind _ _ (mkComplex (- a) (- b))); [exact (returns_pair _ _ V2)|].
    unfold neg. cbn [re im]. rewrite !opp_involutive. exact (returns_pair _ _ V).
  - apply (returns_bind _ _ (mkComplex a (- b))); [exact (returns_pair _ _ V1)|].
    unfold neg. cbn [re im]. rewrite opp_involutive. exact (returns_pair _ _ V3).
  - apply (returns_bind _ _ (mkComplex (- a) (- b))); [exact (returns_pair _ _ V2)|].
    unfold conjugate. cbn [re im]. rewrite opp_involutive. exact (returns_pair _ _ V3).
Qed.

Lemma conjugate_neg_involutive_witness :
  JS.isNaN (neg_zero * infinity) = true
  /\ JS.isNaN (2.5 * neg_infinity) = false
  /\ returns (c <- conjugate (M := RefMath.engine) (mkComplex 2.5 neg_infinity) ;;
              conjugate (M := RefMath.engine) c)
       (mkComplex 2.5 neg_infinity).
Proof.
  split; [reflexivity|]. split; [reflexivity|].
  exact (proj1 (conjugate_neg_involutive (M := RefMath.engine) (mkComplex 2.5 neg_infinity)
                  eq_refl)).
Defined.

(** ** Rounding what is representable *)

Lemma shr_1_double (z : Z) :
  (0 <= z)%Z ->
  shr_1 {| shr_m := 2 * z; shr_r := false; shr_s := false |}
  = {| shr_m := z; shr_r := false; shr_s := false |}.
Proof. destruct z as [|p|p]; [reflexivity|reflexivity|lia]. Qed.

Lemma pow2_xO (p : positive) : (2 ^ Z.pos p~0 = 2 ^ Z.pos p * 2 ^ Z.pos p)%Z.
Proof.
  replace (Z.pos p~0) with (Z.pos p + Z.pos p)%Z by lia. apply Z.pow_add_r; lia.
Qed.

Lemma pow2_xI (p : positive) : (2 ^ Z.pos p~1 = 2 * (2 ^ Z.pos p * 2 ^ Z.pos p))%Z.
Proof.
  replace (Z.pos p~1) with (1 + (Z.pos p + Z.pos p))%Z by lia.
  rewrite !Z.pow_add_r by lia. reflexivity.
Qed.

Lemma iter_shr_exact (p : positive) :
  forall z, (0 <= z)%Z ->
  iter_pos shr_1 p {| shr_m := z * 2 ^ Z.pos p; shr_r := false; shr_s := false |}
  = {| shr_m := z; shr_r := false; shr_s := false |}.
Proof.
  induction p as [p IH|p IH|]; intros z Hz; cbn [iter_pos].
  - replace (z * 2 ^ Z.pos p~1)%Z with (2 * ((z * 2 ^ Z.pos p) * 2 ^ Z.pos p))%Z
      by (rewrite pow2_xI; ring).
    assert (0 < 2 ^ Z.pos p)%Z by (apply Z.pow_pos_nonneg; lia).
    rewrite shr_1_double by nia.
    rewrite IH by nia. apply IH, Hz.
  - replace (z * 2 ^ Z.pos p~0)%Z with ((z * 2 ^ Z.pos p) * 2 ^ Z.pos p)%Z
      by (rewrite pow2_xO; ring).
    assert (0 < 2 ^ Z.pos p)%Z by (apply Z.pow_pos_nonneg; lia).
    rewrite IH by nia. apply IH, Hz.
  - replace (z * 2 ^ 1)%Z with (2 * z)%Z by lia. apply shr_1_double, Hz.
Qed.

Lemma Zdigits2_double (z : Z) : (0 < z)%Z -> Zdigits2 (2 * z) = (Zdigits2 z + 1)%Z.
Proof. destruct z as [|p|p]; try lia. intros _. cbn. lia. Qed.

Lemma Zdigits2_mul_pow2 (z k : Z) :
  (0 < z)%Z -> (0 <= k)%Z -> Zdigits2 (z * 2 ^ k) = (Zdigits2 z + k)%Z.
Proof.
  intros Hz Hk. revert k Hk. apply natlike_ind.
  - rewrite Z.mul_1_r. lia.
  - intros k Hk IH. rewrite Z.pow_succ_r by exact Hk.
    replace (z * (2 * 2 ^ k))%Z with (2 * (z * 2 ^ k))%Z by ring.
    rewrite Zdigits2_double, IH; [lia|].
    apply Z.mul_pos_pos; [exact Hz|apply Z.pow_pos_nonneg; lia].
Qed.

(** A number the format holds is rounded to itself, also when its mantissa
    comes with [k] extra zero bits. *)
Lemma round_exact (s : bool) (m : positive) (e k : Z) :
  bounded prec emax m e = true -> (0 <= k)%Z ->
  binary_round_aux prec emax s (Z.pos m * 2 ^ k) (e - k) loc_Exact = S754_finite s m e.
Proof.
  intros B Hk. unfold bounded, canonical_mantissa in B.
  apply andb_true_iff in B. destruct B as [C E].
  apply Z.eqb_eq in C.
  unfold binary_round_aux, shr_fexp.
  rewrite Zdigits2_mul_pow2 by lia. cbn [Zdigits2].
  replace (Z.pos (digits2_pos m) + k + (e - k))%Z with (Z.pos (digits2_pos m) + e)%Z by lia.
  rewrite C. replace (e - (e - k))%Z with k by lia.
  assert (S : shr (shr_record_of_loc (Z.pos m * 2 ^ k) loc_Exact) (e - k) k
              = ({| shr_m := Z.pos m; shr_r := false; shr_s := false |}, e)).
  { unfold shr. destruct k as [|p|p]; [| |lia].
    - cbn [shr_record_of_loc]. rewrite Z.mul_1_r. f_equal. lia.
    - cbn [shr_record_of_loc]. rewrite iter_shr_exact by lia. f_equal. lia. }
  rewrite S. cbn [shr_m loc_of_shr_record round_nearest_even Zdigits2].
  rewrite C, Z.sub_diag. cbn [shr shr_record_of_loc shr_m].
  rewrite E. reflexivity.
Qed.

Lemma valid_finite (x : float) (s : bool) (m : positive) (e : Z) :
  Prim2SF x = S754_finite s m e -> bounded prec emax m e = true.
Proof. intro E. pose proof (Prim2SF_valid x) as V. rewrite E in V. exact V. Qed.

Lemma mul_one (x : float) : x * 1 = x.
Proof.
  apply Prim2SF_inj. rewrite FloatAxioms.mul_spec.
  change (Prim2SF 1) with (S754_finite false 4503599627370496 (-52)).
  destruct (Prim2SF x) as [s|s| |s m e] eqn:E; cbn [SF64mul SFmul];
    rewrite ?xorb_false_r; try reflexivity.
  change (Z.pos (m * 4503599627370496)) with (Z.pos m * 2 ^ 52)%Z.
  replace (e + -52)%Z with (e - 52)%Z by lia.
  apply round_exact; [exact (valid_finite x s m e E)|lia].
Qed.

Lemma div_one (x : float) : x / 1 = x.
Proof.
  apply Prim2SF_inj. rewrite FloatAxioms.div_spec.
  change (Prim2SF 1) with (S754_finite false 4503599627370496 (-52)).
  destruct (Prim2SF x) as [s|s| |s m e] eqn:E; cbn [SF64div SFdiv];
    rewrite ?xorb_false_r; try reflexivity.
  pose proof (valid_finite x s m e E) as B.
  assert (B' := B). unfold bounded, canonical_mantissa, fexp in B'.
  apply andb_true_iff in B'. destruct B' as [C _]. apply Z.eqb_eq in C.
  unfold SFdiv_core_binary.
  change (Zdigits2 4503599627370496) with 53%Z. cbn [Zdigits2].
  set (d := Z.pos (digits2_pos m)) in *.
  set (e' := Z.min (fexp prec emax (d + e - (53 + -52))) (e - -52)).
  assert (K : (e - -52 - e' = 52 \/ e - -52 - e' = 53)%Z).
  { unfold e', fexp. unfold prec, SpecFloat.emin, emax in *. lia. }
  assert (Q : forall k, (0 <= k)%Z ->
            Z.div_eucl (Z.pos m * 2 ^ (52 + k)) 4503599627370496 = (Z.pos m * 2 ^ k, 0)%Z).
  { intros k Hk.
    pose proof (Z.div_eucl_eq (Z.pos m * 2 ^ (52 + k)) 4503599627370496 ltac:(lia)) as D.
    pose proof (Z.mod_pos_bound (Z.pos m * 2 ^ (52 + k)) 4503599627370496 ltac:(lia)) as R.
    unfold Z.modulo in R.
    destruct (Z.div_eucl (Z.pos m * 2 ^ (52 + k)) 4503599627370496) as [q r].
    rewrite Z.pow_add_r in D by lia. change (2 ^ 52)%Z with 4503599627370496%Z in D.
    assert (q = Z.pos m * 2 ^ k)%Z by nia. assert (r = 0)%Z by nia. subst. reflexivity. }
  destruct K as [K|K]; rewrite K; rewrite Z.shiftl_mul_pow2 by lia.
  - change 52%Z with (52 + 0)%Z at 1. rewrite (Q 0%Z) by lia.
    change (new_location 4503599627370496 0) with loc_Exact.
    replace e' with (e - 0)%Z by lia.
    apply round_exact; [exact B|lia].
  - change 53%Z with (52 + 1)%Z at 1. rewrite (Q 1%Z) by lia.
    change (new_location 4503599627370496 0) with loc_Exact.
    replace e' with (e - 1)%Z by lia.
    apply round_exact; [exact B|lia].
Qed.

(** ** Units *)

Lemma add_nan_l (y : float) : nan + y = nan.
Proof. apply Prim2SF_inj. rewrite FloatAxioms.add_spec. reflexivity. Qed.

Lemma add_nan_r (x : float) : x + nan = nan.
Proof. rewrite add_comm. apply add_nan_l. Qed.

Lemma not_finite_mul_zero (x : float) : is_finite x = false -> x * 0 = nan.
Proof.
  intro F. apply is_nan_eq. rewrite mul_zero_is_nan, F. reflexivity.
Qed.

Lemma is_zero_Prim2SF (x : float) : (x =? 0) = true <-> exists s, Prim2SF x = S754_zero s.
Proof.
  rewrite FloatAxioms.eqb_spec. change (Prim2SF 0) with (S754_zero false).
  destruct (Prim2SF x) as [s|s| |s m e]; split; intro H;
    try (destruct s; discriminate H); try discriminate H;
    try (destruct H; discriminate).
  - exists s. reflexivity.
  - reflexivity.
Qed.

Lemma finite_mul_zero (x : float) : is_finite x = true -> (x * 0 =? 0) = true.
Proof.
  intro F. apply is_zero_Prim2SF. rewrite FloatAxioms.mul_spec.
  change (Prim2SF 0) with (S754_zero false).
  destruct (finite_Prim2SF x F) as [[s ->]|[s [m [e ->]]]]; eexists; reflexivity.
Qed.

Lemma eqb_refl_not_nan (x : float) : is_nan x = false -> (x =? x) = true.
Proof. unfold is_nan. intro H. apply negb_false_iff in H. exact H. Qed.

(** Adding or subtracting a zero changes at most the sign of a zero. *)
Lemma add_zero_r (x z : float) :
  is_nan x = false -> (z =? 0) = true ->
  (x + z =? x) = true /\ ((x =? 0) = false -> x + z = x).
Proof.
  intros N Z. apply is_zero_Prim2SF in Z. destruct Z as [sz Z].
  pose proof (eqb_refl_not_nan x N) as R.
  apply is_nan_false_Prim2SF in N.
  assert (E : (x =? 0) = false -> x + z = x).
  { intro NZ. apply Prim2SF_inj. rewrite FloatAxioms.add_spec, Z.
    rewrite FloatAxioms.eqb_spec in NZ. change (Prim2SF 0) with (S754_zero false) in NZ.
    destruct (Prim2SF x) as [s|s| |s m e]; try reflexivity; try congruence.
    discriminate NZ. }
  split; [|exact E].
  destruct (x =? 0) eqn:NZ.
  - apply is_zero_Prim2SF in NZ. destruct NZ as [sx X].
    rewrite FloatAxioms.eqb_spec, FloatAxioms.add_spec, X, Z.
    destruct sx, sz; reflexivity.
  - rewrite (E eq_refl). exact R.
Qed.

Lemma add_zero_l (x z : float) :
  is_nan x = false -> (z =? 0) = true ->
  (z + x =? x) = true /\ ((x =? 0) = false -> z + x = x).
Proof. rewrite (add_comm z x). apply add_zero_r. Qed.

Lemma opp_is_zero (z : float) : (z =? 0) = true -> (- z =? 0) = true.
Proof.
  intro Z. apply is_zero_Prim2SF in Z. destruct Z as [s Z].
  apply is_zero_Prim2SF. rewrite FloatAxioms.opp_spec, Z. eexists. reflexivity.
Qed.

Lemma sub_zero_r (x z : float) :
  is_nan x = false -> (z =? 0) = true ->
  (x - z =? x) = true /\ ((x =? 0) = false -> x - z = x).
Proof.
  intros N Z. rewrite <- add_opp_r. apply add_zero_r; [exact N|apply opp_is_zero, Z].
Qed.

Lemma finite_not_nan (x : float) : is_finite x = true -> is_nan x = false.
Proof. unfold is_finite. intro H. apply andb_true_iff in H. apply negb_true_iff, H. Qed.

(** A number equal to a finite one is finite. *)
Lemma eqb_finite (u x : float) : (u =? x) = true -> is_finite x = true -> is_finite u = true.
Proof.
  intros E F. unfold is_finite, is_infinite, Math.abs, is_nan.
  rewrite !FloatAxioms.eqb_spec, FloatAxioms.abs_spec in *.
  change (Prim2SF infinity) with (S754_infinity false).
  destruct (finite_Prim2SF x F) as [[s X]|[s [m [e X]]]]; rewrite X in E;
    destruct (Prim2SF u) as [su|su| |su mu eu]; try discriminate E; try reflexivity;
    try (destruct su, s; discriminate E); try (destruct su; discriminate E).
  all: cbn; unfold SFeqb, SFcompare; rewrite ?Z.compare_refl, ?Pos.compare_cont_refl;
    destruct su; reflexivity.
Qed.

Section Identities.

Context {M : Math.lib}.

Lemma mul_ONE_run (x : complex) (P : scratch) :
  fst (mul x (this_arg ONE) P) = construct (re x - im x * 0) (re x * 0 + im x).
Proof.
  rewrite mul_run. cbn [operand staged this_arg ONE re im and_then fst snd].
  change (JS.isNaN (1 * 0)) with false. cbn [and_then fst snd].
  rewrite !mul_one. reflexivity.
Qed.

Lemma div_ONE_run (x : complex) (P : scratch) :
  fst (div x (this_arg ONE) P) = construct (re x + im x * 0) (im x - re x * 0).
Proof.
  rewrite div_run. cbn [operand staged this_arg ONE re im].
  change (JS.isNaN (1 * 0)) with false. cbv iota beta.
  change ((1 =? 0) && (0 =? 0)) with false. cbv iota.
  unfold div_claim. cbn [re im].
  change (Math.abs 1 <? Math.abs 0) with false. cbv iota.
  change (0 / 1) with 0. change (0 * 0 + 1) with 1.
  rewrite !div_one. reflexivity.
Qed.

End Identities.

(** X12. [ONE] is a unit for [mul] and [div] on values with finite
    fields: the result has the fields of [x], a zero field up to its sign.
    A value with an infinite field is not kept: [x.mul(ONE)] and
    [x.div(ONE)] throw "Invalid Param". *)
Theorem ONE_is_identity {M : Math.lib} (x : complex) :
  (is_finite (re x) && is_finite (im x) = true ->
   exists w w',
     returns (mul x (this_arg ONE)) w /\ returns (div x (this_arg ONE)) w'
     /\ (re w =? re x) && (im w =? im x) && (re w' =? re x) && (im w' =? im x) = true
     /\ ((re x =? 0) = false -> re w = re x /\ re w' = re x)
     /\ ((im x =? 0) = false -> im w = im x /\ im w' = im x))
  /\ (is_finite (re x) && is_finite (im x) = false ->
      raises (mul x (this_arg ONE)) INVALID_PARAM
      /\ raises (div x (this_arg ONE)) INVALID_PARAM).
Proof.
  destruct x as [a b]. cbn [re im]. split.
  - intro F. apply andb_true_iff in F. destruct F as [Fa Fb].
    pose proof (finite_not_nan _ Fa) as Na. pose proof (finite_not_nan _ Fb) as Nb.
    pose proof (finite_mul_zero _ Fa) as Za. pose proof (finite_mul_zero _ Fb) as Zb.
    destruct (sub_zero_r a (b * 0) Na Zb) as [E1 X1].
    destruct (add_zero_l b (a * 0) Nb Za) as [E2 X2].
    destruct (add_zero_r a (b * 0) Na Zb) as [E3 X3].
    destruct (sub_zero_r b (a * 0) Nb Za) as [E4 X4].
    exists (mkComplex (a - b * 0) (a * 0 + b)), (mkComplex (a + b * 0) (b - a * 0)).
    cbn [re im]. split; [|split; [|split; [|split]]].
    + intro P. rewrite mul_ONE_run. cbn [re im]. unfold construct, JS.isNaN.
      rewrite mul_finite_not_nan; [reflexivity| |]; eapply eqb_finite; eassumption.
    + intro P. rewrite div_ONE_run. cbn [re im]. unfold construct, JS.isNaN.
      rewrite mul_finite_not_nan; [reflexivity| |]; eapply eqb_finite; eassumption.
    + rewrite E1, E2, E3, E4. reflexivity.
    + intro NZ. split; [exact (X1 NZ)|exact (X3 NZ)].
    + intro NZ. split; [exact (X2 NZ)|exact (X4 NZ)].
  - intro F. apply andb_false_iff in F.
    split; intro P; rewrite ?mul_ONE_run, ?div_ONE_run; cbn [re im];
      destruct F as [F|F]; rewrite (not_finite_mul_zero _ F);
      rewrite ?sub_nan_r, ?add_nan_l, ?add_nan_r, ?sub_nan_r;
      unfold construct; rewrite ?mul_nan_l, ?mul_nan_r; reflexivity.
Qed.

Lemma ONE_is_identity_witness :
  (is_finite infinity && is_finite 5 = false
   /\ raises (mul (M := RefMath.engine) (mkComplex infinity 5) (this_arg ONE)) INVALID_PARAM)
  /\ (is_finite neg_zero && is_finite (-2.5) = true
      /\ exists w w',
           returns (mul (M := RefMath.engine) (mkComplex neg_zero (-2.5)) (this_arg ONE)) w
           /\ returns (div (M := RefMath.engine) (mkComplex neg_zero (-2.5)) (this_arg ONE)) w'
           /\ (re w =? neg_zero) && (im w =? -2.5) && (re w' =? neg_zero) && (im w' =? -2.5)
              = true).
Proof.
  split.
  - split; [reflexivity|].
    exact (proj1 (proj2 (ONE_is_identity (M := RefMath.engine) (mkComplex infinity 5)) eq_refl)).
  - split; [reflexivity|].
    destruct (proj1 (ONE_is_identity (M := RefMath.engine) (mkComplex neg_zero (-2.5))) eq_refl)
      as [w [w' [H1 [H2 [H3 _]]]]].
    exists w, w'. auto.
Defined.

Lemma eqb_sym (u v : float) : (u =? v) = (v =? u).
Proof.
  rewrite !FloatAxioms.eqb_spec. unfold SFeqb.
  rewrite (SFcompare_antisym (Prim2SF u) (Prim2SF v)).
  destruct (SFcompare (Prim2SF u) (Prim2SF v)) as [[| |]|]; reflexivity.
Qed.

Lemma eqb_is_finite (u v : float) : (u =? v) = true -> is_finite u = is_finite v.
Proof.
  intro E. destruct (is_finite v) eqn:F.
  - exact (eqb_finite u v E F).
  - destruct (is_finite u) eqn:G; [|reflexivity].
    rewrite eqb_sym in E. rewrite (eqb_finite v u E G) in F. discriminate F.
Qed.

Lemma eqb_cases (u v : float) :
  (u =? v) = true -> u = v \/ ((u =? 0) = true /\ (v =? 0) = true).
Proof.
  intro E. destruct (v =? 0) eqn:Z.
  - right. split; [|reflexivity].
    apply is_zero_Prim2SF in Z. destruct Z as [s Z].
    apply is_zero_Prim2SF. rewrite FloatAxioms.eqb_spec, Z in E.
    destruct (Prim2SF u) as [su|su| |su mu eu]; try discriminate E;
      try (destruct su; discriminate E).
    exists su. reflexivity.
  - left. apply Prim2SF_inj.
    rewrite FloatAxioms.eqb_spec in E, Z. change (Prim2SF 0) with (S754_zero false) in Z.
    destruct (Prim2SF u) as [su|su| |su mu eu], (Prim2SF v) as [sv|sv| |sv mv ev];
      try discriminate E; try discriminate Z;
      try (destruct su, sv; try discriminate E; reflexivity);
      try (destruct su; discriminate E); try (destruct sv; discriminate E).
    unfold SFeqb, SFcompare in E.
    destruct su, sv; try discriminate E;
      (destruct (eu ?= ev)%Z eqn:Ce; try discriminate E;
       apply Z.compare_eq in Ce; subst ev;
       destruct (Pos.compare_cont Eq mu mv) eqn:Cm; try discriminate E;
       apply (Pos.compare_eq mu) in Cm; subst mv; reflexivity).
Qed.

Lemma zero_mul_is_nan (z v : float) :
  (z =? 0) = true -> is_nan (z * v) = negb (is_finite v).
Proof.
  intro Z. rewrite mul_comm.
  destruct (eqb_0_true z Z) as [-> | ->]; [apply mul_zero_is_nan|].
  change neg_zero with (- 0). rewrite mul_opp_r, is_nan_opp. apply mul_zero_is_nan.
Qed.

(** Whether a product is [NaN] depends on the two numbers up to the sign
    of a zero. *)
Lemma mul_is_nan_eqb (u v a b : float) :
  (u =? a) = true -> (v =? b) = true -> is_nan (u * v) = is_nan (a * b).
Proof.
  intros Eu Ev.
  destruct (eqb_cases u a Eu) as [-> | [Zu Za]].
  - destruct (eqb_cases v b Ev) as [-> | [Zv Zb]]; [reflexivity|].
    rewrite (mul_comm a v), (mul_comm a b), !zero_mul_is_nan by assumption. reflexivity.
  - rewrite !zero_mul_is_nan by assumption. rewrite (eqb_is_finite v b Ev). reflexivity.
Qed.

(** X13. [ZERO] is a unit for [add] and [sub] on every value the
    constructor builds, an infinite field included: [x.add(ZERO)], [x.add()]
    and [x.sub(ZERO)] return the fields of [x], a zero field up to its
    sign. *)
Theorem ZERO_is_additive_identity {M : Math.lib} (x : complex) :
  JS.isNaN (re x * im x) = false ->
  exists w w',
    returns (add x (this_arg ZERO)) w /\ returns (add x ArgsNone) w
    /\ returns (sub x (this_arg ZERO)) w'
    /\ (re w =? re x) && (im w =? im x) && (re w' =? re x) && (im w' =? im x) = true
    /\ ((re x =? 0) = false -> re w = re x /\ re w' = re x)
    /\ ((im x =? 0) = false -> im w = im x /\ im w' = im x).
Proof.
  destruct x as [a b]. cbn [re im]. intro V.
  destruct (mul_not_nan _ _ V) as [Na Nb].
  destruct (add_zero_r a 0 Na eq_refl) as [E1 X1].
  destruct (add_zero_r b 0 Nb eq_refl) as [E2 X2].
  destruct (sub_zero_r a 0 Na eq_refl) as [E3 X3].
  destruct (sub_zero_r b 0 Nb eq_refl) as [E4 X4].
  exists (mkComplex (a + 0) (b + 0)), (mkComplex (a - 0) (b - 0)). cbn [re im].
  split; [|split; [|split; [|split; [|split]]]].
  - intro P. rewrite add_run. cbn. unfold construct, JS.isNaN.
    rewrite (mul_is_nan_eqb _ _ _ _ E1 E2). unfold JS.isNaN in V. rewrite V. reflexivity.
  - intro P. rewrite add_run. cbn. unfold construct, JS.isNaN.
    rewrite (mul_is_nan_eqb _ _ _ _ E1 E2). unfold JS.isNaN in V. rewrite V. reflexivity.
  - intro P. rewrite sub_run. cbn. unfold construct, JS.isNaN.
    rewrite (mul_is_nan_eqb _ _ _ _ E3 E4). unfold JS.isNaN in V. rewrite V. reflexivity.
  - rewrite E1, E2, E3, E4. reflexivity.
  - intro NZ. split; [exact (X1 NZ)|exact (X3 NZ)].
  - intro NZ. split; [exact (X2 NZ)|exact (X4 NZ)].
Qed.

Lemma ZERO_is_additive_identity_witness :
  JS.isNaN (infinity * neg_zero) = true
  /\ JS.isNaN (infinity * -1) = false
  /\ exists w w',
       returns (add (M := RefMath.engine) (mkComplex infinity (-1)) (this_arg ZERO)) w
       /\ returns (add (M := RefMath.engine) (mkComplex infinity (-1)) ArgsNone) w
       /\ returns (sub (M := RefMath.engine) (mkComplex infinity (-1)) (this_arg ZERO)) w'
       /\ (re w =? infinity) && (im w =? -1) && (re w' =? infinity) && (im w' =? -1) = true.
Proof.
  split; [reflexivity|]. split; [reflexivity|].
  destruct (ZERO_is_additive_identity (M := RefMath.engine) (mkComplex infinity (-1)) eq_refl)
    as [w [w' [H1 [H2 [H3 [H4 _]]]]]].
  exists w, w'. auto.
Defined.

(** ** Signs *)

Lemma binary_round_aux_sign (s : bool) (m e : Z) (l : location) :
  match binary_round_aux prec emax s m e l with
  | S754_zero s' | S754_infinity s' | S754_finite s' _ _ => s' = s
  | S754_nan => True
  end.
Proof.
  unfold binary_round_aux.
  destruct (shr_fexp prec emax m e l) as [mrs' e'].
  destruct (shr_fexp prec emax _ e' loc_Exact) as [mrs'' e''].
  destruct (shr_m mrs''); try reflexivity; try exact Logic.I.
  destruct (e'' <=? emax - prec)%Z; reflexivity.
Qed.

Lemma binary_round_aux_nonneg (m e : Z) (l : location) :
  (0 <= m)%Z -> SFnonneg (binary_round_aux prec emax false m e l) = true.
Proof.
  intro H. pose proof (binary_round_aux_sign false m e l) as S.
  pose proof (binary_round_aux_not_nan false m e l H) as N.
  destruct (binary_round_aux prec emax false m e l); try congruence;
    try (rewrite S); reflexivity.
Qed.

Lemma binary_round_aux_positive (m e : Z) (l : location) :
  (0 < m)%Z -> (emin <= e)%Z -> SFpositive (binary_round_aux prec emax false m e l) = true.
Proof.
  intros H He. pose proof (binary_round_aux_sign false m e l) as S.
  pose proof (binary_round_aux_not_nan false m e l ltac:(lia)) as N.
  pose proof (binary_round_aux_not_zero false m e l H He) as Z.
  destruct (binary_round_aux prec emax false m e l); try congruence;
    try (rewrite S); try reflexivity.
  destruct s; discriminate Z.
Qed.

Lemma binary_round_nonneg (p : positive) (e : Z) :
  SFnonneg (binary_round prec emax false p e) = true.
Proof.
  unfold binary_round. destruct (shl_align p e _) as [mz ez].
  apply binary_round_aux_nonneg. lia.
Qed.

Lemma binary_round_positive (p : positive) (e : Z) :
  (emin <= e)%Z -> SFpositive (binary_round prec emax false p e) = true.
Proof.
  intro He. unfold binary_round, shl_align.
  destruct (fexp prec emax (Z.pos (digits2_pos p) + e) - e)%Z as [|d|d] eqn:E;
    apply binary_round_aux_positive; try lia.
  unfold fexp in *. lia.
Qed.

Lemma SFpositive_nonneg (x : spec_float) : SFpositive x = true -> SFnonneg x = true.
Proof. destruct x as [s|s| |s m e]; try destruct s; intro H; try discriminate H; reflexivity. Qed.

Lemma mul_self_nonneg (r : float) :
  is_nan r = false -> SFnonneg (Prim2SF (r * r)) = true.
Proof.
  intro N. apply is_nan_false_Prim2SF in N. rewrite FloatAxioms.mul_spec.
  destruct (Prim2SF r) as [s|s| |s m e]; try congruence; cbn [SF64mul SFmul];
    rewrite xorb_nilpotent; try reflexivity.
  apply binary_round_aux_nonneg. lia.
Qed.

Lemma add_nonneg (u v : float) :
  SFnonneg (Prim2SF u) = true -> SFnonneg (Prim2SF v) = true ->
  SFnonneg (Prim2SF (u + v)) = true.
Proof.
  rewrite FloatAxioms.add_spec.
  destruct (Prim2SF u) as [su|su| |su mu eu], (Prim2SF v) as [sv|sv| |sv mv ev];
    cbn [SFnonneg]; intros Hu Hv; try discriminate;
    try (apply negb_true_iff in Hu; subst su);
    try (apply negb_true_iff in Hv; subst sv); try reflexivity;
    try (destruct su, sv; reflexivity).
  unfold SF64add, SFadd. cbn [cond_Zopp].
  apply binary_round_nonneg.
Qed.

Lemma one_plus_positive (y : float) :
  SFnonneg (Prim2SF y) = true -> SFpositive (Prim2SF (1 + y)) = true.
Proof.
  rewrite FloatAxioms.add_spec.
  change (Prim2SF 1) with (S754_finite false 4503599627370496 (-52)).
  pose proof (Prim2SF_valid y) as V.
  destruct (Prim2SF y) as [s|s| |s m e]; cbn [SFnonneg]; intro H; try discriminate H;
    try (apply negb_true_iff in H; subst s); try reflexivity.
  unfold SF64add, SFadd. cbn [cond_Zopp].
  cbn [valid_binary] in V. unfold bounded, canonical_mantissa, fexp in V.
  apply andb_true_iff in V. destruct V as [C _]. apply Z.eqb_eq in C.
  apply binary_round_positive.
  unfold SpecFloat.emin, prec, emax in *. lia.
Qed.

Lemma sqrtrem_pos (n : Z) : (0 < n)%Z -> (0 < fst (Z.sqrtrem n))%Z.
Proof.
  intro H. pose proof (Z.sqrtrem_spec n ltac:(lia)) as S.
  destruct (Z.sqrtrem n) as [q r]. cbn [fst]. nia.
Qed.

Lemma sqrt_core_positive (m : positive) (e : Z) :
  (emin <= e)%Z ->
  let '(q, e', l) := SFsqrt_core_binary prec emax (Z.pos m) e in
  (0 < q)%Z /\ (emin <= e')%Z.
Proof.
  intro He. unfold SFsqrt_core_binary.
  set (e' := Z.min (fexp prec emax (Z.div2 (Zdigits2 (Z.pos m) + e + 1))) (Z.div2 e)).
  assert (D : (2 * Z.div2 e <= e)%Z).
  { pose proof (Z.div2_odd e) as O. destruct (Z.odd e); cbn [Z.b2z] in O; lia. }
  assert (D' : (emin <= Z.div2 e)%Z).
  { pose proof (Z.div2_odd e) as O. unfold SpecFloat.emin, prec, emax in *.
    destruct (Z.odd e); cbn [Z.b2z] in O; lia. }
  assert (E : (emin <= e')%Z) by (unfold e', fexp; lia).
  assert (S : (0 <= e - 2 * e')%Z) by (unfold e'; lia).
  set (m' := match (e - 2 * e')%Z with
             | 0%Z => Z.pos m
             | Z.pos _ => Z.shiftl (Z.pos m) (e - 2 * e')
             | Z.neg _ => 0%Z
             end).
  assert (Hm : (0 < m')%Z).
  { unfold m'. destruct (e - 2 * e')%Z as [|p|p] eqn:Es; [lia| |lia].
    rewrite Z.shiftl_mul_pow2 by lia.
    apply Z.mul_pos_pos; [lia|apply Z.pow_pos_nonneg; lia]. }
  pose proof (sqrtrem_pos m' Hm) as Q.
  destruct (Z.sqrtrem m') as [q r]. cbn [fst] in Q. split; assumption.
Qed.

Lemma sqrt_positive (y : float) :
  SFpositive (Prim2SF y) = true -> SFpositive (Prim2SF (Math.sqrt y)) = true.
Proof.
  unfold Math.sqrt. rewrite FloatAxioms.sqrt_spec.
  pose proof (Prim2SF_valid y) as V.
  destruct (Prim2SF y) as [s|s| |s m e]; cbn [SFpositive]; intro H; try discriminate H;
    destruct s; try discriminate H; try reflexivity.
  unfold SF64sqrt, SFsqrt.
  cbn [valid_binary] in V. unfold bounded, canonical_mantissa, fexp in V.
  apply andb_true_iff in V. destruct V as [C _]. apply Z.eqb_eq in C.
  assert (He : (emin <= e)%Z) by lia.
  pose proof (sqrt_core_positive m e He) as K.
  destruct (SFsqrt_core_binary prec emax (Z.pos m) e) as [[q e'] l].
  destruct K as [Q E]. apply binary_round_aux_positive; assumption.
Qed.

Lemma sqrt_nonneg (y : float) :
  SFnonneg (Prim2SF y) = true -> SFnonneg (Prim2SF (Math.sqrt y)) = true.
Proof.
  intro H. destruct (SFpositive (Prim2SF y)) eqn:P.
  - apply SFpositive_nonneg, sqrt_positive, P.
  - unfold Math.sqrt. rewrite FloatAxioms.sqrt_spec.
    destruct (Prim2SF y) as [s|s| |s m e]; try discriminate H; try reflexivity;
      destruct s; try discriminate H; discriminate P.
Qed.

Lemma SFnonneg_not_nan (x : float) : SFnonneg (Prim2SF x) = true -> is_nan x = false.
Proof.
  intro H. apply is_nan_false_Prim2SF. intro E. rewrite E in H. discriminate H.
Qed.

(** The square root is never below zero. *)
Lemma sqrt_not_negative (y : float) : (Math.sqrt y <? 0) = false.
Proof.
  unfold Math.sqrt. rewrite FloatAxioms.ltb_spec, FloatAxioms.sqrt_spec.
  change (Prim2SF 0) with (S754_zero false).
  destruct (Prim2SF y) as [s|s| |s m e]; try reflexivity;
    destruct s; try reflexivity.
  unfold SF64sqrt, SFsqrt.
  destruct (SFsqrt_core_binary prec emax (Z.pos m) e) as [[q e'] l].
  pose proof (binary_round_aux_sign false q e' l) as S.
  destruct (binary_round_aux prec emax false q e' l); try rewrite S; reflexivity.
Qed.

Lemma mul_positive_not_nan (u v : float) :
  is_nan u = false -> (u =? 0) = false -> SFpositive (Prim2SF v) = true ->
  is_nan (u * v) = false.
Proof.
  intros N Z P. apply is_nan_false_Prim2SF. apply is_nan_false_Prim2SF in N.
  rewrite FloatAxioms.eqb_spec in Z. change (Prim2SF 0) with (S754_zero false) in Z.
  rewrite FloatAxioms.mul_spec.
  destruct (Prim2SF u) as [su|su| |su mu eu], (Prim2SF v) as [sv|sv| |sv mv ev];
    try discriminate P; try congruence; try discriminate Z; try discriminate.
  apply binary_round_aux_not_nan. lia.
Qed.

Lemma div_finite_not_nan (u v : float) :
  is_finite u = true -> is_finite v = true -> (v =? 0) = false -> is_nan (u / v) = false.
Proof.
  intros Fu Fv Z. apply is_nan_false_Prim2SF. rewrite FloatAxioms.div_spec.
  rewrite FloatAxioms.eqb_spec in Z. change (Prim2SF 0) with (S754_zero false) in Z.
  destruct (finite_Prim2SF u Fu) as [[su Eu]|[su [mu [eu Eu]]]];
    destruct (finite_Prim2SF v Fv) as [[sv Ev]|[sv [mv [ev Ev]]]];
    rewrite Eu, Ev in *; try discriminate Z; try discriminate.
  unfold SF64div, SFdiv, SFdiv_core_binary.
  set (s := (eu - ev - _)%Z).
  set (m' := match s with 0%Z => Z.pos mu | Z.pos _ => Z.shiftl (Z.pos mu) s | Z.neg _ => 0%Z end).
  assert (Hm : (0 <= m')%Z).
  { unfold m'. destruct s as [|p|p]; try lia. apply Z.shiftl_nonneg. lia. }
  pose proof (Z.div_eucl_eq m' (Z.pos mv) ltac:(lia)) as D.
  pose proof (Z.mod_pos_bound m' (Z.pos mv) ltac:(lia)) as R. unfold Z.modulo in R.
  destruct (Z.div_eucl m' (Z.pos mv)) as [q r].
  apply binary_round_aux_not_nan. nia.
Qed.

(** ** The range of the magnitude *)

Lemma is_nan_abs (x : float) : is_nan (Math.abs x) = is_nan x.
Proof.
  destruct (is_nan x) eqn:N.
  - apply is_nan_eq in N. subst x. reflexivity.
  - destruct (is_nan (Math.abs x)) eqn:A; [|reflexivity].
    apply abs_is_nan in A. subst x. discriminate N.
Qed.

Lemma abs_eqb_zero (x : float) : (Math.abs x =? 0) = (x =? 0).
Proof.
  unfold Math.abs. rewrite !FloatAxioms.eqb_spec, FloatAxioms.abs_spec.
  destruct (Prim2SF x) as [s|s| |s m e]; try reflexivity; destruct s; reflexivity.
Qed.

Lemma infinite_cases (x : float) : is_infinite x = true -> x = infinity \/ x = neg_infinity.
Proof.
  intro H. apply infinite_Prim2SF in H. destruct H as [s H].
  destruct s; [right|left]; apply Prim2SF_inj; rewrite H; reflexivity.
Qed.

Lemma ltb_infinity_l (y : float) : (infinity <? y) = false.
Proof.
  rewrite FloatAxioms.ltb_spec. change (Prim2SF infinity) with (S754_infinity false).
  destruct (Prim2SF y) as [s|s| |s m e]; try reflexivity; destruct s; reflexivity.
Qed.

Lemma finite_ltb_infinity (y : float) : is_finite y = true -> (Math.abs y <? infinity) = true.
Proof.
  intro F. unfold Math.abs. rewrite FloatAxioms.ltb_spec, FloatAxioms.abs_spec.
  change (Prim2SF infinity) with (S754_infinity false).
  destruct (finite_Prim2SF y F) as [[s ->]|[s [m [e ->]]]]; reflexivity.
Qed.

Lemma finite_div_infinite (y d : float) :
  is_finite y = true -> is_infinite d = true -> (y / d =? 0) = true.
Proof.
  intros F I. apply is_zero_Prim2SF. rewrite FloatAxioms.div_spec.
  apply infinite_Prim2SF in I. destruct I as [sd ->].
  destruct (finite_Prim2SF y F) as [[s ->]|[s [m [e ->]]]]; eexists; reflexivity.
Qed.

Lemma not_finite_cases (x : float) :
  is_finite x = false -> x = nan \/ is_infinite x = true.
Proof.
  unfold is_finite. intro H. apply andb_false_iff in H. destruct H as [H|H].
  - left. apply is_nan_eq. apply negb_false_iff, H.
  - right. apply negb_false_iff, H.
Qed.

Lemma mul_not_negative (u v : float) :
  (u <? 0) = false -> (v <? 0) = false -> (u * v <? 0) = false.
Proof.
  rewrite !FloatAxioms.ltb_spec, FloatAxioms.mul_spec.
  change (Prim2SF 0) with (S754_zero false).
  destruct (Prim2SF u) as [su|su| |su mu eu], (Prim2SF v) as [sv|sv| |sv mv ev];
    intros Hu Hv; try reflexivity;
    try (destruct su; try discriminate Hu); try (destruct sv; try discriminate Hv);
    try reflexivity.
  unfold SF64mul, SFmul. cbn [xorb].
  pose proof (binary_round_aux_sign false (Z.pos (mu * mv)) (eu + ev) loc_Exact) as S.
  destruct (binary_round_aux prec emax false _ _ _); try rewrite S; reflexivity.
Qed.

Lemma abs_float_not_negative (x : float) : (Math.abs x <? 0) = false.
Proof.
  unfold Math.abs. rewrite FloatAxioms.ltb_spec, FloatAxioms.abs_spec.
  destruct (Prim2SF x); reflexivity.
Qed.

Lemma zero_ltb_abs (i : float) :
  is_nan i = false -> (0 <? Math.abs i) = false -> (i =? 0) = true.
Proof.
  unfold Math.abs. intro N. apply is_nan_false_Prim2SF in N.
  rewrite FloatAxioms.ltb_spec, FloatAxioms.eqb_spec, FloatAxioms.abs_spec.
  change (Prim2SF 0) with (S754_zero false).
  destruct (Prim2SF i) as [s|s| |s m e]; try congruence; intro H; try discriminate H.
  reflexivity.
Qed.

Lemma abs_ltb_abs_nonzero (r i : float) :
  (Math.abs r <? Math.abs i) = true -> (i =? 0) = false.
Proof.
  unfold Math.abs. rewrite FloatAxioms.ltb_spec, FloatAxioms.eqb_spec, !FloatAxioms.abs_spec.
  change (Prim2SF 0) with (S754_zero false).
  destruct (Prim2SF r) as [sr|sr| |sr mr er], (Prim2SF i) as [si|si| |si mi ei];
    intro H; try discriminate H; try reflexivity; destruct si; reflexivity.
Qed.

Lemma scaled_not_nan (u q : float) :
  is_nan u = false -> (u =? 0) = false -> is_nan q = false ->
  is_nan (u * Math.sqrt (1 + q * q)) = false.
Proof.
  intros Nu Zu Nq. apply mul_positive_not_nan; [exact Nu|exact Zu|].
  apply sqrt_positive, one_plus_positive, mul_self_nonneg, Nq.
Qed.

Lemma abs_finite_not_nan (r i : float) :
  is_finite r = true -> is_finite i = true -> is_nan (abs (mkComplex r i)) = false.
Proof.
  intros Fr Fi. pose proof (finite_not_nan _ Fr) as Nr. pose proof (finite_not_nan _ Fi) as Ni.
  unfold abs. cbn [re im].
  destruct ((Math.abs r <? 1000) && (Math.abs i <? 1000)) eqn:B.
  - apply SFnonneg_not_nan, sqrt_nonneg, add_nonneg; apply mul_self_nonneg;
      rewrite is_nan_abs; assumption.
  - destruct (Math.abs r <? Math.abs i) eqn:L.
    + pose proof (abs_ltb_abs_nonzero r i L) as Zi.
      apply scaled_not_nan.
      * rewrite is_nan_abs. exact Ni.
      * rewrite abs_eqb_zero. exact Zi.
      * apply div_finite_not_nan; assumption.
    + assert (Zr : (r =? 0) = false).
      { destruct (r =? 0) eqn:Zr; [exfalso|reflexivity].
        assert (A : Math.abs r = 0).
        { destruct (eqb_0_true r Zr) as [-> | ->]; reflexivity. }
        rewrite A in L, B. pose proof (zero_ltb_abs i Ni L) as Zi.
        assert (A' : Math.abs i = 0).
        { destruct (eqb_0_true i Zi) as [-> | ->]; reflexivity. }
        rewrite A' in B. discriminate B. }
      apply scaled_not_nan.
      * rewrite is_nan_abs. exact Nr.
      * rewrite abs_eqb_zero. exact Zr.
      * apply div_finite_not_nan; assumption.
Qed.

Lemma abs_infinite_re (r i : float) :
  is_infinite r = true -> is_finite i = true -> abs (mkComplex r i) = infinity.
Proof.
  intros Ir Fi. unfold abs. cbn [re im].
  assert (A : Math.abs r = infinity).
  { destruct (infinite_cases r Ir) as [-> | ->]; reflexivity. }
  rewrite A. change (infinity <? 1000) with false. cbn [andb].
  rewrite ltb_infinity_l.
  pose proof (finite_div_infinite i r Fi Ir) as Z.
  destruct (eqb_0_true _ Z) as [-> | ->]; reflexivity.
Qed.

Lemma abs_infinite_im (r i : float) :
  is_finite r = true -> is_infinite i = true -> abs (mkComplex r i) = infinity.
Proof. intros Fr Ii. rewrite abs_symmetric. apply abs_infinite_re; assumption. Qed.

Lemma abs_both_infinite (r i : float) :
  is_infinite r = true -> is_infinite i = true -> abs (mkComplex r i) = nan.
Proof.
  intros Ir Ii.
  destruct (infinite_cases r Ir) as [-> | ->];
    destruct (infinite_cases i Ii) as [-> | ->]; reflexivity.
Qed.

Lemma abs_never_negative (x : complex) : (abs x <? 0) = false.
Proof.
  unfold abs.
  destruct ((Math.abs (re x) <? 1000) && (Math.abs (im x) <? 1000));
    [apply sqrt_not_negative|].
  destruct (Math.abs (re x) <? Math.abs (im x));
    apply mul_not_negative; try apply abs_float_not_negative; apply sqrt_not_negative.
Qed.

Lemma is_finite_split (x : float) :
  is_nan x = false -> is_finite x = negb (is_infinite x).
Proof. unfold is_finite. intros ->. reflexivity. Qed.

(** X14. [abs] is never below zero. On a value the constructor builds it
    is [NaN] exactly when both fields are infinite, and [Infinity] when one
    field is infinite and the other finite. *)
Theorem abs_range (x : complex) :
  (abs x <? 0) = false
  /\ (JS.isNaN (re x * im x) = false ->
      is_nan (abs x) = is_infinite (re x) && is_infinite (im x))
  /\ (is_finite (re x) = true -> is_infinite (im x) = true -> abs x = infinity)
  /\ (is_infinite (re x) = true -> is_finite (im x) = true -> abs x = infinity).
Proof.
  destruct x as [r i]. cbn [re im].
  split; [apply abs_never_negative|].
  split; [|split; [apply abs_infinite_im|apply abs_infinite_re]].
  intro V. destruct (mul_not_nan _ _ V) as [Nr Ni].
  pose proof (is_finite_split r Nr) as Fr. pose proof (is_finite_split i Ni) as Fi.
  destruct (is_infinite r) eqn:Ir, (is_infinite i) eqn:Ii; cbn [negb andb] in *.
  - rewrite abs_both_infinite by assumption. reflexivity.
  - rewrite abs_infinite_re by assumption. reflexivity.
  - rewrite abs_infinite_im by assumption. reflexivity.
  - apply abs_finite_not_nan; assumption.
Qed.

Lemma abs_range_witness :
  (JS.isNaN (neg_infinity * infinity) = false
   /\ is_nan (abs (mkComplex neg_infinity infinity)) = true)
  /\ (JS.isNaN (1e308 * 1e308) = false /\ is_nan (abs (mkComplex 1e308 1e308)) = false)
  /\ (is_finite 3 = true /\ is_infinite neg_infinity = true
      /\ abs (mkComplex 3 neg_infinity) = infinity).
Proof.
  split; [|split].
  - split; [reflexivity|].
    exact (proj1 (proj2 (abs_range (mkComplex neg_infinity infinity)))
             eq_refl).
  - split; [reflexivity|].
    exact (proj1 (proj2 (abs_range (mkComplex 1e308 1e308))) eq_refl).
  - split; [reflexivity|]. split; [reflexivity|].
    exact (proj1 (proj2 (proj2 (abs_range (mkComplex 3 neg_infinity))))
             eq_refl eq_refl).
Defined.

(** ** Roots and signs *)

Lemma zero_ltb_opp (s : float) : (0 <? - s) = (s <? 0).
Proof.
  rewrite !FloatAxioms.ltb_spec, FloatAxioms.opp_spec.
  change (Prim2SF 0) with (S754_zero false).
  destruct (Prim2SF s) as [b|b| |b m e]; try reflexivity; destruct b; reflexivity.
Qed.

Lemma mul_minus_one (x : float) : x * -1 = - x.
Proof. change (-1) with (- (1)). rewrite mul_opp_r, mul_one. reflexivity. Qed.

Lemma div_nan_is_nan_r (x y : float) : is_nan y = true -> is_nan (x / y) = true.
Proof. intro H. apply is_nan_eq in H. subst y. rewrite div_nan_r. reflexivity. Qed.

Lemma infinite_div_infinity (x : float) : is_infinite x = true -> x / infinity = nan.
Proof. intro I. destruct (infinite_cases x I) as [-> | ->]; reflexivity. Qed.

Lemma zero_div_zero (x : float) : (x =? 0) = true -> x / 0 = nan.
Proof. intro Z. destruct (eqb_0_true x Z) as [-> | ->]; reflexivity. Qed.

Lemma abs_at_zero (r i : float) :
  (r =? 0) = true -> (i =? 0) = true -> abs (mkComplex r i) = 0.
Proof.
  intros Zr Zi.
  destruct (eqb_0_true _ Zr) as [-> | ->]; destruct (eqb_0_true _ Zi) as [-> | ->];
    reflexivity.
Qed.

Section Roots.

Context {M : Math.lib}.

Lemma sqrt_run (x : complex) (P : scratch) :
  fst (sqrt x P) =
  construct (Math.sqrt ((abs x + re x) * 0.5))
            (Math.sqrt ((abs x - re x) * 0.5) * heaviside (im x)).
Proof. unfold sqrt. apply Complex_pair. Qed.

Lemma sign_run (x : complex) (P : scratch) :
  fst (sign x P) = construct (re x / abs x) (im x / abs x).
Proof. unfold sign. apply Complex_pair. Qed.

End Roots.

(** X16. [sign] throws "Invalid Param" at zero (either sign of either
    field) and at every value with a field that is not finite; [sqrt]
    throws it when both fields are infinite. *)
Theorem sign_throws {M : Math.lib} (x : complex) :
  ((re x =? 0) && (im x =? 0) = true -> raises (sign x) INVALID_PARAM)
  /\ (is_finite (re x) && is_finite (im x) = false -> raises (sign x) INVALID_PARAM)
  /\ (is_infinite (re x) && is_infinite (im x) = true -> raises (sqrt x) INVALID_PARAM).
Proof.
  destruct x as [r i]. cbn [re im].
  assert (T : is_nan (r / abs (mkComplex r i)) = true \/ is_nan (i / abs (mkComplex r i)) = true
              -> raises (sign (mkComplex r i)) INVALID_PARAM).
  { intros H P. rewrite sign_run. cbn [re im]. unfold construct, JS.isNaN.
    destruct H as [H|H]; apply is_nan_eq in H; rewrite H, ?mul_nan_l, ?mul_nan_r; reflexivity. }
  split; [|split].
  - intro Z. apply andb_true_iff in Z. destruct Z as [Zr Zi]. apply T. left.
    rewrite (abs_at_zero r i Zr Zi).
    rewrite (zero_div_zero r Zr). reflexivity.
  - intro F. apply T.
    destruct (is_finite r) eqn:Fr.
    + cbn [andb] in F. destruct (not_finite_cases i F) as [-> | Ii].
      * right. rewrite div_nan_l. reflexivity.
      * right. rewrite (abs_infinite_im r i Fr Ii), (infinite_div_infinity i Ii). reflexivity.
    + destruct (not_finite_cases r Fr) as [-> | Ir]; [left; rewrite div_nan_l; reflexivity|].
      destruct (is_finite i) eqn:Fi.
      * left. rewrite (abs_infinite_re r i Ir Fi), (infinite_div_infinity r Ir). reflexivity.
      * destruct (not_finite_cases i Fi) as [-> | Ii].
        -- right. rewrite div_nan_l. reflexivity.
        -- left. rewrite (abs_both_infinite r i Ir Ii), div_nan_r. reflexivity.
  - intro I. apply andb_true_iff in I. destruct I as [Ir Ii]. intro P.
    rewrite sqrt_run. rewrite (abs_both_infinite r i Ir Ii). cbn [re im].
    rewrite add_nan_l, mul_nan_l. change (Math.sqrt nan) with nan.
    unfold construct. rewrite mul_nan_l. reflexivity.
Qed.

Lemma sign_throws_witness :
  ((neg_zero =? 0) && (0 =? 0) = true
   /\ raises (sign (M := RefMath.engine) (mkComplex neg_zero 0)) INVALID_PARAM)
  /\ (is_finite 3 && is_finite infinity = false
      /\ raises (sign (M := RefMath.engine) (mkComplex 3 infinity)) INVALID_PARAM)
  /\ (is_infinite infinity && is_infinite neg_infinity = true
      /\ raises (sqrt (M := RefMath.engine) (mkComplex infinity neg_infinity)) INVALID_PARAM).
Proof.
  split; [|split]; (split; [reflexivity|]).
  - exact (proj1 (sign_throws (M := RefMath.engine) (mkComplex neg_zero 0)) eq_refl).
  - exact (proj1 (proj2 (sign_throws (M := RefMath.engine) (mkComplex 3 infinity))) eq_refl).
  - exact (proj2 (proj2 (sign_throws (M := RefMath.engine) (mkComplex infinity neg_infinity)))
             eq_refl).
Defined.

(** ** Comparison, rounding to places, real powers *)

Lemma binary_round_opp (s : bool) (p : positive) (e : Z) :
  binary_round prec emax (negb s) p e = SFopp (binary_round prec emax s p e).
Proof.
  unfold binary_round. destruct (shl_align p e _) as [mz ez].
  apply binary_round_aux_opp.
Qed.

Lemma SFabs_opp (x : spec_float) : SFabs (SFopp x) = SFabs x.
Proof. destruct x; reflexivity. Qed.

Lemma binary_normalize_abs_opp (z e : Z) :
  SFabs (binary_normalize prec emax (- z) e false) = SFabs (binary_normalize prec emax z e false).
Proof.
  destruct z as [|p|p]; [reflexivity| |]; cbn [Z.opp binary_normalize].
  - change true with (negb false). rewrite binary_round_opp. apply SFabs_opp.
  - change true with (negb false). rewrite binary_round_opp. symmetry. apply SFabs_opp.
Qed.

Lemma abs_sub_comm (x y : float) : Math.abs (x - y) = Math.abs (y - x).
Proof.
  unfold Math.abs. apply Prim2SF_inj.
  rewrite !FloatAxioms.abs_spec, !FloatAxioms.sub_spec.
  destruct (Prim2SF x) as [sx|sx| |sx mx ex], (Prim2SF y) as [sy|sy| |sy my ey];
    try reflexivity; try (destruct sx, sy; reflexivity).
  unfold SF64sub, SFsub. rewrite (Z.min_comm ey ex).
  rewrite <- binary_normalize_abs_opp. f_equal. f_equal. lia.
Qed.

(** X17. [equals] is symmetric on the values the constructor builds. It
    is not transitive: [(0,0)] equals [(1e-16,0)], which equals
    [(2e-16,0)], which [(0,0)] does not equal. *)
Theorem equals_symmetric {M : Math.lib} (x y : complex) :
  (JS.isNaN (re x * im x) = false -> JS.isNaN (re y * im y) = false ->
   forall P Q, fst (equals x (this_arg y) P) = fst (equals y (this_arg x) Q))
  /\ returns (equals (mkComplex 0 0) (this_arg (mkComplex 1e-16 0))) true
  /\ returns (equals (mkComplex 1e-16 0) (this_arg (mkComplex 2e-16 0))) true
  /\ returns (equals (mkComplex 0 0) (this_arg (mkComplex 2e-16 0))) false.
Proof.
  split; [|repeat split; intro P; rewrite equals_run; reflexivity].
  intros Vx Vy P Q. rewrite !equals_run, !operand_this, Vx, Vy.
  rewrite (abs_sub_comm (re y)), (abs_sub_comm (im y)). reflexivity.
Qed.

Lemma equals_symmetric_witness :
  JS.isNaN (0.1 * 3) = false /\ JS.isNaN (0.1 * infinity) = false
  /\ fst (equals (M := RefMath.engine) (mkComplex 0.1 3) (this_arg (mkComplex 0.1 infinity))
            (mkScratch 0 0))
     = fst (equals (M := RefMath.engine) (mkComplex 0.1 infinity) (this_arg (mkComplex 0.1 3))
              (mkScratch 1 1)).
Proof.
  split; [reflexivity|]. split; [reflexivity|].
  exact (proj1 (equals_symmetric (M := RefMath.engine) (mkComplex 0.1 3)
                  (mkComplex 0.1 infinity)) eq_refl eq_refl (mkScratch 0 0) (mkScratch 1 1)).
Defined.

(** ** Rounding to places *)

Lemma not_rounded_SFint (q : Z -> Z -> Z) (x : float) :
  not_rounded x = true -> SF2Prim (Math.SFint q (Prim2SF x)) = x.
Proof.
  unfold not_rounded. intro H.
  destruct (Prim2SF x) as [s|s| |s m e] eqn:E; try discriminate H;
    cbn [Math.SFint]; rewrite <- E; apply SF2Prim_Prim2SF.
Qed.

Lemma degenerate_quotient (f : float -> float) (r p : float) :
  (forall x, not_rounded x = true -> f x = x) ->
  (p =? 0) || negb (is_finite p) = true -> f (r * p) / p = nan.
Proof.
  intros Hf Hp.
  assert (S : not_rounded (r * p) = true /\ (r * p) / p = nan).
  { apply orb_true_iff in Hp. destruct Hp as [Z|F].
    - apply is_zero_Prim2SF in Z. destruct Z as [sp Ep].
      unfold not_rounded. split.
      + rewrite FloatAxioms.mul_spec, Ep. destruct (Prim2SF r); reflexivity.
      + apply Prim2SF_inj. rewrite FloatAxioms.div_spec, FloatAxioms.mul_spec, Ep.
        destruct (Prim2SF r); reflexivity.
    - apply negb_true_iff in F. destruct (not_finite_cases p F) as [-> | I].
      + rewrite mul_nan_r, div_nan_l. split; reflexivity.
      + apply infinite_Prim2SF in I. destruct I as [sp Ep].
        unfold not_rounded. split.
        * rewrite FloatAxioms.mul_spec, Ep. destruct (Prim2SF r); reflexivity.
        * apply Prim2SF_inj. rewrite FloatAxioms.div_spec, FloatAxioms.mul_spec, Ep.
          destruct (Prim2SF r); reflexivity. }
  destruct S as [S1 S2]. rewrite (Hf _ S1). exact S2.
Qed.

(** X19. When [Math.pow(10, places)] is zero, infinite or [NaN] (a
    number of places beyond the exponent range of a double), [ceil],
    [floor] and [round] throw "Invalid Param" for every value. *)
Theorem rounding_places_out_of_range {M : Math.lib} (x : complex) (places : option float) :
  (Math.pow 10 (places_or_0 places) =? 0)
  || negb (is_finite (Math.pow 10 (places_or_0 places))) = true ->
  raises (ceil x places) INVALID_PARAM
  /\ raises (floor x places) INVALID_PARAM
  /\ raises (round x places) INVALID_PARAM.
Proof.
  intro H. repeat split; intro P; unfold ceil, floor, round; rewrite Complex_pair.
  - rewrite (degenerate_quotient Math.ceil (re x) _ (not_rounded_SFint _) H).
    unfold construct. rewrite mul_nan_l. reflexivity.
  - rewrite (degenerate_quotient Math.floor (re x) _ (not_rounded_SFint _) H).
    unfold construct. rewrite mul_nan_l. reflexivity.
  - rewrite (degenerate_quotient Math.round (re x) _ (not_rounded_SFint _) H).
    unfold construct. rewrite mul_nan_l. reflexivity.
Qed.

Lemma rounding_places_out_of_range_witness :
  (Math.pow (lib := RefMath.engine) 10 (places_or_0 (Some 400)) = infinity
   /\ raises (round (M := RefMath.engine) (mkComplex 1.5 2.5) (Some 400)) INVALID_PARAM)
  /\ (Math.pow (lib := RefMath.engine) 10 (places_or_0 (Some (-400))) = 0
      /\ raises (floor (M := RefMath.engine) (mkComplex 1.5 2.5) (Some (-400))) INVALID_PARAM).
Proof.
  split.
  - split; [vm_compute; reflexivity|].
    apply (rounding_places_out_of_range (M := RefMath.engine) (mkComplex 1.5 2.5) (Some 400)).
    vm_compute. reflexivity.
  - split; [vm_compute; reflexivity|].
    apply (rounding_places_out_of_range (M := RefMath.engine) (mkComplex 1.5 2.5) (Some (-400))).
    vm_compute. reflexivity.
Defined.

(** X21. A base on the positive real axis raised to a real exponent
    gives [(Math.pow(x.re, y.re), 0)], the imaginary part an exact zero,
    when that power is finite; when it is infinite or [NaN] [pow] throws
    "Invalid Param". *)
Theorem pow_real_base {M : Math.lib} (x : complex) (a : args) (y : complex) :
  returns (Complex a) y ->
  (0 <? re x) = true -> (im x =? 0) = true -> (im y =? 0) = true ->
  yields (pow x a) (construct (Math.pow (re x) (re y)) 0)
  /\ (is_finite (Math.pow (re x) (re y)) = true ->
      returns (pow x a) (mkComplex (Math.pow (re x) (re y)) 0))
  /\ (is_finite (Math.pow (re x) (re y)) = false -> raises (pow x a) INVALID_PARAM).
Proof.
  intros Hy Pr Zi Zd. apply returns_operand in Hy.
  assert (Zr : (re x =? 0) = false).
  { rewrite FloatAxioms.ltb_spec in Pr. rewrite FloatAxioms.eqb_spec.
    change (Prim2SF 0) with (S754_zero false) in *.
    destruct (Prim2SF (re x)) as [s|s| |s m e]; try discriminate Pr;
      destruct s; try discriminate Pr; reflexivity. }
  assert (Nn : (0 <=? re x) = true).
  { rewrite FloatAxioms.ltb_spec in Pr. rewrite FloatAxioms.leb_spec.
    unfold SFltb in Pr. unfold SFleb. destruct (SFcompare _ _) as [[| |]|]; try discriminate Pr.
    reflexivity. }
  assert (Y : yields (pow x a) (construct (Math.pow (re x) (re y)) 0)).
  { intro P. exact (pow_real_run x a (re y) (im y) P Hy Zr Zi Nn Zd). }
  split; [exact Y|]. split; intros F P; rewrite Y; unfold construct, JS.isNaN;
    rewrite mul_zero_is_nan, F; reflexivity.
Qed.

Lemma pow_real_base_witness :
  returns (Complex (M := RefMath.engine) (ArgsNumber 400)) (mkComplex 400 0)
  /\ (0 <? 10) = true /\ (0 =? 0) = true
  /\ Math.pow (lib := RefMath.engine) 10 400 = infinity
  /\ raises (pow (M := RefMath.engine) (mkComplex 10 0) (ArgsNumber 400)) INVALID_PARAM.
Proof.
  assert (H : returns (Complex (M := RefMath.engine) (ArgsNumber 400)) (mkComplex 400 0)).
  { intro P. rewrite Complex_run. reflexivity. }
  split; [exact H|]. split; [reflexivity|]. split; [reflexivity|].
  split; [vm_compute; reflexivity|].
  apply (proj2 (proj2 (pow_real_base (M := RefMath.engine) (mkComplex 10 0) (ArgsNumber 400)
                         (mkComplex 400 0) H eq_refl eq_refl eq_refl))).
  vm_compute. reflexivity.
Defined.

(** ** Integers are fixed by the rounding functions *)

Lemma Zdigits2_bounds (p : positive) :
  (2 ^ (Zdigits2 (Z.pos p) - 1) <= Z.pos p < 2 ^ Zdigits2 (Z.pos p))%Z.
Proof.
  cbn [Zdigits2]. rewrite digits2_pos_size.
  pose proof (Pos.size_gt p) as G. pose proof (Pos.size_le p) as L.
  assert (G' : (Z.pos p < 2 ^ Z.pos (Pos.size p))%Z).
  { rewrite <- (Pos2Z.inj_pow 2). apply Pos2Z.pos_lt_pos, G. }
  assert (L' : (2 ^ Z.pos (Pos.size p) <= 2 * Z.pos p)%Z).
  { rewrite <- (Pos2Z.inj_pow 2). apply (Pos2Z.pos_le_pos _ (p~0)), L. }
  split; [|exact G'].
  replace (Z.pos (Pos.size p)) with (Z.pos (Pos.size p) - 1 + 1)%Z in L' by lia.
  rewrite Z.pow_add_r in L' by lia. lia.
Qed.

Lemma Zdigits2_le (p m : positive) :
  (Z.pos p <= Z.pos m)%Z -> (Zdigits2 (Z.pos p) <= Zdigits2 (Z.pos m))%Z.
Proof.
  intro H. pose proof (Zdigits2_bounds p) as Bp. pose proof (Zdigits2_bounds m) as Bm.
  assert (L : (2 ^ (Zdigits2 (Z.pos p) - 1) < 2 ^ Zdigits2 (Z.pos m))%Z) by lia.
  apply Z.pow_lt_mono_r_iff in L; [lia|lia|].
  cbn [Zdigits2]. lia.
Qed.

(** An integer of at most 53 bits is represented as it is. *)
Lemma binary_round_int (sx : bool) (p : positive) :
  (Z.pos (digits2_pos p) <= 53)%Z ->
  exists mz j, (0 <= j)%Z /\ Z.pos mz = (Z.pos p * 2 ^ j)%Z
               /\ bounded prec emax mz (- j) = true
               /\ binary_round prec emax sx p 0 = S754_finite sx mz (- j).
Proof.
  intro D.
  set (j := (53 - Z.pos (digits2_pos p))%Z).
  exists (fst (shl_align p 0 (- j))), j.
  assert (V : Z.pos (fst (shl_align p 0 (- j))) = (Z.pos p * 2 ^ j)%Z).
  { rewrite shl_align_value by (unfold j; lia). f_equal. f_equal. lia. }
  assert (B : bounded prec emax (fst (shl_align p 0 (- j))) (- j) = true).
  { unfold bounded, canonical_mantissa. apply andb_true_iff. split.
    - apply Z.eqb_eq.
      change (Z.pos (digits2_pos (fst (shl_align p 0 (- j)))))
        with (Zdigits2 (Z.pos (fst (shl_align p 0 (- j))))).
      rewrite V, Zdigits2_mul_pow2 by (unfold j; lia). cbn [Zdigits2].
      unfold fexp, SpecFloat.emin, prec, emax, j. lia.
    - apply Z.leb_le. unfold prec, emax, j. lia. }
  split; [unfold j; lia|]. split; [exact V|]. split; [exact B|].
  unfold binary_round.
  replace (fexp prec emax (Z.pos (digits2_pos p) + 0)) with (- j)%Z
    by (unfold fexp, SpecFloat.emin, prec, emax, j; lia).
  assert (S : snd (shl_align p 0 (- j)) = (- j)%Z).
  { unfold shl_align. destruct (- j - 0)%Z as [|d|d] eqn:E; cbn [snd]; lia. }
  destruct (shl_align p 0 (- j)) as [mz ez]. cbn [fst snd] in *. subst ez.
  replace (Z.pos mz) with (Z.pos mz * 2 ^ 0)%Z by lia.
  replace (- j)%Z with (- j - 0)%Z at 1 by lia.
  apply round_exact; [exact B|lia].
Qed.

Section Integers.

(** [q] maps the signed mantissa and the denominator to the integer, as the
    three rounding functions do. *)
Variable q : Z -> Z -> Z.
Hypothesis q_exact : forall n d, (0 < d)%Z -> q (n * d)%Z d = n.
Hypothesis q_bound : forall v d, (2 <= d)%Z -> (Z.abs (q v d) <= Z.abs v)%Z.

Lemma normalize_int (n : Z) (s : bool) (m : positive) :
  (Z.abs n <= Z.pos m)%Z -> (Z.pos (digits2_pos m) <= 53)%Z ->
  (n = 0%Z /\ binary_normalize prec emax n 0 s = S754_zero s)
  \/ exists mz j, (0 <= j)%Z /\ cond_Zopp (n <? 0)%Z (Z.pos mz) = (n * 2 ^ j)%Z
                  /\ bounded prec emax mz (- j) = true
                  /\ binary_normalize prec emax n 0 s = S754_finite (n <? 0)%Z mz (- j).
Proof.
  intros Hn Dm. destruct n as [|p|p]; [left; split; reflexivity| |]; right.
  - assert (D : (Z.pos (digits2_pos p) <= 53)%Z).
    { pose proof (Zdigits2_le p m ltac:(lia)). cbn [Zdigits2] in *. lia. }
    destruct (binary_round_int false p D) as [mz [j [Hj [V [B E]]]]].
    exists mz, j. cbn [binary_normalize Z.ltb Z.compare cond_Zopp]. auto.
  - assert (D : (Z.pos (digits2_pos p) <= 53)%Z).
    { pose proof (Zdigits2_le p m ltac:(lia)). cbn [Zdigits2] in *. lia. }
    destruct (binary_round_int true p D) as [mz [j [Hj [V [B E]]]]].
    exists mz, j. cbn [binary_normalize Z.ltb Z.compare cond_Zopp].
    split; [exact Hj|]. split; [lia|]. auto.
Qed.

Lemma SFint_fixed (X : spec_float) :
  valid_binary X = true ->
  valid_binary (Math.SFint q X) = true /\ Math.SFint q (Math.SFint q X) = Math.SFint q X.
Proof.
  intro V. destruct X as [s|s| |s m e]; try (split; [exact V|reflexivity]).
  cbn [Math.SFint]. destruct (0 <=? e)%Z eqn:E.
  { split; [exact V|]. cbn [Math.SFint]. rewrite E. reflexivity. }
  apply Z.leb_gt in E.
  assert (Dm : (Z.pos (digits2_pos m) <= 53)%Z).
  { cbn [valid_binary] in V. unfold bounded, canonical_mantissa, fexp in V.
    apply andb_true_iff in V. destruct V as [C _]. apply Z.eqb_eq in C.
    unfold prec in C. lia. }
  set (n := q (cond_Zopp s (Z.pos m)) (2 ^ (- e))).
  assert (Hn : (Z.abs n <= Z.pos m)%Z).
  { unfold n. etransitivity; [apply q_bound|].
    - change 2%Z with (2 ^ 1)%Z at 1. apply Z.pow_le_mono_r; lia.
    - destruct s; cbn [cond_Zopp]; lia. }
  destruct (normalize_int n s m Hn Dm) as [[Z0 N]|[mz [j [Hj [W [B N]]]]]]; rewrite N.
  - split; reflexivity.
  - split; [exact B|]. cbn [Math.SFint].
    destruct (0 <=? - j)%Z eqn:J; [reflexivity|]. apply Z.leb_gt in J.
    rewrite W, Z.opp_involutive, q_exact by (apply Z.pow_pos_nonneg; lia).
    destruct (normalize_int n (n <? 0)%Z m Hn Dm) as [[Z0 N']|[mz' [j' [_ [_ [_ N']]]]]].
    + subst n. rewrite Z0 in W. destruct (0 <? 0)%Z; cbn [cond_Zopp] in W; lia.
    + rewrite N' in *. 
      destruct n as [|p|p]; cbn [binary_normalize] in *; congruence.
Qed.

End Integers.

Lemma floor_exact (n d : Z) : (0 < d)%Z -> (n * d / d = n)%Z.
Proof. intro H. apply Z.div_mul. lia. Qed.

Lemma floor_bound (v d : Z) : (2 <= d)%Z -> (Z.abs (v / d) <= Z.abs v)%Z.
Proof.
  intro H. pose proof (Z.div_mod v d ltac:(lia)) as E.
  pose proof (Z.mod_pos_bound v d ltac:(lia)) as R. nia.
Qed.

Lemma ceil_exact (n d : Z) : (0 < d)%Z -> (- (- (n * d) / d) = n)%Z.
Proof.
  intro H. replace (- (n * d))%Z with ((- n) * d)%Z by ring.
  rewrite Z.div_mul by lia. lia.
Qed.

Lemma ceil_bound (v d : Z) : (2 <= d)%Z -> (Z.abs (- (- v / d)) <= Z.abs v)%Z.
Proof.
  intro H. pose proof (floor_bound (- v) d H). lia.
Qed.

Lemma round_exact_int (n d : Z) : (0 < d)%Z -> ((2 * (n * d) + d) / (2 * d) = n)%Z.
Proof.
  intro H. symmetry. apply (Z.div_unique _ _ n d); nia.
Qed.

Lemma round_bound (v d : Z) : (2 <= d)%Z -> (Z.abs ((2 * v + d) / (2 * d)) <= Z.abs v)%Z.
Proof.
  intro H. pose proof (Z.div_mod (2 * v + d) (2 * d) ltac:(lia)) as E.
  pose proof (Z.mod_pos_bound (2 * v + d) (2 * d) ltac:(lia)) as R. nia.
Qed.

Lemma fixed_of_SFint (q : Z -> Z -> Z) (x : float) :
  (forall n d, (0 < d)%Z -> q (n * d)%Z d = n) ->
  (forall v d, (2 <= d)%Z -> (Z.abs (q v d) <= Z.abs v)%Z) ->
  SF2Prim (Math.SFint q (Prim2SF (SF2Prim (Math.SFint q (Prim2SF x)))))
  = SF2Prim (Math.SFint q (Prim2SF x)).
Proof.
  intros Q1 Q2.
  destruct (SFint_fixed q Q1 Q2 (Prim2SF x) (Prim2SF_valid x)) as [V F].
  rewrite Prim2SF_SF2Prim by exact V. rewrite F. reflexivity.
Qed.

Lemma floor_idempotent (x : float) : Math.floor (Math.floor x) = Math.floor x.
Proof.
  unfold Math.floor. apply fixed_of_SFint; [apply floor_exact|apply floor_bound].
Qed.

Lemma ceil_idempotent (x : float) : Math.ceil (Math.ceil x) = Math.ceil x.
Proof.
  unfold Math.ceil. apply fixed_of_SFint; [apply ceil_exact|apply ceil_bound].
Qed.

Lemma round_idempotent (x : float) : Math.round (Math.round x) = Math.round x.
Proof.
  unfold Math.round. apply fixed_of_SFint; [apply round_exact_int|apply round_bound].
Qed.

(** X20. With [Math.pow(10, places)] equal to one (no places, or zero
    places), [floor], [ceil] and [round] apply [Math.floor], [Math.ceil]
    and [Math.round] to each field, and each is idempotent: rounding what
    it returned returns the same value. *)
Theorem rounding_idempotent {M : Math.lib} (x w : complex) (places : option float) :
  Math.pow 10 (places_or_0 places) = 1 ->
  (forall P, fst (floor x places P) = construct (Math.floor (re x)) (Math.floor (im x)))
  /\ (forall P, fst (ceil x places P) = construct (Math.ceil (re x)) (Math.ceil (im x)))
  /\ (forall P, fst (round x places P) = construct (Math.round (re x)) (Math.round (im x)))
  /\ (returns (floor x places) w -> returns (floor w places) w)
  /\ (returns (ceil x places) w -> returns (ceil w places) w)
  /\ (returns (round x places) w -> returns (round w places) w).
Proof.
  intro H.
  assert (F : forall z P, fst (floor z places P)
                          = construct (Math.floor (re z)) (Math.floor (im z))).
  { intros z P. unfold floor. rewrite Complex_pair, H, !mul_one, !div_one. reflexivity. }
  assert (C : forall z P, fst (ceil z places P)
                          = construct (Math.ceil (re z)) (Math.ceil (im z))).
  { intros z P. unfold ceil. rewrite Complex_pair, H, !mul_one, !div_one. reflexivity. }
  assert (R : forall z P, fst (round z places P)
                          = construct (Math.round (re z)) (Math.round (im z))).
  { intros z P. unfold round. rewrite Complex_pair, H, !mul_one, !div_one. reflexivity. }
  split; [apply F|]. split; [apply C|]. split; [apply R|].
  split; [|split]; intros W P; specialize (W P).
  - rewrite F in *. pose proof (construct_valid _ _ _ W) as [-> V]. cbn [re im].
    rewrite !floor_idempotent. exact W.
  - rewrite C in *. pose proof (construct_valid _ _ _ W) as [-> V]. cbn [re im].
    rewrite !ceil_idempotent. exact W.
  - rewrite R in *. pose proof (construct_valid _ _ _ W) as [-> V]. cbn [re im].
    rewrite !round_idempotent. exact W.
Qed.

(** ** The tolerance of [equals] against the spacing of doubles *)

Lemma shr_fexp_exponent (m e : Z) (l : location) :
  (fexp prec emax (Zdigits2 m + e) <= snd (shr_fexp prec emax m e l))%Z
  /\ (e <= snd (shr_fexp prec emax m e l))%Z.
Proof.
  unfold shr_fexp, shr.
  destruct (fexp prec emax (Zdigits2 m + e) - e)%Z as [|n|n] eqn:E; cbn [snd]; lia.
Qed.

Lemma binary_round_aux_exponent (s : bool) (m e : Z) (l : location) :
  match binary_round_aux prec emax s m e l with
  | S754_finite _ _ e'' => (fexp prec emax (Zdigits2 m + e) <= e'')%Z
  | _ => True
  end.
Proof.
  unfold binary_round_aux.
  pose proof (shr_fexp_exponent m e l) as [H1 _].
  destruct (shr_fexp prec emax m e l) as [mrs' e']. cbn [snd] in H1.
  pose proof (shr_fexp_exponent (round_nearest_even (shr_m mrs') (loc_of_shr_record mrs'))
                e' loc_Exact) as [_ H2].
  destruct (shr_fexp prec emax _ e' loc_Exact) as [mrs'' e'']. cbn [snd] in H2.
  destruct (shr_m mrs''); try exact Logic.I.
  destruct (e'' <=? emax - prec)%Z; [lia|exact Logic.I].
Qed.

Lemma binary_normalize_exponent (D ez : Z) :
  D <> 0%Z -> (emin <= ez)%Z ->
  match binary_normalize prec emax D ez false with
  | S754_finite _ _ e'' => (Zdigits2 D + ez - prec <= e'')%Z
  | S754_infinity _ => True
  | _ => False
  end.
Proof.
  intros HD He.
  assert (R : forall s p, Zdigits2 D = Z.pos (digits2_pos p) ->
              match binary_round prec emax s p ez with
              | S754_finite _ _ e'' => (Zdigits2 D + ez - prec <= e'')%Z
              | S754_infinity _ => True
              | _ => False
              end).
  { intros s p Dp. unfold binary_round.
    pose proof (shl_align_value p ez (Z.min ez (fexp prec emax (Z.pos (digits2_pos p) + ez)))
                  ltac:(lia)) as V.
    assert (A : shl_align p ez (fexp prec emax (Z.pos (digits2_pos p) + ez))
                = shl_align p ez (Z.min ez (fexp prec emax (Z.pos (digits2_pos p) + ez)))).
    { unfold shl_align.
      destruct (fexp prec emax (Z.pos (digits2_pos p) + ez) - ez)%Z as [|d|d] eqn:E1;
        destruct (Z.min ez (fexp prec emax (Z.pos (digits2_pos p) + ez)) - ez)%Z
          as [|d'|d'] eqn:E2; try lia; try reflexivity.
      assert (d = d') by lia. subst d'. f_equal. lia. }
    rewrite A.
    assert (S : snd (shl_align p ez (Z.min ez (fexp prec emax (Z.pos (digits2_pos p) + ez))))
                = Z.min ez (fexp prec emax (Z.pos (digits2_pos p) + ez))).
    { unfold shl_align.
      destruct (Z.min ez (fexp prec emax (Z.pos (digits2_pos p) + ez)) - ez)%Z
        as [|d|d] eqn:E; cbn [snd]; lia. }
    destruct (shl_align p ez _) as [mz ez']. cbn [fst snd] in V, S.
    pose proof (binary_round_aux_exponent s (Z.pos mz) ez' loc_Exact) as X.
    pose proof (binary_round_aux_not_zero s (Z.pos mz) ez' loc_Exact ltac:(lia)
                  ltac:(subst ez'; unfold fexp; lia)) as NZ.
    pose proof (binary_round_aux_not_nan s (Z.pos mz) ez' loc_Exact ltac:(lia)) as NN.
    assert (Dg : (Zdigits2 (Z.pos mz) + ez' = Z.pos (digits2_pos p) + ez)%Z).
    { rewrite V, Zdigits2_mul_pow2 by lia. cbn [Zdigits2]. lia. }
    rewrite Dg in X.
    destruct (binary_round_aux prec emax s (Z.pos mz) ez' loc_Exact); try exact Logic.I.
    - destruct s0; discriminate NZ.
    - congruence.
    - rewrite Dp. unfold fexp in X. lia. }
  destruct D as [|p|p]; [congruence| |]; apply R; reflexivity.
Qed.

Lemma Zdigits2_lower (D k : Z) :
  (0 <= k)%Z -> (2 ^ k <= Z.abs D)%Z -> (k + 1 <= Zdigits2 D)%Z.
Proof.
  intros Hk H. destruct D as [|p|p]; cbn [Z.abs] in H.
  - pose proof (Z.pow_pos_nonneg 2 k ltac:(lia) Hk). lia.
  - pose proof (Zdigits2_bounds p) as B.
    assert (L : (2 ^ k < 2 ^ Zdigits2 (Z.pos p))%Z) by lia.
    apply Z.pow_lt_mono_r_iff in L; [lia|lia|]. cbn. lia.
  - pose proof (Zdigits2_bounds p) as B.
    assert (L : (2 ^ k < 2 ^ Zdigits2 (Z.pos p))%Z) by lia.
    apply Z.pow_lt_mono_r_iff in L; [cbn in *; lia|lia|]. cbn. lia.
Qed.

(** Two numbers of the format with the same value are the same. *)
Lemma canonical_unique (m1 m2 : positive) (e1 e2 : Z) :
  bounded prec emax m1 e1 = true -> bounded prec emax m2 e2 = true ->
  (Z.pos m1 * 2 ^ (e1 - Z.min e1 e2) = Z.pos m2 * 2 ^ (e2 - Z.min e1 e2))%Z ->
  m1 = m2 /\ e1 = e2.
Proof.
  intros B1 B2 E. unfold bounded, canonical_mantissa in B1, B2.
  apply andb_true_iff in B1. destruct B1 as [C1 _]. apply Z.eqb_eq in C1.
  apply andb_true_iff in B2. destruct B2 as [C2 _]. apply Z.eqb_eq in C2.
  assert (D : (Z.pos (digits2_pos m1) + e1 = Z.pos (digits2_pos m2) + e2)%Z).
  { apply (f_equal Zdigits2) in E. rewrite !Zdigits2_mul_pow2 in E by lia.
    cbn [Zdigits2] in E. lia. }
  rewrite D in C1. assert (e1 = e2) by lia. subst e2. split; [|reflexivity].
  rewrite Z.min_id, Z.sub_diag, !Z.mul_1_r in E. congruence.
Qed.

Lemma normal_of_exponent (m : positive) (e : Z) :
  bounded prec emax m e = true -> (-52 <= e)%Z ->
  (2 ^ 52 <= Z.pos m < 2 ^ 53)%Z.
Proof.
  intros B He. unfold bounded, canonical_mantissa, fexp in B.
  apply andb_true_iff in B. destruct B as [C _]. apply Z.eqb_eq in C.
  pose proof (Zdigits2_bounds m) as Bm. cbn [Zdigits2] in Bm.
  assert (Z.pos (digits2_pos m) = 53%Z) as D
    by (unfold SpecFloat.emin, prec, emax in C; lia).
  rewrite D in Bm. exact Bm.
Qed.

Lemma mantissa_below (m : positive) (e : Z) :
  bounded prec emax m e = true -> (Z.pos m < 2 ^ 53)%Z /\ (emin <= e)%Z.
Proof.
  intro B. unfold bounded, canonical_mantissa, fexp in B.
  apply andb_true_iff in B. destruct B as [C _]. apply Z.eqb_eq in C.
  pose proof (Zdigits2_bounds m) as Bm. cbn [Zdigits2] in Bm.
  split; [|lia].
  assert (D : (Z.pos (digits2_pos m) <= 53)%Z) by (unfold prec in C; lia).
  assert (2 ^ Z.pos (digits2_pos m) <= 2 ^ 53)%Z by (apply Z.pow_le_mono_r; lia).
  lia.
Qed.

(** The difference of two distinct doubles, one of them of magnitude one
    or more, has at least the magnitude [2^-53]. *)
Lemma difference_digits (sc sa : bool) (mc ma : positive) (ec ea : Z) :
  bounded prec emax mc ec = true -> bounded prec emax ma ea = true -> (-52 <= ea)%Z ->
  let ez := Z.min ec ea in
  let D := (cond_Zopp sc (Z.pos (fst (shl_align mc ec ez)))
            - cond_Zopp sa (Z.pos (fst (shl_align ma ea ez))))%Z in
  D <> 0%Z -> (-52 <= Zdigits2 D + ez)%Z.
Proof.
  intros Bc Ba He ez D HD. unfold D in *. clear D.
  rewrite (shl_align_value mc ec ez), (shl_align_value ma ea ez) in HD by (unfold ez; lia).
  rewrite (shl_align_value mc ec ez), (shl_align_value ma ea ez) by (unfold ez; lia).
  pose proof (normal_of_exponent ma ea Ba He) as [Na _].
  pose proof (mantissa_below mc ec Bc) as [Nc Ec].
  destruct (Z.le_gt_cases (-53) ec) as [L|G].
  - match goal with |- (_ <= Zdigits2 ?d + _)%Z => remember d as D end.
    assert (1 <= Zdigits2 D)%Z; [|unfold ez; lia].
    destruct D; [congruence| |]; cbn; lia.
  - assert (Ez : ez = ec) by (unfold ez; lia). clearbody ez. subst ez.
    rewrite Z.sub_diag, Z.mul_1_r in HD. rewrite Z.sub_diag, Z.mul_1_r.
    match goal with |- (_ <= Zdigits2 ?d + _)%Z => remember d as D end.
    assert (A : (2 ^ (- ec - 1) + 2 ^ 53 <= Z.pos ma * 2 ^ (ea - ec))%Z).
    { assert (2 ^ (- ec) <= Z.pos ma * 2 ^ (ea - ec))%Z.
      { replace (- ec)%Z with (52 + (-52 - ec))%Z by lia. rewrite Z.pow_add_r by lia.
        assert (2 ^ (-52 - ec) <= 2 ^ (ea - ec))%Z by (apply Z.pow_le_mono_r; lia).
        assert (0 < 2 ^ (-52 - ec))%Z by (apply Z.pow_pos_nonneg; lia).
        nia. }
      assert (2 ^ (- ec) = 2 * 2 ^ (- ec - 1))%Z.
      { replace (- ec)%Z with (1 + (- ec - 1))%Z at 1 by lia.
        rewrite Z.pow_add_r by lia. reflexivity. }
      assert (2 ^ 53 <= 2 ^ (- ec - 1))%Z by (apply Z.pow_le_mono_r; lia).
      lia. }
    assert (H : (2 ^ (- ec - 1) <= Z.abs D)%Z).
    { subst D. destruct sc, sa; cbn [cond_Zopp]; lia. }
    pose proof (Zdigits2_lower D (- ec - 1) ltac:(lia) H). lia.
Qed.

Lemma close_is_equal (a c : float) :
  (1 <=? Math.abs a) = true -> (Math.abs (c - a) <=? EPSILON) = true -> (c =? a) = true.
Proof.
  unfold Math.abs. rewrite !FloatAxioms.leb_spec, FloatAxioms.eqb_spec,
    !FloatAxioms.abs_spec, FloatAxioms.sub_spec.
  change (Prim2SF 1) with (S754_finite false 4503599627370496 (-52)).
  change (Prim2SF EPSILON) with (S754_finite false 8112963841460668 (-106)).
  pose proof (Prim2SF_valid a) as Va. pose proof (Prim2SF_valid c) as Vc.
  destruct (Prim2SF a) as [sa|sa| |sa ma ea]; intro H1; try discriminate H1.
  - destruct (Prim2SF c) as [sc|sc| |sc mc ec]; intro H2; try discriminate H2;
      destruct sa, sc; discriminate H2.
  - assert (He : (-52 <= ea)%Z).
    { unfold SFleb, SFabs, SFcompare in H1. revert H1.
      destruct (Z.compare_spec (-52) ea) as [C|C|C]; intro H1; try discriminate H1; lia. }
    destruct (Prim2SF c) as [sc|sc| |sc mc ec]; intro H2; try discriminate H2.
    + exfalso. unfold SF64sub, SFsub, SFleb, SFabs, SFcompare in H2. revert H2.
      destruct (Z.compare_spec ea (-106)) as [C|C|C]; intro H2; try discriminate H2; lia.
    + unfold SF64sub, SFsub in H2.
      set (ez := Z.min ec ea) in *.
      set (D := (cond_Zopp sc (Z.pos (fst (shl_align mc ec ez)))
                 - cond_Zopp sa (Z.pos (fst (shl_align ma ea ez))))%Z) in *.
      destruct (Z.eq_dec D 0) as [Z0|NZ].
      * unfold D in Z0. rewrite !shl_align_value in Z0 by (unfold ez; lia).
        assert (0 < 2 ^ (ec - ez))%Z by (apply Z.pow_pos_nonneg; unfold ez; lia).
        assert (0 < 2 ^ (ea - ez))%Z by (apply Z.pow_pos_nonneg; unfold ez; lia).
        assert (sc = sa) as -> by (destruct sc, sa; cbn [cond_Zopp] in Z0; try reflexivity; nia).
        destruct (canonical_unique mc ma ec ea Vc Va) as [-> ->].
        { fold ez. destruct sa; cbn [cond_Zopp] in Z0; lia. }
        unfold SFeqb, SFcompare. rewrite Z.compare_refl, Pos.compare_cont_refl.
        destruct sa; reflexivity.
      * exfalso.
        pose proof (difference_digits sc sa mc ma ec ea Vc Va He NZ) as G. fold ez D in G.
        pose proof (mantissa_below mc ec Vc) as [_ Ec].
        assert (Ez : (emin <= ez)%Z)
          by (unfold ez; unfold SpecFloat.emin, prec, emax in *; lia).
        pose proof (binary_normalize_exponent D ez NZ Ez) as X.
        destruct (binary_normalize prec emax D ez false) as [s|s| |s m e]; try contradiction.
        -- discriminate H2.
        -- unfold SFleb, SFabs, SFcompare in H2. unfold prec in X. revert H2.
           destruct (Z.compare_spec e (-106)) as [C|C|C]; intro H2; try discriminate H2; lia.
Qed.

(** X18. Where a field of the receiver has magnitude one or more, the
    tolerance of [equals] is below the spacing of doubles: [equals] returns
    [true] only if the argument has the very same number in that field. *)
Theorem equals_exact_from_one {M : Math.lib} (x y : complex) :
  returns (equals x (this_arg y)) true ->
  ((1 <=? Math.abs (re x)) = true -> (re y =? re x) = true)
  /\ ((1 <=? Math.abs (im x)) = true -> (im y =? im x) = true).
Proof.
  intro H. specialize (H (mkScratch 0 0)). rewrite equals_run, operand_this in H.
  destruct (JS.isNaN (re y * im y)); [discriminate H|].
  injection H as E. apply andb_true_iff in E. destruct E as [Er Ei].
  split; intro L; apply close_is_equal; assumption.
Qed.

Lemma equals_exact_from_one_witness :
  returns (equals (M := RefMath.engine) (mkComplex 0.5 1) (this_arg (mkComplex 0.49999999999999994 1)))
    true
  /\ (0.49999999999999994 =? 0.5) = false
  /\ (1 <=? Math.abs 1) = true /\ (1 =? 1) = true.
Proof.
  assert (H : returns (equals (M := RefMath.engine) (mkComplex 0.5 1)
                         (this_arg (mkComplex 0.49999999999999994 1))) true).
  { intro P. rewrite equals_run. reflexivity. }
  split; [exact H|]. split; [reflexivity|]. split; [reflexivity|].
  exact (proj2 (equals_exact_from_one (M := RefMath.engine) _ _ H) eq_refl).
Defined.

Lemma rounding_idempotent_witness :
  Math.pow (lib := RefMath.engine) 10 (places_or_0 None) = 1
  /\ returns (round (M := RefMath.engine) (mkComplex 2.5 (-1.5)) None) (mkComplex 3 (-1))
  /\ returns (round (M := RefMath.engine) (mkComplex 3 (-1)) None) (mkComplex 3 (-1)).
Proof.
  assert (H : Math.pow (lib := RefMath.engine) 10 (places_or_0 None) = 1)
    by (vm_compute; reflexivity).
  assert (R : returns (round (M := RefMath.engine) (mkComplex 2.5 (-1.5)) None)
                (mkComplex 3 (-1))).
  { intro P.
    rewrite (proj1 (proj2 (proj2 (rounding_idempotent (M := RefMath.engine)
                                    (mkComplex 2.5 (-1.5)) (mkComplex 3 (-1)) None H)))).
    reflexivity. }
  split; [exact H|]. split; [exact R|].
  exact (proj2 (proj2 (proj2 (proj2 (proj2 (rounding_idempotent (M := RefMath.engine)
                                    (mkComplex 2.5 (-1.5)) (mkComplex 3 (-1)) None H))))) R).
Defined.

(** ** The fallbacks for [Math.cosh] and [Math.sinh] *)

Lemma sub_antisym (u v : float) :
  u - v = - (v - u) \/ ((u - v =? 0) = true /\ (v - u =? 0) = true).
Proof.
  destruct (u - v =? 0) eqn:Z.
  - right. split; [reflexivity|].
    rewrite <- abs_eqb_zero, abs_sub_comm, abs_eqb_zero in Z. exact Z.
  - left. apply Prim2SF_inj. rewrite FloatAxioms.eqb_spec in Z. revert Z.
    rewrite FloatAxioms.opp_spec, !FloatAxioms.sub_spec.
    change (Prim2SF 0) with (S754_zero false).
    destruct (Prim2SF u) as [su|su| |su mu eu], (Prim2SF v) as [sv|sv| |sv mv ev];
      intro Z; try reflexivity; try (destruct su, sv; try discriminate Z; reflexivity);
      try (cbn [SF64sub SFsub SFopp]; rewrite ?negb_involutive; reflexivity).
    unfold SF64sub, SFsub in *. rewrite (Z.min_comm ev eu).
    set (A := cond_Zopp su (Z.pos (fst (shl_align mu eu (Z.min eu ev))))) in *.
    set (B := cond_Zopp sv (Z.pos (fst (shl_align mv ev (Z.min eu ev))))) in *.
    replace (B - A)%Z with (- (A - B))%Z by lia.
    destruct (A - B)%Z as [|p|p]; [discriminate Z| |]; cbn [Z.opp binary_normalize].
    + change true with (negb false). rewrite binary_round_opp.
      destruct (binary_round prec emax false p (Z.min eu ev)); cbn [SFopp];
        rewrite ?negb_involutive; reflexivity.
    + change true with (negb false). apply binary_round_opp.
Qed.

(** X22. The fallbacks the library installs on an engine without
    [Math.cosh] and [Math.sinh]: the hyperbolic cosine is even, bit for
    bit; the hyperbolic sine is odd up to the sign of a zero; and the sine
    is zero wherever [Math.exp] has the same finite value at [x] and [-x],
    as it has at every [x] small enough. *)
Theorem polyfill_parity {M : Math.lib} (x : float) :
  cosh_polyfill (- x) = cosh_polyfill x
  /\ (sinh_polyfill (- x) = - sinh_polyfill x
      \/ ((sinh_polyfill (- x) =? 0) = true /\ (sinh_polyfill x =? 0) = true))
  /\ (is_finite (Math.exp x) = true -> Math.exp (- x) = Math.exp x -> sinh_polyfill x = 0)
  /\ (is_finite (Math.exp x) = true -> Math.exp (- x) = Math.exp x ->
      forall a, yields (sin (M := polyfilled M) (mkComplex a x))
                  (construct (Math.sin a * cosh_polyfill x) (Math.cos a * 0))).
Proof.
  assert (Z : is_finite (Math.exp x) = true -> Math.exp (- x) = Math.exp x ->
              sinh_polyfill x = 0).
  { intros F E. unfold sinh_polyfill. rewrite E, (sub_self _ F). reflexivity. }
  split; [|split; [|split; [exact Z|]]].
  3:{ intros F E a P. unfold sin. rewrite Complex_pair. cbn [re im].
      change (Math.sinh (lib := polyfilled M) x) with (sinh_polyfill x).
      rewrite (Z F E). reflexivity. }
  all: unfold cosh_polyfill, sinh_polyfill; rewrite opp_involutive.
  - rewrite add_comm. reflexivity.
  - destruct (sub_antisym (Math.exp (- x)) (Math.exp x)) as [E|[Z1 Z2]].
    + left. rewrite E, mul_opp_l. reflexivity.
    + right. destruct (eqb_0_true _ Z1) as [-> | ->];
        destruct (eqb_0_true _ Z2) as [-> | ->]; split; reflexivity.
Qed.

Lemma polyfill_parity_witness :
  is_finite (Math.exp (lib := RefMath.engine) 1e-17) = true
  /\ Math.exp (lib := RefMath.engine) (- (1e-17)) = Math.exp (lib := RefMath.engine) 1e-17
  /\ sinh_polyfill (M := RefMath.engine) 1e-17 = 0
  /\ Math.sinh (lib := RefMath.engine) 1e-17 = 1e-17.
Proof.
  assert (F : is_finite (Math.exp (lib := RefMath.engine) 1e-17) = true)
    by (vm_compute; reflexivity).
  assert (E : Math.exp (lib := RefMath.engine) (- (1e-17))
              = Math.exp (lib := RefMath.engine) 1e-17) by (vm_compute; reflexivity).
  split; [exact F|]. split; [exact E|]. split.
  - exact (proj1 (proj2 (proj2 (polyfill_parity (M := RefMath.engine) 1e-17))) F E).
  - vm_compute. reflexivity.
Defined.

(** ** Powers of an imaginary base (C4) *)

(** The remainder by four. *)


Lemma binary_round_bounded (s : bool) (m : positive) (e : Z) :
  bounded prec emax m e = true -> binary_round prec emax s m e = S754_finite s m e.
Proof.
  intro B. pose proof B as B'. unfold bounded, canonical_mantissa in B'.
  apply andb_true_iff in B'. destruct B' as [C _]. apply Z.eqb_eq in C.
  unfold binary_round. rewrite C. unfold shl_align. rewrite Z.sub_diag.
  replace (Z.pos m) with (Z.pos m * 2 ^ 0)%Z by lia.
  replace e with (e - 0)%Z at 1 by lia.
  apply round_exact; [exact B|lia].
Qed.

Lemma bounded_mantissa (m : positive) (e : Z) :
  bounded prec emax m e = true -> (Z.pos m < 2 ^ 53)%Z.
Proof.
  intro B. unfold bounded, canonical_mantissa in B.
  apply andb_true_iff in B. destruct B as [C _]. apply Z.eqb_eq in C.
  pose proof (Zdigits2_bounds m) as [_ U]. cbn [Zdigits2] in U.
  assert (D : (Z.pos (digits2_pos m) <= 53)%Z)
    by (unfold fexp, SpecFloat.emin, prec, emax in C; lia).
  apply (Z.lt_le_trans _ _ _ U). apply Z.pow_le_mono_r; lia.
Qed.
















(** [integer_of] on some numbers. *)
Example integer_of_known_values :
  integer_of 0 = Some 0%Z /\ integer_of 7 = Some 7%Z /\ integer_of 0.5 = None
  /\ integer_of 2.25 = None /\ integer_of 1e22 = Some (10 ^ 22)%Z
  /\ integer_of (-3) = Some (-3)%Z /\ integer_of 4503599627370497.5 = Some 4503599627370498%Z.
Proof. repeat split; vm_compute; reflexivity. Qed.

(** ** Square roots on the real axis *)

Lemma round_nearest_even_le (m : Z) (l : location) :
  (m <= round_nearest_even m l <= m + 1)%Z.
Proof.
  destruct l as [|c]; [simpl; lia|].
  destruct c; simpl; try destruct (Z.even m); lia.
Qed.

Lemma Zdigits2_mono (a b : Z) : (0 <= a <= b)%Z -> (Zdigits2 a <= Zdigits2 b)%Z.
Proof.
  intros [Ha Hab]. destruct a as [|pa|pa]; [|destruct b as [|pb|pb]; try lia|lia].
  - apply Zdigits2_nonneg.
  - apply Zdigits2_le. exact Hab.
Qed.

Lemma Zdigits2_succ (m : Z) : (0 <= m)%Z -> (Zdigits2 (m + 1) <= Zdigits2 m + 1)%Z.
Proof.
  intro H. destruct (Z.eq_dec m 0) as [-> | N]; [cbn; lia|].
  rewrite <- Zdigits2_double by lia. apply Zdigits2_mono. lia.
Qed.

(** What [shr_fexp] leaves: the exponent, and the digits over it. *)
Lemma shr_fexp_upper (m e : Z) (l : location) (T : Z) :
  (0 <= m)%Z -> (emin <= T)%Z -> (e <= T)%Z -> (Zdigits2 m + e <= T)%Z ->
  (0 <= shr_m (fst (shr_fexp prec emax m e l)))%Z
  /\ (snd (shr_fexp prec emax m e l) <= T)%Z
  /\ (Zdigits2 (shr_m (fst (shr_fexp prec emax m e l))) + snd (shr_fexp prec emax m e l)
      <= T)%Z.
Proof.
  intros Hm HT He Hd. unfold shr_fexp, shr.
  assert (F : (fexp prec emax (Zdigits2 m + e) <= T)%Z)
    by (unfold fexp, SpecFloat.emin, prec, emax in *; lia).
  destruct (fexp prec emax (Zdigits2 m + e) - e)%Z as [|n|n] eqn:E; cbn [fst snd];
    rewrite ?shr_m_of_loc; try (repeat split; lia).
  split; [apply shr_nonneg; rewrite shr_m_of_loc; exact Hm|].
  rewrite Zdigits2_shr, shr_m_of_loc. lia.
Qed.

Lemma binary_round_aux_finite (s : bool) (m e : Z) (l : location) (T : Z) :
  (0 <= m)%Z -> (emin <= T)%Z -> (T + 1 <= emax - prec)%Z ->
  (e <= T)%Z -> (Zdigits2 m + e <= T)%Z ->
  match binary_round_aux prec emax s m e l with
  | S754_zero _ | S754_finite _ _ _ => True
  | _ => False
  end.
Proof.
  intros Hm HT HU He Hd. unfold binary_round_aux.
  pose proof (shr_fexp_upper m e l T Hm HT He Hd) as [N1 [E1 D1]].
  destruct (shr_fexp prec emax m e l) as [mrs' e']. cbn [fst snd] in N1, E1, D1.
  set (m1 := round_nearest_even (shr_m mrs') (loc_of_shr_record mrs')).
  pose proof (round_nearest_even_le (shr_m mrs') (loc_of_shr_record mrs')) as R.
  fold m1 in R.
  assert (G : (Zdigits2 m1 <= Zdigits2 (shr_m mrs') + 1)%Z).
  { apply (Z.le_trans _ (Zdigits2 (shr_m mrs' + 1))).
    - apply Zdigits2_mono. lia.
    - apply Zdigits2_succ, N1. }
  pose proof (shr_fexp_upper m1 e' loc_Exact (T + 1) ltac:(lia) ltac:(lia) ltac:(lia)
                ltac:(lia)) as [N2 [E2 _]].
  destruct (shr_fexp prec emax m1 e' loc_Exact) as [mrs'' e'']. cbn [fst snd] in N2, E2.
  destruct (shr_m mrs'') as [|p|p]; [exact Logic.I| |lia].
  replace (e'' <=? emax - prec)%Z with true by (symmetry; apply Z.leb_le; lia).
  exact Logic.I.
Qed.

Lemma sqrt_below (q n k : Z) :
  (0 <= q)%Z -> (0 <= k)%Z -> (q * q <= n)%Z -> (n < 2 ^ (2 * k))%Z -> (q < 2 ^ k)%Z.
Proof.
  intros Hq Hk L U.
  destruct (Z_lt_le_dec q (2 ^ k)) as [H|H]; [exact H|exfalso].
  assert (P : (0 < 2 ^ k)%Z) by (apply Z.pow_pos_nonneg; lia).
  assert (S : (2 ^ (2 * k) = 2 ^ k * 2 ^ k)%Z).
  { replace (2 * k)%Z with (k + k)%Z by lia. apply Z.pow_add_r; lia. }
  nia.
Qed.

Lemma Zdigits2_below (q k : Z) : (0 <= q)%Z -> (0 <= k)%Z -> (q < 2 ^ k)%Z -> (Zdigits2 q <= k)%Z.
Proof.
  intros Hq Hk H. destruct q as [|p|p]; [cbn; lia| |lia].
  pose proof (Zdigits2_bounds p) as [L _].
  assert (X : (2 ^ (Zdigits2 (Z.pos p) - 1) < 2 ^ k)%Z) by lia.
  apply Z.pow_lt_mono_r_iff in X; lia.
Qed.

Lemma sqrt_core_upper (m : positive) (e : Z) :
  bounded prec emax m e = true ->
  let '(q, e', l) := SFsqrt_core_binary prec emax (Z.pos m) e in
  (0 <= q)%Z /\ (e' <= 520)%Z /\ (Zdigits2 q + e' <= 520)%Z.
Proof.
  intro B. pose proof (bounded_mantissa m e B) as U.
  unfold bounded, canonical_mantissa in B. apply andb_true_iff in B.
  destruct B as [C Le]. apply Z.eqb_eq in C. apply Z.leb_le in Le.
  assert (He : (emin <= e)%Z) by (unfold fexp in C; lia).
  unfold SFsqrt_core_binary.
  set (d := Zdigits2 (Z.pos m)).
  assert (Hd : (1 <= d <= 53)%Z).
  { unfold d. cbn [Zdigits2]. unfold fexp, SpecFloat.emin, prec, emax in C. lia. }
  set (e' := Z.min (fexp prec emax (Z.div2 (d + e + 1))) (Z.div2 e)).
  assert (D : (2 * Z.div2 e <= e <= 2 * Z.div2 e + 1)%Z).
  { pose proof (Z.div2_odd e) as O. destruct (Z.odd e); cbn [Z.b2z] in O; lia. }
  assert (D2 : (2 * Z.div2 (d + e + 1) <= d + e + 1)%Z).
  { pose proof (Z.div2_odd (d + e + 1)) as O.
    destruct (Z.odd (d + e + 1)); cbn [Z.b2z] in O; lia. }
  assert (E1 : (e' <= Z.div2 e)%Z) by (unfold e'; lia).
  assert (E0 : (emin <= e')%Z).
  { unfold e', fexp, SpecFloat.emin, prec, emax in *. lia. }
  assert (S : (0 <= e - 2 * e')%Z) by lia.
  set (m' := match (e - 2 * e')%Z with
             | 0%Z => Z.pos m
             | Z.pos _ => Z.shiftl (Z.pos m) (e - 2 * e')
             | Z.neg _ => 0%Z
             end).
  assert (Vm : m' = (Z.pos m * 2 ^ (e - 2 * e'))%Z).
  { unfold m'. destruct (e - 2 * e')%Z as [|p|p] eqn:Es; [lia| |lia].
    rewrite Z.shiftl_mul_pow2 by lia. reflexivity. }
  assert (Hm : (0 < m')%Z).
  { rewrite Vm. apply Z.mul_pos_pos; [lia|apply Z.pow_pos_nonneg; lia]. }
  pose proof (Z.sqrtrem_spec m' ltac:(lia)) as Q.
  destruct (Z.sqrtrem m') as [q r]. destruct Q as [Q R].
  split; [lia|]. unfold prec, emax in Le. split; [lia|].
  set (k := (Z.div2 ((e - 2 * e') + 54))%Z).
  assert (K : (e - 2 * e' + 53 <= 2 * k <= e - 2 * e' + 54)%Z).
  { unfold k. pose proof (Z.div2_odd (e - 2 * e' + 54)) as O.
    destruct (Z.odd (e - 2 * e' + 54)); cbn [Z.b2z] in O; lia. }
  assert (Ub : (m' < 2 ^ (2 * k))%Z).
  { rewrite Vm. apply (Z.lt_le_trans _ (2 ^ 53 * 2 ^ (e - 2 * e'))).
    - apply Z.mul_lt_mono_pos_r; [apply Z.pow_pos_nonneg; lia|exact U].
    - rewrite <- Z.pow_add_r by lia. apply Z.pow_le_mono_r; lia. }
  assert (Hq : (q < 2 ^ k)%Z) by (apply (sqrt_below q m' k); nia).
  pose proof (Zdigits2_below q k ltac:(lia) ltac:(lia) Hq) as Dq.
  lia.
Qed.

Lemma is_finite_Prim2SF (x : float) :
  match Prim2SF x with S754_zero _ | S754_finite _ _ _ => True | _ => False end ->
  is_finite x = true.
Proof.
  unfold is_finite, is_infinite, Math.abs, is_nan.
  rewrite !FloatAxioms.eqb_spec, FloatAxioms.abs_spec.
  change (Prim2SF infinity) with (S754_infinity false).
  destruct (Prim2SF x) as [s|s| |s m e]; intro H; try contradiction.
  - reflexivity.
  - cbn. unfold SFeqb, SFcompare. rewrite Z.compare_refl, Pos.compare_cont_refl.
    destruct s; reflexivity.
Qed.

(** [Math.sqrt] of a finite number above zero is finite. *)
Lemma sqrt_finite (y : float) :
  is_finite y = true -> (0 <? y) = true -> is_finite (Math.sqrt y) = true.
Proof.
  intros F P. apply is_finite_Prim2SF. unfold Math.sqrt.
  rewrite FloatAxioms.sqrt_spec.
  rewrite FloatAxioms.ltb_spec in P. change (Prim2SF 0) with (S754_zero false) in P.
  pose proof (Prim2SF_valid y) as V.
  destruct (finite_Prim2SF y F) as [[s E]|[s [m [e E]]]]; rewrite E in *.
  { destruct s; discriminate P. }
  destruct s; [discriminate P|].
  unfold SF64sqrt, SFsqrt. cbn [valid_binary] in V.
  pose proof (sqrt_core_upper m e V) as K.
  destruct (SFsqrt_core_binary prec emax (Z.pos m) e) as [[q e'] l].
  destruct K as [Q [E1 D1]].
  apply (binary_round_aux_finite false q e' l 520); try assumption;
    unfold SpecFloat.emin, prec, emax; lia.
Qed.

Lemma add_self_Prim2SF (a : float) (s : bool) (m : positive) (e : Z) :
  Prim2SF a = S754_finite s m e ->
  Prim2SF (a + a) = binary_round prec emax s (m~0) e.
Proof.
  intro E. rewrite FloatAxioms.add_spec, E. unfold SF64add, SFadd.
  rewrite Z.min_id. unfold shl_align. rewrite Z.sub_diag. cbn [fst].
  destruct s; cbn [cond_Zopp Z.opp Z.add binary_normalize]; rewrite Pos.add_diag; reflexivity.
Qed.

Lemma half_Prim2SF (u : float) (s : bool) (m : positive) (e : Z) :
  Prim2SF u = S754_finite s m e ->
  Prim2SF (u * 0.5) = binary_round_aux prec emax s (Z.pos m * 2 ^ 52) (e - 53) loc_Exact.
Proof.
  intro E. rewrite FloatAxioms.mul_spec, E.
  change (Prim2SF 0.5) with (S754_finite false 4503599627370496 (-53)).
  cbn [SF64mul SFmul]. rewrite xorb_false_r.
  change (Z.pos (m * 4503599627370496)) with (Z.pos m * 2 ^ 52)%Z.
  replace (e + -53)%Z with (e - 53)%Z by lia. reflexivity.
Qed.

(** Where twice a number is finite, half of it is the number again. *)
Lemma add_self_half (a : float) : is_finite (a + a) = true -> (a + a) * 0.5 = a.
Proof.
  intro F. apply Prim2SF_inj.
  destruct (Prim2SF a) as [s|s| |s m e] eqn:E.
  - rewrite FloatAxioms.mul_spec, FloatAxioms.add_spec, E. destruct s; reflexivity.
  - exfalso. destruct (finite_Prim2SF _ F) as [[s' X]|[s' [m' [e' X]]]];
      rewrite FloatAxioms.add_spec, E in X; destruct s; discriminate X.
  - exfalso. destruct (finite_Prim2SF _ F) as [[s' X]|[s' [m' [e' X]]]];
      rewrite FloatAxioms.add_spec, E in X; discriminate X.
  - pose proof (valid_finite a s m e E) as B.
    pose proof (add_self_Prim2SF a s m e E) as A.
    pose proof B as B'. unfold bounded, canonical_mantissa in B'.
    apply andb_true_iff in B'. destruct B' as [C Le].
    apply Z.eqb_eq in C. apply Z.leb_le in Le.
    assert (D1 : Z.pos (digits2_pos m~0) = (Z.pos (digits2_pos m) + 1)%Z)
      by (cbn [digits2_pos]; lia).
    destruct (Z_lt_le_dec (Z.pos (digits2_pos m)) 53) as [Sub|Nor].
    + (* below the normal range twice the mantissa fits *)
      assert (B2 : bounded prec emax m~0 e = true).
      { unfold bounded, canonical_mantissa. apply andb_true_iff. split.
        - apply Z.eqb_eq. rewrite D1.
          unfold fexp, SpecFloat.emin, prec, emax in *. lia.
        - apply Z.leb_le. exact Le. }
      rewrite (binary_round_bounded s _ e B2) in A.
      rewrite (half_Prim2SF _ s m~0 e A).
      replace (Z.pos m~0 * 2 ^ 52)%Z with (Z.pos m * 2 ^ 53)%Z by lia.
      apply round_exact; [exact B|lia].
    + assert (Dg : Z.pos (digits2_pos m) = 53%Z)
        by (unfold fexp, SpecFloat.emin, prec, emax in C; lia).
      assert (R : binary_round prec emax s m~0 e
                  = binary_round_aux prec emax s (Z.pos m * 2 ^ 1) (e + 1 - 1) loc_Exact).
      { unfold binary_round. rewrite D1, Dg.
        replace (fexp prec emax (53 + 1 + e)) with (e + 1)%Z
          by (unfold fexp, SpecFloat.emin, prec, emax in *; lia).
        unfold shl_align. replace (e + 1 - e)%Z with 1%Z by lia.
        replace (e + 1 - 1)%Z with e by lia.
        replace (Z.pos m * 2 ^ 1)%Z with (Z.pos m~0) by lia. reflexivity. }
      rewrite R in A.
      destruct (Z_le_gt_dec (e + 1) (emax - prec)) as [Ok|Over].
      * assert (B2 : bounded prec emax m (e + 1) = true).
        { unfold bounded, canonical_mantissa. apply andb_true_iff. split.
          - apply Z.eqb_eq. rewrite Dg.
            unfold fexp, SpecFloat.emin, prec, emax in *. lia.
          - apply Z.leb_le. exact Ok. }
        rewrite (round_exact s m (e + 1) 1 B2 ltac:(lia)) in A.
        rewrite (half_Prim2SF _ s m (e + 1) A).
        replace (e + 1 - 53)%Z with (e - 52)%Z by lia.
        apply round_exact; [exact B|lia].
      * exfalso.
        pose proof (binary_round_aux_exponent s (Z.pos m * 2 ^ 1) (e + 1 - 1) loc_Exact) as X.
        rewrite <- A in X.
        assert (Z2 : Zdigits2 (Z.pos m * 2 ^ 1) = 54%Z).
        { rewrite Zdigits2_mul_pow2 by lia. cbn [Zdigits2]. lia. }
        rewrite Z2 in X.
        destruct (finite_Prim2SF _ F) as [[s' Y]|[s' [m' [e' Y]]]].
        -- pose proof (binary_round_aux_not_zero s (Z.pos m * 2 ^ 1) (e + 1 - 1) loc_Exact
                         ltac:(lia) ltac:(unfold fexp, SpecFloat.emin, prec, emax in *; lia))
             as NZ.
           rewrite <- A, Y in NZ. destruct s'; discriminate NZ.
        -- rewrite Y in X. pose proof (valid_finite _ _ _ _ Y) as V.
           unfold bounded in V. apply andb_true_iff in V. destruct V as [_ V].
           apply Z.leb_le in V.
           unfold fexp, SpecFloat.emin, prec, emax in *. lia.
Qed.

Lemma add_self_finite (a : float) : is_finite (a + a) = true -> is_finite a = true.
Proof.
  intro F. apply is_finite_Prim2SF.
  destruct (finite_Prim2SF _ F) as [[s' X]|[s' [m' [e' X]]]];
    rewrite FloatAxioms.add_spec in X;
    destruct (Prim2SF a) as [s|s| |s m e]; try exact Logic.I;
    try discriminate X; destruct s; discriminate X.
Qed.

Lemma abs_of_positive (r : float) : (0 <? r) = true -> Math.abs r = r.
Proof.
  intro P. unfold Math.abs. apply Prim2SF_inj. rewrite FloatAxioms.abs_spec.
  rewrite FloatAxioms.ltb_spec in P. change (Prim2SF 0) with (S754_zero false) in P.
  destruct (Prim2SF r) as [s|s| |s m e]; try discriminate P; destruct s;
    try discriminate P; reflexivity.
Qed.

Lemma abs_of_negative (r : float) : (r <? 0) = true -> Math.abs r = - r.
Proof.
  intro P. unfold Math.abs. apply Prim2SF_inj.
  rewrite FloatAxioms.abs_spec, FloatAxioms.opp_spec.
  rewrite FloatAxioms.ltb_spec in P. change (Prim2SF 0) with (S754_zero false) in P.
  destruct (Prim2SF r) as [s|s| |s m e]; try discriminate P; destruct s;
    try discriminate P; reflexivity.
Qed.

Lemma eqb_zero_not_nan (u : float) : (u =? 0) = true -> is_nan u = false.
Proof. intro H. destruct (eqb_0_true u H) as [-> | ->]; reflexivity. Qed.

(** The quotient of a zero and a number that is not zero is a zero. *)
Lemma zero_div (z r : float) :
  (z =? 0) = true -> is_nan r = false -> (r =? 0) = false -> (z / r =? 0) = true.
Proof.
  intros Z N NZ. apply is_zero_Prim2SF. apply is_zero_Prim2SF in Z. destruct Z as [s Z].
  apply is_nan_false_Prim2SF in N.
  rewrite FloatAxioms.eqb_spec in NZ. change (Prim2SF 0) with (S754_zero false) in NZ.
  rewrite FloatAxioms.div_spec, Z.
  destruct (Prim2SF r) as [sr|sr| |sr mr er]; try congruence.
  - destruct sr; discriminate NZ.
  - eexists. reflexivity.
  - eexists. reflexivity.
Qed.

Lemma one_plus_square_zero (z : float) : (z =? 0) = true -> Math.sqrt (1 + z * z) = 1.
Proof. intro Z. destruct (eqb_0_true z Z) as [-> | ->]; reflexivity. Qed.

Lemma heaviside_zero (i : float) : (i =? 0) = true -> heaviside i = 1.
Proof. intro Z. destruct (eqb_0_true i Z) as [-> | ->]; reflexivity. Qed.

(** On the real axis, from 1000 on, [abs] is the magnitude itself. *)
Lemma abs_real_large (x : complex) :
  (im x =? 0) = true -> (Math.abs (re x) <? 1000) = false -> is_nan (re x) = false ->
  abs x = Math.abs (re x).
Proof.
  destruct x as [r i]. cbn [re im]. intros Zi L N.
  assert (NZ : (r =? 0) = false).
  { destruct (r =? 0) eqn:Zr; [|reflexivity].
    destruct (eqb_0_true r Zr) as [-> | ->]; discriminate L. }
  unfold abs. cbn [re im]. rewrite L. cbn [andb].
  assert (Ai : Math.abs i = 0) by (destruct (eqb_0_true i Zi) as [-> | ->]; reflexivity).
  rewrite Ai, abs_float_not_negative.
  rewrite (one_plus_square_zero _ (zero_div i r Zi N NZ)). apply mul_one.
Qed.

Lemma finite_times_zero_valid (u : float) :
  is_finite u = true -> JS.isNaN (u * 0) = false /\ JS.isNaN (0 * u) = false.
Proof.
  intro F. pose proof (eqb_zero_not_nan _ (finite_mul_zero u F)) as N.
  split; [exact N|]. rewrite mul_comm. exact N.
Qed.

(** X15. Whenever [sqrt] returns a value, its real part is never below
    zero, and its imaginary part is never above zero when that of the
    argument is below zero, and never below zero otherwise. On the real
    axis (imaginary part a zero of either sign), where [abs] gives the
    magnitude exactly and twice the magnitude is finite, [sqrt] is the
    real root: [(Math.sqrt(re), 0)] above zero and [(0, Math.sqrt(-re))]
    below zero. From the magnitude 1000 on, [abs] is exact on the real
    axis. *)
Theorem sqrt_principal {M : Math.lib} (x : complex) :
  (forall w, returns (sqrt x) w ->
     (re w <? 0) = false
     /\ ((im x <? 0) = true -> (0 <? im w) = false)
     /\ ((im x <? 0) = false -> (im w <? 0) = false))
  /\ ((im x =? 0) = true -> abs x = Math.abs (re x) ->
      is_finite (Math.abs (re x) + Math.abs (re x)) = true ->
      ((0 <? re x) = true -> returns (sqrt x) (mkComplex (Math.sqrt (re x)) 0))
      /\ ((re x <? 0) = true -> returns (sqrt x) (mkComplex 0 (Math.sqrt (- re x)))))
  /\ ((im x =? 0) = true -> (Math.abs (re x) <? 1000) = false -> is_nan (re x) = false ->
      abs x = Math.abs (re x)).
Proof.
  split; [|split].
  - intros w H. specialize (H (mkScratch 0 0)). rewrite sqrt_run in H.
    apply construct_valid in H. destruct H as [-> _]. cbn [re im].
    split; [apply sqrt_not_negative|]. unfold heaviside. split; intros ->.
    + rewrite mul_minus_one, zero_ltb_opp. apply sqrt_not_negative.
    + rewrite mul_one. apply sqrt_not_negative.
  - intros Zi Ha F2.
    pose proof (add_self_finite _ F2) as Fa.
    split; intros S P; rewrite sqrt_run, Ha, (heaviside_zero _ Zi), mul_one.
    + rewrite (abs_of_positive _ S) in *.
      rewrite (add_self_half _ F2), (sub_self _ Fa).
      change (Math.sqrt (0 * 0.5)) with 0.
      unfold construct.
      rewrite (proj1 (finite_times_zero_valid _ (sqrt_finite _ Fa S))). reflexivity.
    + rewrite (abs_of_negative _ S) in *.
      assert (Fr : is_finite (re x) = true)
        by (rewrite <- (opp_involutive (re x)); apply opp_finite, Fa).
      rewrite (add_comm (- re x)), (add_opp_self (re x) Fr).
      rewrite <- (add_opp_r (- re x) (re x)), (add_self_half _ F2).
      change (Math.sqrt (0 * 0.5)) with 0.
      unfold construct.
      assert (Pn : (0 <? - re x) = true) by (rewrite zero_ltb_opp; exact S).
      rewrite (proj2 (finite_times_zero_valid _ (sqrt_finite _ Fa Pn))). reflexivity.
  - apply abs_real_large.
Qed.

Lemma sqrt_principal_witness :
  (returns (sqrt (M := RefMath.engine) (mkComplex 3 (-4))) (mkComplex 2 (-1))
   /\ (2 <? 0) = false /\ (-4 <? 0) = true /\ (0 <? -1) = false)
  /\ ((0 =? 0) = true /\ abs (mkComplex 9 0) = Math.abs 9
      /\ is_finite (Math.abs 9 + Math.abs 9) = true /\ (0 <? 9) = true
      /\ returns (sqrt (M := RefMath.engine) (mkComplex 9 0)) (mkComplex 3 0))
  /\ ((neg_zero =? 0) = true /\ abs (mkComplex (-4) neg_zero) = Math.abs (-4)
      /\ is_finite (Math.abs (-4) + Math.abs (-4)) = true /\ (-4 <? 0) = true
      /\ returns (sqrt (M := RefMath.engine) (mkComplex (-4) neg_zero)) (mkComplex 0 2))
  /\ ((0 =? 0) = true /\ (Math.abs (-1e6) <? 1000) = false /\ is_nan (-1e6) = false
      /\ abs (mkComplex (-1e6) 0) = 1e6).
Proof.
  split; [|split; [|split]].
  - assert (H : returns (sqrt (M := RefMath.engine) (mkComplex 3 (-4))) (mkComplex 2 (-1))).
    { intro P. rewrite sqrt_run. reflexivity. }
    split; [exact H|].
    destruct (proj1 (sqrt_principal (M := RefMath.engine) (mkComplex 3 (-4))) _ H)
      as [H1 [H2 _]].
    split; [exact H1|]. split; [reflexivity|]. exact (H2 eq_refl).
  - do 4 (split; [reflexivity|]).
    exact (proj1 (proj1 (proj2 (sqrt_principal (M := RefMath.engine) (mkComplex 9 0)))
                    eq_refl eq_refl eq_refl) eq_refl).
  - do 4 (split; [reflexivity|]).
    exact (proj2 (proj1 (proj2 (sqrt_principal (M := RefMath.engine)
                                  (mkComplex (-4) neg_zero)))
                    eq_refl eq_refl eq_refl) eq_refl).
  - do 3 (split; [reflexivity|]).
    exact (proj2 (proj2 (sqrt_principal (M := RefMath.engine) (mkComplex (-1e6) 0)))
             eq_refl eq_refl eq_refl).
Defined.

(** ** The string form of the constructor *)

Local Open Scope string_scope.
Local Open Scope float_scope.
Local Open Scope js_scope.

Import Text RegExp.

(** ** Spans and matches *)

Lemma span_app (p : ascii -> bool) (s t : string) :
  all_chars p s = true -> head_not p t = true -> span p (s ++ t) = (s, t).
Proof.
  induction s as [|c s IH]; cbn [all_chars append span]; intros A H.
  - destruct t as [|c r]; [reflexivity|]. cbn [head_not] in H. cbn [span].
    apply negb_true_iff in H. rewrite H. reflexivity.
  - apply andb_true_iff in A. destruct A as [Pc A]. rewrite Pc, (IH A H). reflexivity.
Qed.

Lemma span_all (p : ascii -> bool) (s : string) :
  all_chars p s = true -> span p s = (s, "").
Proof.
  intro A. pose proof (span_app p s "" A eq_refl) as H.
  assert (E : s ++ "" = s) by (clear; induction s as [|c s IH]; cbn; congruence).
  rewrite E in H. exact H.
Qed.

Lemma span_split (p : ascii -> bool) (s : string) :
  s = fst (span p s) ++ snd (span p s).
Proof.
  induction s as [|c s IH]; [reflexivity|]. cbn [span].
  destruct (p c); [|reflexivity].
  destruct (span p s) as [u v]. cbn [fst snd] in *. cbn. congruence.
Qed.

Lemma length_app (s t : string) :
  String.length (s ++ t) = (String.length s + String.length t)%nat.
Proof. induction s as [|c s IH]; cbn; congruence. Qed.

Lemma all_chars_weaken (p q : ascii -> bool) (s : string) :
  (forall c, p c = true -> q c = true) -> all_chars p s = true -> all_chars q s = true.
Proof.
  intro H. induction s as [|c s IH]; cbn [all_chars]; [reflexivity|].
  intro A. apply andb_true_iff in A. destruct A as [Pc A].
  rewrite (H c Pc), (IH A). reflexivity.
Qed.

Lemma all_chars_app (p : ascii -> bool) (s t : string) :
  all_chars p (s ++ t) = all_chars p s && all_chars p t.
Proof.
  induction s as [|c s IH]; cbn [append all_chars]; [reflexivity|].
  rewrite IH, andb_assoc. reflexivity.
Qed.

Lemma alt1_none (s : string) : second_not_e s = true -> alt1 s = None.
Proof.
  destruct s as [|c0 [|c1 r]]; try reflexivity. cbn [second_not_e alt1].
  intro H. apply negb_true_iff in H. rewrite H, andb_false_r. reflexivity.
Qed.

Lemma group_alt2 (m t : string) :
  is_empty m = false -> all_chars class_di_dot m = true ->
  head_not class_di_dot t = true -> second_not_e (m ++ t) = true ->
  group (m ++ t) = Some (m, t).
Proof.
  intros E A H S. unfold group. rewrite (alt1_none _ S). unfold alt2.
  rewrite (span_app _ _ _ A H), E. reflexivity.
Qed.

Lemma match_at_unsigned (m t : string) :
  is_empty m = false -> all_chars class_di_dot m = true ->
  head_not class_di_dot t = true -> second_not_e (m ++ t) = true ->
  match_at (m ++ t) = Some (m, t).
Proof.
  intros E A H S. pose proof (group_alt2 m t E A H S) as G.
  destruct m as [|c m]; [discriminate E|]. cbn [append] in *. cbn [match_at].
  cbn [all_chars] in A. apply andb_true_iff in A. destruct A as [Pc _].
  assert (Sg : is_sign c = false).
  { unfold class_di_dot, is_digit, is_i, is_dot, is_sign, code in *.
    destruct c as [[] [] [] [] [] [] [] []]; try reflexivity; discriminate Pc. }
  rewrite Sg. exact G.
Qed.

Lemma match_at_signed (c : ascii) (m t : string) :
  is_sign c = true ->
  is_empty m = false -> all_chars class_di_dot m = true ->
  head_not class_di_dot t = true -> second_not_e (m ++ t) = true ->
  match_at (String c (m ++ t)) = Some (String c m, t).
Proof.
  intros Sg E A H S. cbn [match_at]. rewrite Sg, (group_alt2 m t E A H S). reflexivity.
Qed.

Lemma exec_here (s : string) (r : string * string) :
  match_at s = Some r -> exec s = Some r.
Proof. intro H. destruct s; cbn [exec]; rewrite H; reflexivity. Qed.

Lemma group_outside (s : string) : head_not class_di_dot s = true -> group s = None.
Proof.
  intro H. destruct s as [|c r]; [reflexivity|]. cbn [head_not] in H.
  apply negb_true_iff in H. unfold group, alt1, alt2. cbn [span]. rewrite H.
  destruct r; reflexivity.
Qed.

Lemma exec_skip (c : ascii) (r : string) :
  class_di_dot c = false -> head_not class_di_dot r = true \/ is_sign c = false ->
  exec (String c r) = exec r.
Proof.
  intros Hc Hr. cbn [exec match_at].
  assert (G : group (String c r) = None) by (apply group_outside; cbn; rewrite Hc; reflexivity).
  rewrite G. destruct (is_sign c) eqn:Sg.
  - destruct Hr as [Hr|Hr]; [|discriminate Hr]. rewrite (group_outside r Hr). reflexivity.
  - reflexivity.
Qed.

Lemma exec_none (s : string) :
  all_chars (fun c => negb (class_di_dot c)) s = true -> exec s = None.
Proof.
  induction s as [|c r IH]; [reflexivity|]. cbn [all_chars]. intro A.
  apply andb_true_iff in A. destruct A as [Hc A]. apply negb_true_iff in Hc.
  rewrite exec_skip; [exact (IH A)|exact Hc|].
  left. destruct r as [|c' r']; [reflexivity|]. cbn [all_chars] in A. cbn [head_not].
  apply andb_true_iff in A. apply A.
Qed.

(** A match takes a character at least. *)
Lemma alt1_shorter (s m rest : string) :
  alt1 s = Some (m, rest) -> (String.length rest < String.length s)%nat.
Proof.
  destruct s as [|c0 [|c1 r]]; try discriminate. cbn [alt1].
  destruct (class_di_dot c0 && is_e c1); [|discriminate].
  assert (S : forall r', (String.length (snd (span class_di r')) <= String.length r')%nat).
  { intro r'. rewrite (span_split class_di r') at 2. rewrite length_app. lia. }
  destruct r as [|c2 r2].
  - cbn. discriminate.
  - destruct (is_sign c2).
    + pose proof (S r2) as L. destruct (span class_di r2) as [ds rest'].
      destruct (is_empty ds); intro H; inversion H; subst. cbn in *. lia.
    + pose proof (S (String c2 r2)) as L. destruct (span class_di (String c2 r2)) as [ds rest'].
      destruct (is_empty ds); intro H; inversion H; subst. cbn in *. lia.
Qed.

Lemma alt2_shorter (s m rest : string) :
  alt2 s = Some (m, rest) -> (String.length rest < String.length s)%nat.
Proof.
  unfold alt2. pose proof (span_split class_di_dot s) as E.
  destruct (span class_di_dot s) as [u v]. cbn [fst snd] in E.
  destruct u as [|c u]; [discriminate|]. cbn [is_empty]. intro H. inversion H; subst.
  rewrite length_app. cbn. lia.
Qed.

Lemma group_shorter (s m rest : string) :
  group s = Some (m, rest) -> (String.length rest < String.length s)%nat.
Proof.
  unfold group. destruct (alt1 s) as [[m1 r1]|] eqn:A.
  - intro H. inversion H; subst. exact (alt1_shorter _ _ _ A).
  - apply alt2_shorter.
Qed.

Lemma match_at_shorter (s m rest : string) :
  match_at s = Some (m, rest) -> (String.length rest < String.length s)%nat.
Proof.
  destruct s as [|c r]; cbn [match_at]; [apply group_shorter|].
  destruct (is_sign c); [|apply group_shorter].
  destruct (group r) as [[m1 r1]|] eqn:G; [|apply group_shorter].
  intro H. inversion H; subst. apply group_shorter in G. cbn. lia.
Qed.

Lemma exec_shorter (s m rest : string) :
  exec s = Some (m, rest) -> (String.length rest < String.length s)%nat.
Proof.
  induction s as [|c r IH]; cbn [exec].
  - cbn. discriminate.
  - destruct (match_at (String c r)) as [[m1 r1]|] eqn:M.
    + intro H. inversion H; subst. exact (match_at_shorter _ _ _ M).
    + intro H. apply IH in H. cbn. lia.
Qed.

(** ** The loop *)

(** The loop ends on [null]: more rounds than characters change nothing. *)
Lemma scan_fuel (n m : nat) :
  forall a p i, (String.length a < n)%nat -> (String.length a < m)%nat ->
                scan n a p i = scan m a p i.
Proof.
  revert m. induction n as [|n IH]; intros m a p i Hn Hm; [lia|].
  destruct m as [|m]; [lia|]. cbn [scan].
  destruct (exec a) as [[tmp rest]|] eqn:E; [|reflexivity].
  apply exec_shorter in E. apply IH; lia.
Qed.

Lemma scan_unfold (n : nat) (a : string) (p : float * float) (i : bool) :
  scan (S n) a p i
  = match exec a with
    | None => (p, i)
    | Some (tmp, rest) => scan n rest (token_value tmp p) true
    end.
Proof. reflexivity. Qed.

Lemma scan_step (a tmp rest : string) (p : float * float) (i : bool) :
  exec a = Some (tmp, rest) ->
  scan (S (String.length a)) a p i
  = scan (S (String.length rest)) rest (token_value tmp p) true.
Proof.
  intro E. rewrite scan_unfold, E. apply exec_shorter in E. apply scan_fuel; lia.
Qed.

Lemma scan_end (n : nat) (a : string) (p : float * float) (i : bool) :
  exec a = None -> scan n a p i = (p, i).
Proof. intro E. destruct n; cbn [scan]; rewrite ?E; reflexivity. Qed.

Lemma parse_token_run (tmp : string) (P : scratch) :
  parse_token tmp P
  = (Normal tt, mkScratch (fst (token_value tmp (P_re P, P_im P)))
                          (snd (token_value tmp (P_re P, P_im P)))).
Proof.
  unfold parse_token, token_value. destruct (has_i tmp); destruct P; reflexivity.
Qed.

Lemma parse_tokens_run (fuel : nat) :
  forall a i P,
  parse_tokens fuel a i P
  = (Normal (snd (scan fuel a (P_re P, P_im P) i)),
     mkScratch (fst (fst (scan fuel a (P_re P, P_im P) i)))
               (snd (fst (scan fuel a (P_re P, P_im P) i)))).
Proof.
  induction fuel as [|fuel IH]; intros a i P; cbn [parse_tokens scan].
  - destruct P; reflexivity.
  - destruct (exec a) as [[tmp rest]|]; [|destruct P; reflexivity].
    unfold bind. rewrite parse_token_run, IH. cbn [P_re P_im].
    destruct (token_value tmp (P_re P, P_im P)); reflexivity.
Qed.

Lemma Complex_string_run (a : string) (P : scratch) :
  fst (Complex_string a P)
  = let '(p, i) := scan (S (String.length a)) a (0, 0) false in
    if i then construct (fst p) (snd p) else Throw INVALID_PARAM.
Proof.
  unfold Complex_string, parse_string, bind, setP_re, setP_im.
  rewrite parse_tokens_run. cbn [P_re P_im].
  destruct (scan (S (String.length a)) a (0, 0) false) as [[r i] b]. cbn [fst snd].
  destruct b; cbn; [|reflexivity].
  unfold construct. destruct (JS.isNaN (r * i)); reflexivity.
Qed.

(** ** Tokens of the documented forms *)

Lemma app_empty_r (s : string) : s ++ "" = s.
Proof. induction s as [|c s IH]; cbn; congruence. Qed.

Lemma app_assoc (s t u : string) : (s ++ t) ++ u = s ++ t ++ u.
Proof. induction s as [|c s IH]; cbn; congruence. Qed.

Lemma opt_sign_cases (s : string) : opt_sign s = true -> s = "" \/ s = "+" \/ s = "-".
Proof.
  unfold opt_sign. intro H. apply orb_true_iff in H. destruct H as [H|H].
  - apply orb_true_iff in H. destruct H as [H|H]; apply String.eqb_eq in H; auto.
  - apply String.eqb_eq in H. auto.
Qed.

Lemma a_sign_cases (s : string) : a_sign s = true -> s = "+" \/ s = "-".
Proof.
  unfold a_sign. intro H. apply orb_true_iff in H.
  destruct H as [H|H]; apply String.eqb_eq in H; auto.
Qed.

Lemma a_sign_opt (s : string) : a_sign s = true -> opt_sign s = true.
Proof. intro H. destruct (a_sign_cases s H) as [-> | ->]; reflexivity. Qed.

Lemma numeral_class (c : ascii) :
  is_digit c || is_dot c = true ->
  class_di_dot c = true /\ is_e c = false /\ Ascii.eqb c "i" = false /\ is_sign c = false.
Proof.
  unfold class_di_dot, is_digit, is_i, is_dot, is_e, is_sign, code.
  destruct c as [[] [] [] [] [] [] [] []]; intro H; try discriminate H; repeat split.
Qed.

Lemma numeral_parts (m : string) :
  numeral m = true ->
  is_empty m = false /\ all_chars class_di_dot m = true /\ no_i m = true
  /\ all_chars (fun c => negb (is_e c)) m = true.
Proof.
  unfold numeral, no_i. intro H. apply andb_true_iff in H. destruct H as [E A].
  apply negb_true_iff in E. split; [exact E|].
  repeat split; revert A; apply all_chars_weaken; intros c Hc;
    destruct (numeral_class c Hc) as [H1 [H2 [H3 H4]]]; rewrite ?H1, ?H2, ?H3; reflexivity.
Qed.

Lemma digits_numeral (m : string) : digits m = true -> numeral m = true.
Proof.
  unfold digits, numeral. intro H. apply andb_true_iff in H. destruct H as [E A].
  rewrite E. cbn [andb]. revert A. apply all_chars_weaken. intros c ->. reflexivity.
Qed.

Lemma second_not_e_long (m t : string) :
  all_chars (fun c => negb (is_e c)) m = true -> (2 <= String.length m)%nat ->
  second_not_e (m ++ t) = true.
Proof.
  destruct m as [|c0 [|c1 m]]; cbn [String.length]; try lia. intros A _.
  cbn [all_chars] in A. cbn [append second_not_e].
  apply andb_true_iff in A. destruct A as [_ A]. apply andb_true_iff in A. apply A.
Qed.

Lemma second_not_e_app (m t : string) :
  is_empty m = false ->
  all_chars (fun c => negb (is_e c)) m = true -> head_not is_e t = true ->
  second_not_e (m ++ t) = true.
Proof.
  intros E A H. destruct m as [|c0 [|c1 m]]; [discriminate E| |].
  - destruct t as [|t0 t]; [reflexivity|]. exact H.
  - apply second_not_e_long; [exact A|cbn; lia].
Qed.

(** The match at the head of [sa ++ m ++ t]. *)
Lemma exec_token (sa m t : string) :
  opt_sign sa = true -> is_empty m = false -> all_chars class_di_dot m = true ->
  head_not class_di_dot t = true -> second_not_e (m ++ t) = true ->
  exec (sa ++ m ++ t) = Some (sa ++ m, t).
Proof.
  intros Sa E A H S. apply exec_here.
  destruct (opt_sign_cases sa Sa) as [-> | [-> | ->]]; cbn [append].
  - apply match_at_unsigned; assumption.
  - apply match_at_signed; [reflexivity|assumption..].
  - apply match_at_signed; [reflexivity|assumption..].
Qed.

Lemma exec_last (sa m : string) :
  opt_sign sa = true -> is_empty m = false -> all_chars class_di_dot m = true ->
  second_not_e m = true ->
  exec (sa ++ m) = Some (sa ++ m, "").
Proof.
  intros Sa E A S. pose proof (exec_token sa m "" Sa E A eq_refl) as H.
  rewrite app_empty_r in H. exact (H S).
Qed.

Lemma has_i_none (s : string) : no_i s = true -> has_i s = false.
Proof.
  unfold no_i. induction s as [|c s IH]; cbn [all_chars has_i]; [reflexivity|].
  intro A. apply andb_true_iff in A. destruct A as [Hc A].
  apply negb_true_iff in Hc. rewrite Hc, (IH A). reflexivity.
Qed.

Lemma has_i_app (s : string) : has_i (s ++ "i") = true.
Proof. induction s as [|c s IH]; cbn [append has_i]; [reflexivity|]. rewrite IH. apply orb_true_r. Qed.

Lemma drop_i_app (s : string) : no_i s = true -> drop_i (s ++ "i") = s.
Proof.
  unfold no_i. induction s as [|c s IH]; cbn [all_chars append drop_i]; [reflexivity|].
  intro A. apply andb_true_iff in A. destruct A as [Hc A].
  apply negb_true_iff in Hc. rewrite Hc, (IH A). reflexivity.
Qed.

Lemma no_i_app (s t : string) : no_i (s ++ t) = no_i s && no_i t.
Proof. apply all_chars_app. Qed.

Lemma no_i_opt_sign (s : string) : opt_sign s = true -> no_i s = true.
Proof. intro H. destruct (opt_sign_cases s H) as [-> | [-> | ->]]; reflexivity. Qed.

(** The value of a real token and of an imaginary one. *)
Lemma token_value_real (tmp : string) (p : float * float) :
  no_i tmp = true -> token_value tmp p = (fst p + parseFloat tmp, snd p).
Proof. intro H. unfold token_value. rewrite (has_i_none _ H). reflexivity. Qed.

Lemma not_lone_sign (s : string) :
  (2 <= String.length s)%nat \/ (exists c r, s = String c r /\ is_sign c = false) ->
  String.eqb s "+" || String.eqb s "-" || String.eqb s "" = false.
Proof.
  intro H.
  destruct (String.eqb_spec s "+") as [E|_]; [exfalso|].
  { subst s. destruct H as [H|[c [r [E S]]]]; [cbn in H; lia|]. inversion E; subst. discriminate S. }
  destruct (String.eqb_spec s "-") as [E|_]; [exfalso|].
  { subst s. destruct H as [H|[c [r [E S]]]]; [cbn in H; lia|]. inversion E; subst. discriminate S. }
  destruct (String.eqb_spec s "") as [E|_]; [exfalso|reflexivity].
  subst s. destruct H as [H|[c [r [E S]]]]; [cbn in H; lia|discriminate E].
Qed.

Lemma token_value_imaginary (sg m : string) (p : float * float) :
  opt_sign sg = true -> Text.is_empty m || numeral m = true ->
  token_value (sg ++ m ++ "i") p
  = (fst p, snd p + parseFloat (sg ++ (if Text.is_empty m then "1" else m))).
Proof.
  intros Sg Hm. unfold token_value.
  assert (N : no_i (sg ++ m) = true).
  { rewrite no_i_app, (no_i_opt_sign _ Sg). cbn [andb].
    destruct m as [|c m]; [reflexivity|]. cbn [Text.is_empty orb] in Hm.
    apply numeral_parts in Hm. apply Hm. }
  rewrite <- app_assoc, has_i_app, (drop_i_app _ N).
  destruct m as [|c m].
  - rewrite app_empty_r. cbn [Text.is_empty].
    destruct (opt_sign_cases sg Sg) as [-> | [-> | ->]]; reflexivity.
  - cbn [Text.is_empty orb] in *. rewrite not_lone_sign; [reflexivity|].
    assert (Sc : is_sign c = false).
    { unfold numeral in Hm. cbn [Text.is_empty negb all_chars andb] in Hm.
      apply andb_true_iff in Hm. destruct Hm as [Hc _].
      apply (numeral_class c Hc). }
    destruct (opt_sign_cases sg Sg) as [-> | [-> | ->]]; cbn [append].
    + right. exists c, m. auto.
    + left. cbn. lia.
    + left. cbn. lia.
Qed.

Lemma head_not_sign (sb t : string) :
  a_sign sb = true -> head_not class_di_dot (sb ++ t) = true /\ head_not is_e (sb ++ t) = true.
Proof. intro H. destruct (a_sign_cases sb H) as [-> | ->]; split; reflexivity. Qed.

Lemma yields_scan (a : string) (r i : float) :
  scan (S (String.length a)) a (0, 0) false = ((r, i), true) ->
  yields (Complex_string a) (construct r i).
Proof. intros H P. rewrite Complex_string_run, H. reflexivity. Qed.

Lemma scan_one (a tmp : string) (p : float * float) (i : bool) :
  exec a = Some (tmp, "") ->
  scan (S (String.length a)) a p i = (token_value tmp p, true).
Proof. intro E. rewrite (scan_step _ _ _ _ _ E). apply scan_end. reflexivity. Qed.

Lemma scan_two (a t1 rest t2 : string) (p : float * float) (i : bool) :
  exec a = Some (t1, rest) -> exec rest = Some (t2, "") ->
  scan (S (String.length a)) a p i = (token_value t2 (token_value t1 p), true).
Proof. intros E1 E2. rewrite (scan_step _ _ _ _ _ E1). apply scan_one, E2. Qed.

Lemma imaginary_tail (mb : string) :
  Text.is_empty mb || numeral mb = true ->
  is_empty (mb ++ "i") = false /\ all_chars class_di_dot (mb ++ "i") = true
  /\ second_not_e (mb ++ "i") = true.
Proof.
  intro H. destruct mb as [|c m]; [repeat split|]. cbn [Text.is_empty orb] in H.
  destruct (numeral_parts _ H) as [E [A [_ Ne]]]. split; [reflexivity|]. split.
  - rewrite all_chars_app, A. reflexivity.
  - apply second_not_e_app; [exact E|exact Ne|reflexivity].
Qed.

Lemma exec_real_last (sa ma : string) :
  opt_sign sa = true -> numeral ma = true -> exec (sa ++ ma) = Some (sa ++ ma, "").
Proof.
  intros Sa Ma. destruct (numeral_parts _ Ma) as [E [A [_ Ne]]].
  apply exec_last; try assumption.
  rewrite <- (app_empty_r ma). apply second_not_e_app; [exact E|exact Ne|reflexivity].
Qed.

Lemma exec_real_then_sign (sa ma sb t : string) :
  opt_sign sa = true -> numeral ma = true -> a_sign sb = true ->
  exec (sa ++ ma ++ sb ++ t) = Some (sa ++ ma, sb ++ t).
Proof.
  intros Sa Ma Sb. destruct (numeral_parts _ Ma) as [E [A [_ Ne]]].
  destruct (head_not_sign sb t Sb) as [H1 H2].
  apply exec_token; try assumption. apply second_not_e_app; assumption.
Qed.

Lemma exec_imaginary_last (sb mb : string) :
  opt_sign sb = true -> Text.is_empty mb || numeral mb = true ->
  exec (sb ++ mb ++ "i") = Some (sb ++ mb ++ "i", "").
Proof.
  intros Sb Mb. destruct (imaginary_tail mb Mb) as [E [A S]].
  apply exec_last; assumption.
Qed.

Lemma no_i_real (sa ma : string) :
  opt_sign sa = true -> numeral ma = true -> no_i (sa ++ ma) = true.
Proof.
  intros Sa Ma. rewrite no_i_app, (no_i_opt_sign _ Sa).
  apply (numeral_parts _ Ma).
Qed.

Lemma real_form (sa ma : string) :
  opt_sign sa = true -> numeral ma = true ->
  yields (Complex_string (sa ++ ma)) (construct (0 + parseFloat (sa ++ ma)) 0).
Proof.
  intros Sa Ma. apply yields_scan.
  rewrite (scan_one _ _ _ _ (exec_real_last sa ma Sa Ma)).
  rewrite (token_value_real _ _ (no_i_real sa ma Sa Ma)). reflexivity.
Qed.

Lemma complex_form (sa ma sb mb : string) :
  opt_sign sa = true -> numeral ma = true ->
  a_sign sb = true -> Text.is_empty mb || numeral mb = true ->
  yields (Complex_string (sa ++ ma ++ sb ++ mb ++ "i"))
    (construct (0 + parseFloat (sa ++ ma))
               (0 + parseFloat (sb ++ (if Text.is_empty mb then "1" else mb)))).
Proof.
  intros Sa Ma Sb Mb. apply yields_scan.
  rewrite (scan_two _ _ _ _ _ _ (exec_real_then_sign sa ma sb (mb ++ "i") Sa Ma Sb)
             (exec_imaginary_last sb mb (a_sign_opt _ Sb) Mb)).
  rewrite (token_value_real _ _ (no_i_real sa ma Sa Ma)).
  rewrite (token_value_imaginary sb mb _ (a_sign_opt _ Sb) Mb). reflexivity.
Qed.

Lemma imaginary_form (sa mb : string) :
  opt_sign sa = true -> Text.is_empty mb || numeral mb = true ->
  yields (Complex_string (sa ++ mb ++ "i"))
    (construct 0 (0 + parseFloat (sa ++ (if Text.is_empty mb then "1" else mb)))).
Proof.
  intros Sa Mb. apply yields_scan.
  rewrite (scan_one _ _ _ _ (exec_imaginary_last sa mb Sa Mb)).
  rewrite (token_value_imaginary sa mb _ Sa Mb). reflexivity.
Qed.

(** X23. The constructor on the strings a user writes. With [a] and [b]
    written in digits and dots, an optional sign before [a] and a sign
    before [b]: the string [a] gives the real number [a]; [a+bi] and
    [a-bi] give the real part [a] and the imaginary part [+b] or [-b];
    [bi] alone gives a purely imaginary number; and a missing [b]
    ([a+i], [-i], [i]) stands for one. Each part is [parseFloat] of its
    text, added to zero. *)
Theorem string_forms (sa ma sb mb : string) :
  opt_sign sa = true -> numeral ma = true ->
  a_sign sb = true -> Text.is_empty mb || numeral mb = true ->
  yields (Complex_string (sa ++ ma)) (construct (0 + parseFloat (sa ++ ma)) 0)
  /\ yields (Complex_string (sa ++ ma ++ sb ++ mb ++ "i"))
       (construct (0 + parseFloat (sa ++ ma))
                  (0 + parseFloat (sb ++ (if Text.is_empty mb then "1" else mb))))
  /\ yields (Complex_string (sa ++ mb ++ "i"))
       (construct 0 (0 + parseFloat (sa ++ (if Text.is_empty mb then "1" else mb)))).
Proof.
  intros Sa Ma Sb Mb. split; [|split].
  - apply real_form; assumption.
  - apply complex_form; assumption.
  - apply imaginary_form; assumption.
Qed.

Lemma string_forms_witness :
  opt_sign "" = true /\ numeral "99.3" = true /\ a_sign "+" = true
  /\ Text.is_empty "8" || numeral "8" = true
  /\ returns (Complex_string "99.3+8i") (mkComplex 99.3 8)
  /\ returns (Complex_string "23.1337") (mkComplex 23.1337 0)
  /\ returns (Complex_string "3-i") (mkComplex 3 (-1))
  /\ returns (Complex_string "-i") (mkComplex 0 (-1)).
Proof.
  do 4 (split; [reflexivity|]).
  split; [|split; [|split]]; intro P.
  - rewrite (proj1 (proj2 (string_forms "" "99.3" "+" "8" eq_refl eq_refl eq_refl eq_refl))).
    vm_compute. reflexivity.
  - rewrite (proj1 (string_forms "" "23.1337" "+" "" eq_refl eq_refl eq_refl eq_refl)).
    vm_compute. reflexivity.
  - rewrite (proj1 (proj2 (string_forms "" "3" "-" "" eq_refl eq_refl eq_refl eq_refl))).
    vm_compute. reflexivity.
  - rewrite (proj2 (proj2 (string_forms "-" "3" "-" "" eq_refl eq_refl eq_refl eq_refl))).
    vm_compute. reflexivity.
Defined.

(** ** An exponent after more than one digit *)

Lemma exec_skip_e (t : string) : exec (String "e" t) = exec t.
Proof. apply exec_skip; [reflexivity|right; reflexivity]. Qed.

Lemma digits_parts (es : string) :
  digits es = true ->
  is_empty es = false /\ all_chars class_di es = true /\ all_chars is_digit es = true.
Proof.
  unfold digits. intro H. apply andb_true_iff in H. destruct H as [E A].
  apply negb_true_iff in E. split; [exact E|]. split; [|exact A].
  revert A. apply all_chars_weaken. intros c Hc. unfold class_di. rewrite Hc. reflexivity.
Qed.

Lemma alt1_exponent (d : ascii) (sg es : string) :
  class_di_dot d = true -> opt_sign sg = true ->
  is_empty es = false -> all_chars class_di es = true -> head_not is_sign es = true ->
  alt1 (String d ("e" ++ sg ++ es)) = Some (String d ("e" ++ sg ++ es), "").
Proof.
  intros Cd Sg Ee Ac Hs. cbn [append]. unfold alt1. rewrite Cd.
  change (is_e "e") with true. cbn [andb].
  destruct (opt_sign_cases sg Sg) as [-> | [-> | ->]]; cbn [append].
  - destruct es as [|c es]; [discriminate Ee|]. cbn [head_not] in Hs.
    apply negb_true_iff in Hs. rewrite Hs, (span_all _ _ Ac). reflexivity.
  - change (is_sign "+") with true. cbv iota.
    rewrite (span_all _ _ Ac), Ee. reflexivity.
  - change (is_sign "-") with true. cbv iota.
    rewrite (span_all _ _ Ac), Ee. reflexivity.
Qed.

Lemma exponent_form (sa ma sg es : string) :
  opt_sign sa = true -> numeral ma = true -> (2 <= String.length ma)%nat ->
  opt_sign sg = true -> digits es = true ->
  yields (Complex_string (sa ++ ma ++ "e" ++ sg ++ es))
    (construct (0 + parseFloat (sa ++ ma) + parseFloat (sg ++ es)) 0).
Proof.
  intros Sa Ma L Sg Es.
  destruct (numeral_parts _ Ma) as [E [A [_ Ne]]].
  pose proof (digits_numeral _ Es) as Nes.
  apply yields_scan.
  assert (E1 : exec (sa ++ ma ++ "e" ++ sg ++ es) = Some (sa ++ ma, "e" ++ sg ++ es)).
  { apply exec_token; try assumption; [reflexivity|].
    apply second_not_e_long; assumption. }
  assert (E2 : exec ("e" ++ sg ++ es) = Some (sg ++ es, "")).
  { cbn [append]. rewrite exec_skip_e.
    apply exec_real_last; assumption. }
  rewrite (scan_two _ _ _ _ _ _ E1 E2).
  rewrite (token_value_real _ _ (no_i_real sa ma Sa Ma)).
  rewrite (token_value_real _ _ (no_i_real sg es Sg Nes)). reflexivity.
Qed.

(** X24. An exponent is read as a second number. The pattern accepts
    the letter [e] only after one character: a string [m e x] whose
    mantissa [m] has two characters or more is cut into the matches [m]
    and [x], and the result is their sum, not [m] times a power of ten;
    only after a mantissa of one digit is the exponent read as one. *)
Theorem string_exponent_split (sa ma sg es : string) (d : ascii) :
  opt_sign sa = true -> numeral ma = true -> (2 <= String.length ma)%nat ->
  opt_sign sg = true -> digits es = true -> Text.is_digit d = true ->
  yields (Complex_string (sa ++ ma ++ "e" ++ sg ++ es))
    (construct (0 + parseFloat (sa ++ ma) + parseFloat (sg ++ es)) 0)
  /\ yields (Complex_string (sa ++ String d ("e" ++ sg ++ es)))
       (construct (0 + parseFloat (sa ++ String d ("e" ++ sg ++ es))) 0).
Proof.
  intros Sa Ma L Sg Es Dd.
  destruct (numeral_parts _ Ma) as [E [A [_ Ne]]].
  pose proof (digits_numeral _ Es) as Nes.
  split; [apply exponent_form; assumption|apply yields_scan].
  - destruct (digits_parts _ Es) as [Ee [Ac Ad]].
    assert (Cd : class_di_dot d = true) by (unfold class_di_dot; rewrite Dd; reflexivity).
    assert (Hs : head_not is_sign es = true).
    { destruct es as [|c es]; [reflexivity|]. cbn [head_not].
      cbn [all_chars] in Ad. apply andb_true_iff in Ad. destruct Ad as [Hc _].
      apply negb_true_iff. apply (numeral_class c). rewrite Hc. reflexivity. }
    assert (G : group (String d ("e" ++ sg ++ es)) = Some (String d ("e" ++ sg ++ es), "")).
    { unfold group. rewrite (alt1_exponent d sg es Cd Sg Ee Ac Hs). reflexivity. }
    assert (Sd : is_sign d = false).
    { apply (numeral_class d). rewrite Dd. reflexivity. }
    assert (E1 : exec (sa ++ String d ("e" ++ sg ++ es))
                 = Some (sa ++ String d ("e" ++ sg ++ es), "")).
    { apply exec_here.
      destruct (opt_sign_cases sa Sa) as [-> | [-> | ->]]; cbn [append match_at].
      - rewrite Sd. exact G.
      - change (is_sign "+") with true. cbv iota. cbn [append] in G. rewrite G. reflexivity.
      - change (is_sign "-") with true. cbv iota. cbn [append] in G. rewrite G. reflexivity. }
    rewrite (scan_one _ _ _ _ E1).
    rewrite token_value_real; [reflexivity|].
    rewrite no_i_app, (no_i_opt_sign _ Sa). cbn [andb]. unfold no_i. cbn [all_chars].
    assert (Nd : Ascii.eqb d "i" = false).
    { apply (numeral_class d). rewrite Dd. reflexivity. }
    rewrite Nd. cbn [negb andb append all_chars].
    change (Ascii.eqb "e" "i") with false. cbn [negb andb].
    fold (no_i (sg ++ es)). apply no_i_real; assumption.
Qed.

Lemma string_exponent_split_witness :
  opt_sign "" = true /\ numeral "12" = true /\ (2 <= String.length "12")%nat
  /\ opt_sign "-" = true /\ digits "7" = true /\ Text.is_digit "1" = true
  /\ returns (Complex_string "12e5") (mkComplex 17 0)
  /\ returns (Complex_string "1e5") (mkComplex 100000 0)
  /\ returns (Complex_string "1.5e-7") (mkComplex (-5.5) 0).
Proof.
  split; [reflexivity|]. split; [reflexivity|]. split; [cbn; lia|].
  do 3 (split; [reflexivity|]).
  split; [|split]; intro P.
  - rewrite (proj1 (string_exponent_split "" "12" "" "5" "1"
                      eq_refl eq_refl ltac:(cbn; lia) eq_refl eq_refl eq_refl)).
    vm_compute. reflexivity.
  - rewrite (proj2 (string_exponent_split "" "12" "" "5" "1"
                      eq_refl eq_refl ltac:(cbn; lia) eq_refl eq_refl eq_refl)).
    vm_compute. reflexivity.
  - rewrite (proj1 (string_exponent_split "" "1.5" "-" "7" "1"
                      eq_refl eq_refl ltac:(cbn; lia) eq_refl eq_refl eq_refl)).
    vm_compute. reflexivity.
Defined.

(** ** What [parseFloat] reads *)

Lemma digit_class (c : ascii) :
  is_digit c = true ->
  Ascii.eqb "I" c = false /\ is_space c = false /\ Ascii.eqb c "-" = false
  /\ Ascii.eqb c "+" = false.
Proof.
  unfold is_digit, is_space, code.
  destruct c as [[] [] [] [] [] [] [] []]; intro H; try discriminate H; repeat split.
Qed.

Lemma numeral_head (c : ascii) :
  is_digit c || is_dot c = true ->
  Ascii.eqb "I" c = false /\ is_space c = false /\ Ascii.eqb c "-" = false
  /\ Ascii.eqb c "+" = false.
Proof.
  unfold is_digit, is_dot, is_space, code.
  destruct c as [[] [] [] [] [] [] [] []]; intro H; try discriminate H; repeat split.
Qed.

Lemma parseFloat_signed (neg : bool) (s : string) :
  parseFloat ((if neg then "-" else "+") ++ s) = decimal_literal neg s.
Proof. destruct neg; reflexivity. Qed.

Lemma parseFloat_numeral (m : string) :
  numeral m = true -> parseFloat m = decimal_literal false m.
Proof.
  unfold numeral. intro H. apply andb_true_iff in H. destruct H as [E A].
  destruct m as [|c m]; [discriminate E|]. cbn [all_chars] in A.
  apply andb_true_iff in A. destruct A as [Hc _].
  destruct (numeral_head c Hc) as [_ [Sp [Mi Pl]]].
  unfold parseFloat. cbn [trim_left]. rewrite Sp. cbn [take_sign]. rewrite Mi, Pl.
  reflexivity.
Qed.

Lemma parseFloat_plus (m : string) :
  numeral m = true -> parseFloat ("+" ++ m) = parseFloat m.
Proof. intro H. rewrite (parseFloat_numeral m H). exact (parseFloat_signed false m). Qed.

(** After digits, a letter that is no exponent ends the number. *)
Lemma decimal_literal_digits (neg : bool) (mb t : string) :
  digits mb = true ->
  head_not (fun c => is_digit c || is_dot c || Ascii.eqb c "e" || Ascii.eqb c "E") t = true ->
  decimal_literal neg (mb ++ t) = decimal_literal neg mb.
Proof.
  intros D H. destruct (digits_parts _ D) as [E [_ A]].
  assert (Hd : head_not is_digit t = true).
  { destruct t as [|c r]; [reflexivity|]. cbn [head_not] in *.
    apply negb_true_iff in H. apply negb_true_iff.
    destruct (is_digit c); [discriminate H|reflexivity]. }
  unfold decimal_literal.
  assert (I : forall r, starts_with_Infinity (mb ++ r) = false).
  { intro r. destruct mb as [|c m]; [discriminate E|]. cbn [all_chars] in A.
    apply andb_true_iff in A. destruct A as [Hc _].
    destruct (digit_class c Hc) as [Hi _].
    unfold starts_with_Infinity. cbn [append String.prefix]. 
    destruct (ascii_dec "I" c) as [Eq|_]; [|reflexivity].
    subst c. discriminate Hi. }
  assert (I0 : starts_with_Infinity mb = false) by (rewrite <- (app_empty_r mb); apply I).
  rewrite (I t), I0, (span_app _ _ _ A Hd), (span_all _ _ A).
  destruct t as [|c r]; [reflexivity|]. cbn [head_not] in H. apply negb_true_iff in H.
  unfold is_dot in *.
  destruct (Ascii.eqb c ".") eqn:Dc; [rewrite orb_true_r in H; discriminate H|].
  rewrite E. cbn [andb exponent_part].
  destruct (Ascii.eqb c "e"); [rewrite orb_true_r in H; discriminate H|].
  destruct (Ascii.eqb c "E"); [rewrite orb_true_r in H; discriminate H|].
  reflexivity.
Qed.

(** X25. The pattern matches the letter [I] in either case, but only a
    lower-case [i] marks a match as imaginary: in [a+bI] the second match
    is read by [parseFloat], which stops before the [I], and is added to
    the real part; the same string with [i] has the imaginary part [b]. *)
Theorem string_upper_case_I (sa ma sb mb : string) :
  opt_sign sa = true -> numeral ma = true -> a_sign sb = true -> digits mb = true ->
  yields (Complex_string (sa ++ ma ++ sb ++ mb ++ "I"))
    (construct (0 + parseFloat (sa ++ ma) + parseFloat (sb ++ mb)) 0)
  /\ yields (Complex_string (sa ++ ma ++ sb ++ mb ++ "i"))
       (construct (0 + parseFloat (sa ++ ma)) (0 + parseFloat (sb ++ mb))).
Proof.
  intros Sa Ma Sb Mb. pose proof (digits_numeral _ Mb) as Nb.
  destruct (numeral_parts _ Nb) as [E [A [Ni Ne]]].
  split.
  - apply yields_scan.
    assert (E2 : exec (sb ++ mb ++ "I") = Some (sb ++ mb ++ "I", "")).
    { apply exec_last; [exact (a_sign_opt _ Sb)| | |].
      - destruct mb; [discriminate E|reflexivity].
      - rewrite all_chars_app, A. reflexivity.
      - apply second_not_e_app; [exact E|exact Ne|reflexivity]. }
    rewrite (scan_two _ _ _ _ _ _ (exec_real_then_sign sa ma sb (mb ++ "I") Sa Ma Sb) E2).
    rewrite (token_value_real _ _ (no_i_real sa ma Sa Ma)).
    rewrite token_value_real.
    2:{ rewrite !no_i_app, (no_i_opt_sign _ (a_sign_opt _ Sb)), Ni. reflexivity. }
    cbn [fst snd].
    destruct (a_sign_cases sb Sb) as [-> | ->].
    + rewrite (parseFloat_signed false), (parseFloat_signed false).
      rewrite decimal_literal_digits; [reflexivity|exact Mb|reflexivity].
    + rewrite (parseFloat_signed true), (parseFloat_signed true).
      rewrite decimal_literal_digits; [reflexivity|exact Mb|reflexivity].
  - assert (Hm : Text.is_empty mb || numeral mb = true) by (rewrite Nb; apply orb_true_r).
    pose proof (complex_form sa ma sb mb Sa Ma Sb Hm) as H. rewrite E in H. exact H.
Qed.

Lemma string_upper_case_I_witness :
  opt_sign "" = true /\ numeral "3" = true /\ a_sign "+" = true /\ digits "4" = true
  /\ returns (Complex_string "3+4I") (mkComplex 7 0)
  /\ returns (Complex_string "3+4i") (mkComplex 3 4).
Proof.
  do 4 (split; [reflexivity|]). split; intro P.
  - rewrite (proj1 (string_upper_case_I "" "3" "+" "4" eq_refl eq_refl eq_refl eq_refl)).
    vm_compute. reflexivity.
  - rewrite (proj2 (string_upper_case_I "" "3" "+" "4" eq_refl eq_refl eq_refl eq_refl)).
    vm_compute. reflexivity.
Defined.

(** ** Errors of the string form *)

(** X26. Errors of the string form. The only exception is
    ["Invalid Param"]; a value that is returned never has a NaN product
    of its parts; the outcome does not depend on what the scratch object
    held; and a string with no digit, no dot and no letter [i] or [I]
    (the empty string among them) gives no match and is refused. *)
Theorem string_errors (a : string) :
  (forall P msg, fst (Complex_string a P) = Throw msg -> msg = INVALID_PARAM)
  /\ (forall P z, fst (Complex_string a P) = Normal z -> JS.isNaN (re z * im z) = false)
  /\ indep (Complex_string a)
  /\ (all_chars (fun c => negb (class_di_dot c)) a = true ->
      raises (Complex_string a) INVALID_PARAM).
Proof.
  split; [|split; [|split]].
  - intros P msg. rewrite Complex_string_run.
    destruct (scan _ a (0, 0) false) as [[r i] b]. destruct b.
    + apply construct_throws.
    + intro H. inversion H. reflexivity.
  - intros P z. rewrite Complex_string_run.
    destruct (scan _ a (0, 0) false) as [[r i] b]. destruct b; [|discriminate].
    intro H. apply construct_valid in H. destruct H as [-> V]. exact V.
  - intros P Q. rewrite !Complex_string_run. reflexivity.
  - intros H P. rewrite Complex_string_run, (scan_end _ _ _ _ (exec_none a H)). reflexivity.
Qed.

Lemma string_errors_witness :
  all_chars (fun c => negb (class_di_dot c)) "x + y" = true
  /\ raises (Complex_string "x + y") INVALID_PARAM
  /\ raises (Complex_string "") INVALID_PARAM.
Proof.
  split; [reflexivity|]. split.
  - exact (proj2 (proj2 (proj2 (string_errors "x + y"))) eq_refl).
  - exact (proj2 (proj2 (proj2 (string_errors ""))) eq_refl).
Defined.

(** ** From a value to its string and back *)

Lemma sign_cases (b : float) :
  is_nan b = false -> (b =? 0) = false ->
  ((0 <? b) = true /\ (b <? 0) = false) \/ ((0 <? b) = false /\ (b <? 0) = true).
Proof.
  intros N Z. apply is_nan_false_Prim2SF in N.
  rewrite FloatAxioms.eqb_spec in Z. rewrite !FloatAxioms.ltb_spec.
  change (Prim2SF 0) with (S754_zero false) in *.
  destruct (Prim2SF b) as [s|s| |s m e]; try congruence; try discriminate Z;
    destruct s; auto.
Qed.

Lemma eqb_minus_one (b : float) : (b =? -1) = true -> b = -1.
Proof.
  intro H. destruct (eqb_cases b (-1) H) as [E|[_ Z]]; [exact E|discriminate Z].
Qed.

Lemma zero_plus (x : float) : is_nan x = false -> (x =? 0) = false -> 0 + x = x.
Proof. intros N Z. exact (proj2 (add_zero_l x 0 N eq_refl) Z). Qed.

Lemma written_parts (x : float) (s : string) :
  written_plain x s ->
  exists sg body, s = sg ++ body /\ opt_sign sg = true /\ numeral body = true
                  /\ parseFloat (sg ++ body) = x
                  /\ sg = (if x <? 0 then "-" else "").
Proof.
  intros [body [E [Nb Pf]]]. exists (if x <? 0 then "-" else ""), body.
  subst s. repeat split; try assumption. destruct (x <? 0); reflexivity.
Qed.

Lemma returns_construct (c : Js complex) (r i : float) (w : complex) :
  yields c (construct r i) -> JS.isNaN (r * i) = false -> w = mkComplex r i ->
  returns c w.
Proof. intros Y V -> P. rewrite Y. unfold construct. rewrite V. reflexivity. Qed.

Lemma numeral_not_empty (sg body t : string) :
  numeral body = true -> is_empty (sg ++ body ++ t) = false.
Proof.
  intro H. apply numeral_parts in H. destruct H as [E _].
  destruct sg; [|reflexivity]. destruct body; [discriminate E|reflexivity].
Qed.

(** X27. Round trip. For a value whose parts are not NaN and do not
    multiply to NaN, if the engine writes each part that [toString]
    prints (a nonzero real part, an imaginary part other than 0, 1, -1)
    as a plain decimal (a minus sign when negative, digits and dots,
    reading back as the number), then the constructor applied to the
    string of [toString] returns the same value, up to the sign of a
    zero part. *)
Theorem toString_reads_back {N : NumberToString} (z : complex) :
  JS.isNaN (re z * im z) = false ->
  ((re z =? 0) = false -> written_plain (re z) (ToString (re z))) ->
  ((im z =? 0) = false -> (im z =? 1) = false -> (im z =? -1) = false ->
   written_plain (im z) (ToString (im z))) ->
  returns (Complex_string (toString z))
    (mkComplex (if re z =? 0 then 0 else re z) (if im z =? 0 then 0 else im z)).
Proof.
  destruct z as [a b]. cbn [re im]. intros V Ha Hb.
  destruct (mul_not_nan _ _ V) as [Na Nb]. unfold JS.isNaN in V.
  assert (Ra : (a =? a) = true) by (apply eqb_refl_not_nan, Na).
  assert (Rb : (b =? b) = true) by (apply eqb_refl_not_nan, Nb).
  unfold toString. cbn [re im]. unfold JS.isNaN. rewrite V.
  destruct (a =? 0) eqn:Za; destruct (b =? 0) eqn:Zb.
  - (* both zero *)
    intro P. reflexivity.
  - (* a purely imaginary value *)
    rewrite andb_false_r.
    assert (Vi : is_nan (0 * b) = false).
    { rewrite <- V. apply mul_is_nan_eqb; [rewrite eqb_sym; exact Za|exact Rb]. }
    destruct (b =? -1) eqn:M1.
    { apply eqb_minus_one in M1. subst b. intro P. reflexivity. }
    destruct (b =? 1) eqn:P1.
    { apply eqb_1_true in P1. subst b. intro P. reflexivity. }
    destruct (written_parts _ _ (Hb eq_refl eq_refl eq_refl)) as [sg [body [E [Sg [Nm [Pf _]]]]]].
    rewrite E. cbn [append]. rewrite app_assoc.
    rewrite (numeral_not_empty sg body "i" Nm).
    apply (returns_construct _ 0 (0 + parseFloat (sg ++ body))).
    + pose proof (imaginary_form sg body Sg ltac:(rewrite Nm; apply orb_true_r)) as Y.
      destruct (numeral_parts _ Nm) as [Eb _]. rewrite Eb in Y. exact Y.
    + rewrite Pf, (zero_plus b Nb Zb). exact Vi.
    + rewrite Pf, (zero_plus b Nb Zb). reflexivity.
  - (* a real value *)
    destruct (written_parts _ _ (Ha eq_refl)) as [sg [body [E [Sg [Nm [Pf _]]]]]].
    rewrite E. cbn [append].
    rewrite <- (app_empty_r (sg ++ body)) at 1. rewrite app_assoc.
    rewrite (numeral_not_empty sg body "" Nm).
    apply (returns_construct _ (0 + parseFloat (sg ++ body)) 0).
    + apply real_form; assumption.
    + rewrite Pf, (zero_plus a Na Za). rewrite <- V.
      apply mul_is_nan_eqb; [exact Ra|rewrite eqb_sym; exact Zb].
    + rewrite Pf, (zero_plus a Na Za). reflexivity.
  - (* both parts *)
    destruct (written_parts _ _ (Ha eq_refl)) as [sa [ma [Ea [Sa [Nma [Pfa _]]]]]].
    rewrite Ea. cbn [append negb andb].
    destruct (b =? -1) eqn:M1.
    { apply eqb_minus_one in M1. subst b. change (0 <? -1) with false. cbn [andb negb].
      rewrite !app_assoc. rewrite (numeral_not_empty sa ma _ Nma).
      apply (returns_construct _ (0 + parseFloat (sa ++ ma)) (0 + parseFloat ("-" ++ "1"))).
      - exact (complex_form sa ma "-" "" Sa Nma eq_refl eq_refl).
      - rewrite Pfa, (zero_plus a Na Za). exact V.
      - rewrite Pfa, (zero_plus a Na Za). reflexivity. }
    destruct (b =? 1) eqn:P1.
    { apply eqb_1_true in P1. subst b. change (0 <? 1) with true. cbn [andb negb].
      rewrite !app_assoc. rewrite (numeral_not_empty sa ma _ Nma).
      apply (returns_construct _ (0 + parseFloat (sa ++ ma)) (0 + parseFloat ("+" ++ "1"))).
      - exact (complex_form sa ma "+" "" Sa Nma eq_refl eq_refl).
      - rewrite Pfa, (zero_plus a Na Za). exact V.
      - rewrite Pfa, (zero_plus a Na Za). reflexivity. }
    destruct (written_parts _ _ (Hb eq_refl eq_refl eq_refl)) as [sb [mb [Eb [Sb [Nmb [Pfb Sgb]]]]]].
    rewrite Eb.
    assert (Hm : Text.is_empty mb || numeral mb = true) by (rewrite Nmb; apply orb_true_r).
    destruct (numeral_parts _ Nmb) as [Emb _].
    destruct (sign_cases b Nb Zb) as [[L1 L2]|[L1 L2]]; rewrite L1; rewrite L2 in Sgb;
      subst sb; cbn [append andb negb].
    + rewrite !app_assoc. rewrite (numeral_not_empty sa ma _ Nma).
      apply (returns_construct _ (0 + parseFloat (sa ++ ma)) (0 + parseFloat ("+" ++ mb))).
      * pose proof (complex_form sa ma "+" mb Sa Nma eq_refl Hm) as Y.
        rewrite Emb in Y. exact Y.
      * rewrite Pfa, (zero_plus a Na Za), (parseFloat_plus mb Nmb).
        cbn [append] in Pfb. rewrite Pfb, (zero_plus b Nb Zb). exact V.
      * rewrite Pfa, (zero_plus a Na Za), (parseFloat_plus mb Nmb).
        cbn [append] in Pfb. rewrite Pfb, (zero_plus b Nb Zb). reflexivity.
    + rewrite !app_assoc. rewrite (numeral_not_empty sa ma _ Nma).
      apply (returns_construct _ (0 + parseFloat (sa ++ ma)) (0 + parseFloat ("-" ++ mb))).
      * pose proof (complex_form sa ma "-" mb Sa Nma eq_refl Hm) as Y.
        rewrite Emb in Y. exact Y.
      * rewrite Pfa, (zero_plus a Na Za), Pfb, (zero_plus b Nb Zb). exact V.
      * rewrite Pfa, (zero_plus a Na Za), Pfb, (zero_plus b Nb Zb). reflexivity.
Qed.

Lemma toString_reads_back_witness :
  JS.isNaN (3.5 * -0.25) = false
  /\ written_plain 3.5 (ToString (NumberToString := RefNumber.engine) 3.5)
  /\ written_plain (-0.25) (ToString (NumberToString := RefNumber.engine) (-0.25))
  /\ returns (Complex_string (toString (N := RefNumber.engine) (mkComplex 3.5 (-0.25))))
       (mkComplex 3.5 (-0.25)).
Proof.
  assert (A : written_plain 3.5 (ToString (NumberToString := RefNumber.engine) 3.5)).
  { exists "3.5". vm_compute. repeat split; reflexivity. }
  assert (B : written_plain (-0.25) (ToString (NumberToString := RefNumber.engine) (-0.25))).
  { exists "0.25". vm_compute. repeat split; reflexivity. }
  split; [reflexivity|]. split; [exact A|]. split; [exact B|].
  exact (toString_reads_back (N := RefNumber.engine) (mkComplex 3.5 (-0.25))
           eq_refl (fun _ => A) (fun _ _ _ => B)).
Defined.

(** X28. Where the round trip fails. A value whose parts multiply to NaN
    (any infinite part beside a zero) is printed as ["NaN"], which the
    constructor refuses; and a real value that the engine writes with an
    exponent after a mantissa of two characters or more is read back as
    the sum of mantissa and exponent. *)
Theorem toString_not_read_back {N : NumberToString} (z : complex) :
  (JS.isNaN (re z * im z) = true ->
   raises (Complex_string (toString z)) INVALID_PARAM)
  /\ (forall sa ma sg es : string,
        JS.isNaN (re z * im z) = false ->
        (re z =? 0) = false -> (im z =? 0) = true ->
        ToString (re z) = sa ++ ma ++ "e" ++ sg ++ es ->
        opt_sign sa = true -> numeral ma = true -> (2 <= String.length ma)%nat ->
        opt_sign sg = true -> digits es = true ->
        yields (Complex_string (toString z))
          (construct (0 + parseFloat (sa ++ ma) + parseFloat (sg ++ es)) 0)).
Proof.
  destruct z as [a b]. cbn [re im]. split.
  - intros V. unfold toString. cbn [re im]. rewrite V. intro P. reflexivity.
  - intros sa ma sg es V Za Zb E Sa Ma L Sg Es.
    unfold toString. cbn [re im]. rewrite V, Za, Zb, E. cbn [negb append].
    rewrite (numeral_not_empty sa ma _ Ma).
    apply exponent_form; assumption.
Qed.

Lemma toString_not_read_back_witness :
  JS.isNaN (infinity * 0) = true
  /\ raises (Complex_string (toString (N := RefNumber.engine) (mkComplex infinity 0)))
       INVALID_PARAM
  /\ ToString (NumberToString := RefNumber.engine) 1.5e21 = "1.5e+21"
  /\ returns (Complex_string (toString (N := RefNumber.engine) (mkComplex 1.5e21 0)))
       (mkComplex 22.5 0).
Proof.
  split; [reflexivity|]. split.
  - exact (proj1 (toString_not_read_back (N := RefNumber.engine) (mkComplex infinity 0))
             eq_refl).
  - split; [vm_compute; reflexivity|]. intro P.
    rewrite (proj2 (toString_not_read_back (N := RefNumber.engine) (mkComplex 1.5e21 0))
               "" "1.5" "+" "21" eq_refl eq_refl eq_refl
               ltac:(vm_compute; reflexivity) eq_refl eq_refl ltac:(cbn; lia)
               eq_refl eq_refl).
    vm_compute. reflexivity.
Defined.
